(** * pgs-recon: the global scaler, its RANSAC engine and its utilities

    A shallow embedding of
    - [dependencies/utilities/src/RANSAC.hpp] (the generic [RANSAC] template
      and [RANSACResult]),
    - [dependencies/utilities/src/global_scaler.cpp] ([Triangulate],
      [EvalTriangulate], [TriangulateRansac], [DetectSampleSquare],
      [GetLandmarkID], [ScaleLandmarks] and the landmark / triangulation /
      scale stages of [main]),
    - [dependencies/utilities/src/global_scaler_types.hpp] ([Landmark],
      [Landmarks]),
    - [dependencies/utilities/src/global_scaler_io.cpp] ([swap32],
      [ScalePLYMesh], [WriteOBJ], [WritePLY], [WriteMesh] and the bins of
      [WriteScaleHistogram]),
    - [dependencies/utilities/src/gen_aruco_markers.cpp] ([PadAndLabel] and
      [GenerateContactSheets], as far as sizes and regions go).

    Floating-point numbers are kept behind the interface [Floating]: the
    program only adds, subtracts, multiplies, divides, takes square roots,
    compares and converts.  Two instances are given: IEEE binary64
    ([PrimFloat], the program's [double]) to run the code on concrete inputs,
    and exact extended reals to state what the formulas mean in exact
    arithmetic.  What comes from OpenCV, OpenMVG and the C++ library (the
    detectors, the solver, the sampler, the text size, the parsing and
    printing of numbers) is a variable of the section that uses it. *)

From Stdlib Require Import ZArith List Bool Lia Ascii.
From Stdlib Require Import Floats.
From Stdlib Require Import Reals Lra.
From stdpp Require Import base option list gmap strings pretty sorting.

Set Default Proof Using "Type".

(** ** Numbers *)

(** The operations of the floating type [T] the templates are instantiated
    with.  [s_lt a b] is [a < b] (so [a > b] is [s_lt b a]), [s_eq] is [==],
    [s_of_nat] is [static_cast<double>] of a [std::size_t], [s_inf] is
    [educelab::INF<T>]. *)
Class Floating (T : Type) := {
  s_zero : T;
  s_one : T;
  s_inf : T;
  s_add : T -> T -> T;
  s_sub : T -> T -> T;
  s_opp : T -> T;
  s_mul : T -> T -> T;
  s_div : T -> T -> T;
  s_sqrt : T -> T;
  s_lt : T -> T -> bool;
  s_eq : T -> T -> bool;
  s_of_nat : nat -> T
}.

(** What [RANSAC] takes from [<cmath>] and from the conversion of a [double]
    to [std::size_t] ([breakIter = std::min(...)]). *)
Class Libm (T : Type) := {
  s_log : T -> T;
  s_pow : T -> T -> T;
  s_to_size : T -> nat
}.

(** [std::min(a, b)]: [(b < a) ? b : a]. *)
Definition s_min {T} `{Floating T} (a b : T) : T :=
  if s_lt b a then b else a.

(** [x != x], the test behind Eigen's [hasNaN]. *)
Definition s_isnan {T} `{Floating T} (a : T) : bool := negb (s_eq a a).

(** IEEE binary64. *)
#[export] Instance float_Floating : Floating float := {
  s_zero := 0%float;
  s_one := 1%float;
  s_inf := infinity;
  s_add := PrimFloat.add;
  s_sub := PrimFloat.sub;
  s_opp := PrimFloat.opp;
  s_mul := PrimFloat.mul;
  s_div := PrimFloat.div;
  s_sqrt := PrimFloat.sqrt;
  s_lt := PrimFloat.ltb;
  s_eq := PrimFloat.eqb;
  s_of_nat := fun n => PrimFloat.of_uint63 (Uint63.of_Z (Z.of_nat n))
}.

(** ** RANSAC.hpp *)

Record RANSACResult (Value T : Type) := mkResult {
  error : T;
  fitness : T;
  inliers : list Value;
  inlier_rmse : T;
  success : bool
}.
Arguments mkResult {Value T}.
Arguments error {Value T}.
Arguments fitness {Value T}.
Arguments inliers {Value T}.
Arguments inlier_rmse {Value T}.
Arguments success {Value T}.

(** The default member initialisers of [RANSACResult]. *)
Definition RANSACResult_default {Value T} `{Floating T} : RANSACResult Value T :=
  {| error := s_inf; fitness := s_zero; inliers := []; inlier_rmse := s_inf;
     success := false |}.

Definition set_success {Value T} (b : bool) (r : RANSACResult Value T)
  : RANSACResult Value T :=
  {| error := error r; fitness := fitness r; inliers := inliers r;
     inlier_rmse := inlier_rmse r; success := b |}.

Section RANSAC.
Context {T : Type} {FT : Floating T} {LT : Libm T}.
Context {Value Model : Type}.

(** The function-local [static std::mt19937 rng]: its state is threaded
    through every call.  [seed_rng] is [rng.seed], [std_sample] is
    [std::sample(begin(x), end(x), back_inserter(samples), n, rng)]. *)
Context {Rng : Type}.
Variable seed_rng : N -> Rng.
Variable std_sample : list Value -> nat -> Rng -> list Value * Rng.

(** [Model bestModel;]: the value the best model starts with.  The
    declaration has no initialiser: for a [Model] whose default constructor
    sets nothing, as Eigen's fixed-size vectors, it is whatever the storage
    holds, and may differ from one call to the next. *)
Variable default_model : Model.
Variable fit : list Value -> bool * Model.
Variable eval : list Value -> Model -> RANSACResult Value T.

Record loop_state := mkLoop {
  bestResult : RANSACResult Value T;
  bestModel : Model;
  breakIter : nat;
  rng : Rng
}.

(** [improvedFitness or improvedRMSE] *)
Definition improvedFitness (result best : RANSACResult Value T) : bool :=
  s_lt (fitness best) (fitness result).
Definition improvedRMSE (result best : RANSACResult Value T) : bool :=
  s_eq (fitness result) (fitness best)
  && s_lt (inlier_rmse best) (inlier_rmse result).
Definition improved (result best : RANSACResult Value T) : bool :=
  improvedFitness result best || improvedRMSE result best.

(** The value assigned to [breakIter] after an improvement of fitness
    below 1. *)
Definition new_breakIter (nIters nSamples : nat) (probability f : T) : nat :=
  s_to_size
    (s_min (s_of_nat nIters)
           (s_div (s_log (s_sub s_one probability))
                  (s_log (s_sub s_one (s_pow f (s_of_nat nSamples)))))).

(** What one pass through the loop body does to the loop: go on to the
    next [i] ([continue] or falling off the end of the body) or [break]. *)
Inductive flow := Next (st : loop_state) | Break (st : loop_state).

Definition flow_state (f : flow) : loop_state :=
  match f with Next st => st | Break st => st end.

Definition iteration (x : list Value) (nSamples nIters : nat)
    (probability : T) (i : nat) (st : loop_state) : flow :=
  if breakIter st <? i then Break st else
  let '(samples, g) := std_sample x nSamples (rng st) in
  let st := mkLoop (bestResult st) (bestModel st) (breakIter st) g in
  let '(ok, model) := fit samples in
  if negb ok then Next st else
  let result := eval x model in
  if negb (success result) then Next st else
  if improved result (bestResult st) then
    if s_lt (fitness result) s_one then
      Next (mkLoop result model
              (new_breakIter nIters nSamples probability (fitness result)) g)
    else Break (mkLoop result model (breakIter st) g)
  else Next st.

(** [for (std::size_t i = 0; i < nIters; ++i)]: [remaining] is
    [nIters - i]. *)
Fixpoint iterate (x : list Value) (nSamples nIters : nat) (probability : T)
    (remaining i : nat) (st : loop_state) : loop_state :=
  match remaining with
  | 0 => st
  | S k =>
      match iteration x nSamples nIters probability i st with
      | Break st' => st'
      | Next st' => iterate x nSamples nIters probability k (S i) st'
      end
  end.

Definition initial_state (nIters : nat) (g : Rng) : loop_state :=
  mkLoop RANSACResult_default default_model nIters g.

(** The state of the loop when it is left. *)
Definition run_loop (x : list Value) (nSamples nIters : nat)
    (seed : option N) (probability : T) (g : Rng) : loop_state :=
  let g0 := match seed with Some s => seed_rng s | None => g end in
  iterate x nSamples nIters probability nIters 0 (initial_state nIters g0).

(** [RANSAC(x, fit, eval, nSamples, nIters, seed, probability)]; the last
    argument and the last component of the result are the generator's
    state before and after the call. *)
Definition RANSAC (x : list Value) (nSamples nIters : nat)
    (seed : option N) (probability : T) (g : Rng)
  : (Model * RANSACResult Value T) * Rng :=
  let st := run_loop x nSamples nIters seed probability g in
  let finalResult := eval x (bestModel st) in
  let '(ok, model) := fit (inliers finalResult) in
  ((model, set_success ok finalResult), rng st).

End RANSAC.
Arguments loop_state : clear implicits.

(** ** Vectors, poses and cameras

    [openMVG::Vec2], [Vec3], [Vec4] and [Mat3] are Eigen fixed-size types;
    only the operations the program calls are given.  A sum of three terms
    is taken as [t0 + (t1 + t2)], the order of Eigen's unrolled scalar
    reduction; the order only matters for the rounding. *)

Record Vec2 (T : Type) := mkVec2 { v2x : T; v2y : T }.
Record Vec3 (T : Type) := mkVec3 { v3x : T; v3y : T; v3z : T }.
Record Vec4 (T : Type) := mkVec4 { v4x : T; v4y : T; v4z : T; v4w : T }.
Record Mat3 (T : Type) := mkMat3 { row0 : Vec3 T; row1 : Vec3 T; row2 : Vec3 T }.
Arguments mkVec2 {T}.
Arguments v2x {T}.
Arguments v2y {T}.
Arguments mkVec3 {T}.
Arguments v3x {T}.
Arguments v3y {T}.
Arguments v3z {T}.
Arguments mkVec4 {T}.
Arguments v4x {T}.
Arguments v4y {T}.
Arguments v4z {T}.
Arguments v4w {T}.
Arguments mkMat3 {T}.
Arguments row0 {T}.
Arguments row1 {T}.
Arguments row2 {T}.

Section Geometry.
Context {T : Type} {FT : Floating T}.

Definition sum3 (a b c : T) : T := s_add a (s_add b c).

Definition vec2_sub (a b : Vec2 T) : Vec2 T :=
  mkVec2 (s_sub (v2x a) (v2x b)) (s_sub (v2y a) (v2y b)).
Definition vec2_norm (a : Vec2 T) : T :=
  s_sqrt (s_add (s_mul (v2x a) (v2x a)) (s_mul (v2y a) (v2y a))).

Definition vec3_sub (a b : Vec3 T) : Vec3 T :=
  mkVec3 (s_sub (v3x a) (v3x b)) (s_sub (v3y a) (v3y b))
         (s_sub (v3z a) (v3z b)).
Definition vec3_opp (a : Vec3 T) : Vec3 T :=
  mkVec3 (s_opp (v3x a)) (s_opp (v3y a)) (s_opp (v3z a)).
Definition vec3_dot (a b : Vec3 T) : T :=
  sum3 (s_mul (v3x a) (v3x b)) (s_mul (v3y a) (v3y b))
       (s_mul (v3z a) (v3z b)).
Definition vec3_norm (a : Vec3 T) : T := s_sqrt (vec3_dot a a).
Definition vec3_hasNaN (a : Vec3 T) : bool :=
  s_isnan (v3x a) || s_isnan (v3y a) || s_isnan (v3z a).
Definition mat3_mul_vec (m : Mat3 T) (v : Vec3 T) : Vec3 T :=
  mkVec3 (vec3_dot (row0 m) v) (vec3_dot (row1 m) v) (vec3_dot (row2 m) v).

(** [Xh.hnormalized()]: the first three coefficients divided by the
    last. *)
Definition hnormalized (h : Vec4 T) : Vec3 T :=
  mkVec3 (s_div (v4x h) (v4w h)) (s_div (v4y h) (v4w h))
         (s_div (v4z h) (v4w h)).

(** [openMVG::geometry::Pose3]: [pose(X)] is [rotation * (X - center)],
    [asMatrix()] is [[rotation | -(rotation * center)]]. *)
Record Pose3 := mkPose3 { rotation : Mat3 T; center : Vec3 T }.
Definition Mat34 : Type := Mat3 T * Vec3 T.
Definition pose_apply (p : Pose3) (X : Vec3 T) : Vec3 T :=
  mat3_mul_vec (rotation p) (vec3_sub X (center p)).
Definition asMatrix (p : Pose3) : Mat34 :=
  (rotation p, vec3_opp (mat3_mul_vec (rotation p) (center p))).

(** [openMVG::cameras::IntrinsicBase], an interface with virtual
    methods: an object is the record of the methods the program calls.
    [cam_bearing] is [operator()(const Vec2 &)], [cam_residual X x] is
    [residual(X, x)]. *)
Record IntrinsicBase := mkCam {
  cam_bearing : Vec2 T -> Vec3 T;
  cam_get_ud_pixel : Vec2 T -> Vec2 T;
  cam_residual : Vec3 T -> Vec2 T -> Vec2 T
}.

Record RansacObservation := mkRO {
  ro_obs : Vec2 T;
  ro_pt : Vec3 T;
  ro_cam : IntrinsicBase;
  ro_pose : Pose3
}.
End Geometry.
Arguments Pose3 T : clear implicits.
Arguments Mat34 T : clear implicits.
Arguments IntrinsicBase T : clear implicits.
Arguments RansacObservation T : clear implicits.

(** ** global_scaler.cpp: the triangulation model *)

Section Triangulation.
Context {T : Type} {FT : Floating T} {LT : Libm T}.
Context {Rng : Type}.
Variable seed_rng : N -> Rng.
Variable std_sample :
  list (RansacObservation T) -> nat -> Rng -> list (RansacObservation T) * Rng.

(** [openMVG::TriangulateNViewAlgebraic(mtx, poses, &Xh)]: the columns of
    [mtx] are the bearing vectors. *)
Variable TriangulateNViewAlgebraic :
  list (Vec3 T) -> list (Mat34 T) -> bool * Vec4 T.
(** The coefficients of a default-constructed [Vec3] ([{}] in
    [return {false, {}}], [Model bestModel;]), which Eigen leaves
    uninitialised. *)
Variable Vec3_default : Vec3 T.

(** [ro.pt.dot(ro.pose(X)) > 0.0] *)
Definition chirality (ro : RansacObservation T) (X : Vec3 T) : bool :=
  s_lt s_zero (vec3_dot (ro_pt ro) (pose_apply (ro_pose ro) X)).

Definition Triangulate (x : list (RansacObservation T)) : bool * Vec3 T :=
  let pts := map ro_pt x in
  let poses := map (fun ro => asMatrix (ro_pose ro)) x in
  let '(solved, Xh) := TriangulateNViewAlgebraic pts poses in
  if negb solved then (false, Vec3_default) else
  let X := hnormalized Xh in
  if vec3_hasNaN X then (false, Vec3_default) else
  if forallb (fun ro => chirality ro X) x then (true, X)
  else (false, Vec3_default).

(** [constexpr double threshold = 0.1]: the quotient 1/10 rounds to the
    same binary64 value as the literal. *)
Definition threshold : T := s_div s_one (s_of_nat 10).

(** [ro.cam->residual(ro.pose(X), ro.obs).norm()] *)
Definition reprojection_error (ro : RansacObservation T) (X : Vec3 T) : T :=
  vec2_norm (cam_residual (ro_cam ro) (pose_apply (ro_pose ro) X) (ro_obs ro)).

Definition accumulate_inlier (result : RANSACResult (RansacObservation T) T)
    (err : T) (ro : RansacObservation T) :=
  {| error := s_add (error result) err; fitness := fitness result;
     inliers := inliers result ++ [ro]; inlier_rmse := inlier_rmse result;
     success := success result |}.

(** The [for] loop of [EvalTriangulate]; [None] is the early
    [return Result{}]. *)
Fixpoint EvalTriangulate_loop (x : list (RansacObservation T)) (X : Vec3 T)
    (result : RANSACResult (RansacObservation T) T)
  : option (RANSACResult (RansacObservation T) T) :=
  match x with
  | [] => Some result
  | ro :: rest =>
      if negb (chirality ro X) then None else
      let err := reprojection_error ro X in
      EvalTriangulate_loop rest X
        (if s_lt err threshold then accumulate_inlier result err ro
         else result)
  end.

Definition EvalTriangulate (x : list (RansacObservation T)) (X : Vec3 T)
  : RANSACResult (RansacObservation T) T :=
  let start :=
    {| error := s_zero; fitness := s_zero; inliers := [];
       inlier_rmse := s_inf; success := false |} in
  match EvalTriangulate_loop x X start with
  | None => RANSACResult_default
  | Some result =>
      let n := length (inliers result) in
      if 0 <? n then
        {| error := error result;
           fitness := s_div (s_of_nat n) (s_of_nat (length x));
           inliers := inliers result;
           inlier_rmse := s_div (error result) (s_sqrt (s_of_nat n));
           success := true |}
      else set_success true result
  end.

(** [RANSAC]'s [T] defaults to [float], and the default
    [probability = 0.99999999] is not a binary32 value: it rounds to
    [1.0f]. *)
Definition default_probability : T := s_one.

Definition TriangulateRansac (x : list (RansacObservation T)) (g : Rng)
  : (bool * Vec3 T) * Rng :=
  let nIters := 1000 in
  let nSamples := 2 in
  let seed := 0%N in
  let '((X, res), g') :=
    RANSAC seed_rng std_sample Vec3_default Triangulate EvalTriangulate x
           nSamples nIters (Some seed) default_probability g in
  ((success res, X), g').
End Triangulation.

(** ** global_scaler.cpp: landmarks *)

(** [openMVG::IndexT] *)
Definition ViewID : Type := N.

Record Landmark (T : Type) := mkLandmark {
  ldm_id : string;
  ldm_obs : list (ViewID * Vec2 T);
  ldm_X : option (Vec3 T)
}.
Arguments mkLandmark {T}.
Arguments ldm_id {T}.
Arguments ldm_obs {T}.
Arguments ldm_X {T}.

(** [Landmark() = default] *)
Definition Landmark_default {T} : Landmark T := mkLandmark "" [] None.

(** [using Landmarks = std::map<std::string, Landmark>] *)
Abbreviation Landmarks T := (gmap string (Landmark T)).

(** [std::to_string(arucoID) + "." + std::to_string(cornerID)] *)
Definition GetLandmarkID (arucoID cornerID : Z) : string :=
  pretty arucoID +:+ "." +:+ pretty cornerID.

(** The two fields of [DetectionResult] that [main] reads after the debug
    drawing; a [cv::Point2f] is converted to a [Vec2] when it is stored. *)
Record DetectionResult (T : Type) := mkDetection {
  markerIds : list Z;
  markerCorners : list (list (Vec2 T))
}.
Arguments mkDetection {T}.
Arguments markerIds {T}.
Arguments markerCorners {T}.

Inductive EXIT_CODE :=
  SUCCESS | HELP | BAD_ARG | NO_VIEWS | NO_LDMS | NO_SCALES.

(** The lines [main] prints that the stages below decide. *)
Inductive message :=
| WARNING_not_enough_observations (ldmID : string)
| WARNING_could_not_triangulate (ldmID : string)
| ERROR_not_enough_landmarks
| ERROR_no_landmark_distances
| WARNING_sensitive_to_noise.

(** Key order of [std::map<std::string, _>]. *)
Definition key_le {A} (a b : string * A) : Prop := String.leb a.1 b.1 = true.
#[export] Instance key_le_dec {A} : RelDecision (@key_le A).
Proof. intros a b. unfold key_le. apply _. Defined.

Section Detection.
Context {T : Type}.

(** Lines 615-623: insert a default landmark on first use of the key,
    then append the observation. *)
Definition add_observation (cornerID : string) (viewID : ViewID)
    (corner : Vec2 T) (landmarks : Landmarks T) : Landmarks T :=
  let landmarks :=
    match landmarks !! cornerID with
    | None => <[cornerID := Landmark_default]> landmarks
    | Some _ => landmarks
    end in
  alter (fun ldm => mkLandmark (ldm_id ldm) (ldm_obs ldm ++ [(viewID, corner)])
                               (ldm_X ldm))
        cornerID landmarks.

(** [for (int i = 0; i < corners.size(); i++)] *)
Definition track_corners (viewID : ViewID) (markerID : Z)
    (corners : list (Vec2 T)) (landmarks : Landmarks T) : Landmarks T :=
  foldl (fun lms ic =>
           add_observation (GetLandmarkID markerID (Z.of_nat ic.1)) viewID
                           ic.2 lms)
        landmarks (imap pair corners).

(** [for (std::size_t idx = 0; idx < res.markerIds.size(); ++idx)];
    [res.markerCorners[idx]] is unchecked in the source, the two vectors
    have one length. *)
Definition track_view (st : gset Z * Landmarks T)
    (view : ViewID * DetectionResult T) : gset Z * Landmarks T :=
  foldl (fun st im =>
           ({[ im.2 ]} ∪ st.1,
            track_corners view.1 im.2 (markerCorners view.2 !!! im.1) st.2))
        st (imap pair (markerIds view.2)).

(** The loop over the selected views, each with what [detect] returned
    for its image. *)
Definition detect_landmarks (views : list (ViewID * DetectionResult T))
  : gset Z * Landmarks T :=
  foldl track_view (∅, ∅) views.
End Detection.

(** ** global_scaler.cpp: triangulation and scale stages of [main] *)

Inductive outcome (T : Type) :=
| Exit (code : EXIT_CODE)
| Scale (scale : T).
Arguments Exit {T}.
Arguments Scale {T}.

(** What the program reads from [sfm::SfM_Data] for a selected view: the
    view filter keeps only views whose pose and intrinsic are defined. *)
Record SfM_Data (T : Type) := mkSfM {
  view_intrinsic : ViewID -> IntrinsicBase T;
  view_pose : ViewID -> Pose3 T
}.
Arguments mkSfM {T}.
Arguments view_intrinsic {T}.
Arguments view_pose {T}.

Section Main.
Context {T : Type} {FT : Floating T} {LT : Libm T}.
Context {Rng : Type}.
Variable seed_rng : N -> Rng.
Variable std_sample :
  list (RansacObservation T) -> nat -> Rng -> list (RansacObservation T) * Rng.
Variable TriangulateNViewAlgebraic :
  list (Vec3 T) -> list (Mat34 T) -> bool * Vec4 T.
Variable Vec3_default : Vec3 T.

Variable sfmData : SfM_Data T.
(** [--undistort-images] and [--no-ransac] *)
Variable undistortImages : bool.
Variable no_ransac : bool.

(** Lines 652-664. *)
Definition collect_observation (vo : ViewID * Vec2 T) : RansacObservation T :=
  let cam := view_intrinsic sfmData vo.1 in
  let pt := if undistortImages then cam_bearing cam vo.2
            else cam_bearing cam (cam_get_ud_pixel cam vo.2) in
  mkRO vo.2 pt cam (view_pose sfmData vo.1).

Record pass_state := mkPass {
  landmarks : Landmarks T;
  numTriangulated : nat;
  messages : list message;
  pass_rng : Rng
}.

(** Lines 666-673. *)
Definition triangulate_observations (x : list (RansacObservation T))
    (g : Rng) : (bool * Vec3 T) * Rng :=
  if negb no_ransac then
    TriangulateRansac seed_rng std_sample TriangulateNViewAlgebraic
                      Vec3_default x g
  else (Triangulate TriangulateNViewAlgebraic Vec3_default x, g).

(** The body of [for (auto &[ldmID, ldm] : landmarks)]. *)
Definition triangulate_landmark (st : pass_state)
    (entry : string * Landmark T) : pass_state :=
  let ldmID := entry.1 in
  let ldm := entry.2 in
  if length (ldm_obs ldm) <? 3 then
    mkPass (landmarks st) (numTriangulated st)
           (messages st ++ [WARNING_not_enough_observations ldmID])
           (pass_rng st)
  else
    let x := map collect_observation (ldm_obs ldm) in
    let '((ok, X), g) := triangulate_observations x (pass_rng st) in
    if negb ok then
      mkPass (landmarks st) (numTriangulated st)
             (messages st ++ [WARNING_could_not_triangulate ldmID]) g
    else
      mkPass (<[ldmID := mkLandmark (ldm_id ldm) (ldm_obs ldm) (Some X)]>
                (landmarks st))
             (numTriangulated st + 1) (messages st) g.

(** The entries of the map in the order the loop visits them. *)
Definition landmark_entries (lms : Landmarks T) : list (string * Landmark T) :=
  merge_sort key_le (map_to_list lms).

Definition triangulate_landmarks (lms : Landmarks T) (g : Rng) : pass_state :=
  foldl triangulate_landmark (mkPass lms 0 [] g) (landmark_entries lms).

(** [landmarks[key]]: [std::map::operator[]] inserts a default landmark
    when the key is absent. *)
Definition Landmarks_at (key : string) (lms : Landmarks T)
  : Landmark T * Landmarks T :=
  match lms !! key with
  | Some ldm => (ldm, lms)
  | None => (Landmark_default, <[key := Landmark_default]> lms)
  end.

(** The body of [for (int i = 0; i < 4; i++)], lines 697-706. *)
Definition measure_edge (markerSize : T) (markerID : Z)
    (st : Landmarks T * list T) (i : nat) : Landmarks T * list T :=
  let nI := if i =? 3 then 0 else i + 1 in
  let '(l0, lms) := Landmarks_at (GetLandmarkID markerID (Z.of_nat i)) st.1 in
  let '(l1, lms) := Landmarks_at (GetLandmarkID markerID (Z.of_nat nI)) lms in
  match ldm_X l0, ldm_X l1 with
  | Some c0, Some c1 =>
      let distExpected := markerSize in
      let distObserved := vec3_norm (vec3_sub c1 c0) in
      (lms, st.2 ++ [s_div distExpected distObserved])
  | _, _ => (lms, st.2)
  end.

Definition measure_marker (markerSize : T) (st : Landmarks T * list T)
    (markerID : Z) : Landmarks T * list T :=
  foldl (measure_edge markerSize markerID) st (seq 0 4).

(** [for (const auto &markerID : markerIDs)]: a [std::set<int>] is
    visited in increasing order. *)
Definition measure_landmarks (markerSize : T) (markerIDs : gset Z)
    (lms : Landmarks T) : Landmarks T * list T :=
  foldl (measure_marker markerSize) (lms, [])
        (merge_sort Z.le (elements markerIDs)).

(** Lines 720-724: [std::accumulate] from [0.] with
    [a + b / static_cast<double>(scales.size())]. *)
Definition accumulate_scale (scales : list T) : T :=
  foldl (fun a b => s_add a (s_div b (s_of_nat (length scales)))) s_zero
        scales.

Record report := mkReport {
  result : outcome T;
  out_landmarks : Landmarks T;
  out_messages : list message
}.

(** Lines 683-725, from the end of the triangulation loop to the scale. *)
Definition estimate_scale (markerSize : T) (markerIDs : gset Z)
    (st : pass_state) : report :=
  if numTriangulated st <? 2 then
    mkReport (Exit NO_LDMS) (landmarks st)
             (messages st ++ [ERROR_not_enough_landmarks])
  else
    let '(lms, scales) := measure_landmarks markerSize markerIDs (landmarks st) in
    match scales with
    | [] => mkReport (Exit NO_SCALES) lms
                     (messages st ++ [ERROR_no_landmark_distances])
    | _ :: _ =>
        let msgs := if length scales <? 10 then [WARNING_sensitive_to_noise]
                    else [] in
        mkReport (Scale (accumulate_scale scales)) lms (messages st ++ msgs)
    end.

(** [main] from the selected views on. *)
Definition global_scaler (views : list (ViewID * DetectionResult T))
    (markerSize : T) (g : Rng) : report :=
  match views with
  | [] => mkReport (Exit NO_VIEWS) ∅ []
  | _ :: _ =>
      let '(markerIDs, lms) := detect_landmarks views in
      estimate_scale markerSize markerIDs (triangulate_landmarks lms g)
  end.
End Main.

(** ** Exact arithmetic

    The reals with a top element for [educelab::INF]: the arithmetic the
    formulas of the program are meant in.  A finite value divided by
    infinity is zero; every other operation with an infinite argument is
    infinite. *)

Inductive xreal := XFin (r : R) | XInf.

Definition xreal_lift1 (f : R -> R) (a : xreal) : xreal :=
  match a with XFin r => XFin (f r) | XInf => XInf end.
Definition xreal_lift2 (f : R -> R -> R) (a b : xreal) : xreal :=
  match a, b with XFin r, XFin s => XFin (f r s) | _, _ => XInf end.
Definition xreal_div (a b : xreal) : xreal :=
  match a, b with
  | XFin r, XFin s => XFin (r / s)
  | XFin _, XInf => XFin 0
  | XInf, _ => XInf
  end.
Definition xreal_lt (a b : xreal) : bool :=
  match a, b with
  | XFin r, XFin s => if Rlt_dec r s then true else false
  | XFin _, XInf => true
  | XInf, _ => false
  end.
Definition xreal_eq (a b : xreal) : bool :=
  match a, b with
  | XFin r, XFin s => if Req_dec_T r s then true else false
  | XInf, XInf => true
  | _, _ => false
  end.

#[export] Instance xreal_Floating : Floating xreal := {
  s_zero := XFin 0;
  s_one := XFin 1;
  s_inf := XInf;
  s_add := xreal_lift2 Rplus;
  s_sub := xreal_lift2 Rminus;
  s_opp := xreal_lift1 Ropp;
  s_mul := xreal_lift2 Rmult;
  s_div := xreal_div;
  s_sqrt := xreal_lift1 sqrt;
  s_lt := xreal_lt;
  s_eq := xreal_eq;
  s_of_nat := fun n => XFin (INR n)
}.

(** ** Assumptions on the arithmetic

    Facts of the order on [T] that the statements about the best fitness
    rest on.  They hold in binary64 and in exact arithmetic (see
    [float_order_laws] and [xreal_order_laws]). *)

Definition order_laws (T : Type) `{Floating T} : Prop :=
  (forall a : T, s_lt s_inf a = false)
  /\ (forall a b c : T, s_lt a b = true -> s_lt b c = true -> s_lt a c = true)
  /\ (forall a b c : T, s_lt a b = true -> s_eq c b = true -> s_lt a c = true)
  /\ (forall a b : T, s_eq a b = true -> s_lt a b = false).

(** The quotient in the formula for [breakIter]:
    [std::log(1. - probability) / std::log(1. - std::pow(f, nSamples))]. *)
Definition bound_quotient {T : Type} {FT : Floating T} {LT : Libm T}
    (nSamples : nat) (probability f : T) : T :=
  s_div (s_log (s_sub s_one probability))
        (s_log (s_sub s_one (s_pow f (s_of_nat nSamples)))).

(** [std::sample] copies [min(n, size)] elements of the population and
    keeps their relative order. *)
Definition sample_spec {Value Rng : Type}
    (std_sample : list Value -> nat -> Rng -> list Value * Rng) : Prop :=
  forall x n g,
    sublist (std_sample x n g).1 x
    /\ length (std_sample x n g).1 = Nat.min n (length x).

Section RANSAC_reachable.
Context {T : Type} {FT : Floating T} {LT : Libm T}.
Context {Value Model Rng : Type}.
Variable std_sample : list Value -> nat -> Rng -> list Value * Rng.
Variable default_model : Model.
Variable fit : list Value -> bool * Model.
Variable eval : list Value -> Model -> RANSACResult Value T.
Variable x : list Value.
Variables nSamples nIters : nat.
Variable probability : T.
Variable g0 : Rng.

(** [reachable i st]: the loop enters iteration [i] in state [st]. *)
Inductive reachable : nat -> loop_state T Value Model Rng -> Prop :=
| reach_init : reachable 0 (initial_state default_model nIters g0)
| reach_next i st st' :
    reachable i st ->
    i < nIters ->
    iteration std_sample fit eval x nSamples nIters probability i st = Next st' ->
    reachable (S i) st'.
(** The best result is the evaluation of the best model as soon as a
    candidate was accepted. *)
Definition best_consistent (st : loop_state T Value Model Rng) : Prop :=
  (bestModel st = default_model /\ bestResult st = RANSACResult_default)
  \/ (bestResult st = eval x (bestModel st)
      /\ success (eval x (bestModel st)) = true).
(** The best fitness of a state is positive as soon as a candidate was
    accepted. *)
Definition best_positive (st : loop_state T Value Model Rng) : Prop :=
  bestResult st = RANSACResult_default
  \/ s_lt s_zero (fitness (bestResult st)) = true.
End RANSAC_reachable.

(** Two states of the loop that differ at most in a best model that no
    candidate has replaced yet. *)
Definition same_but_unset {T Value Model Rng : Type}
    (st1 st2 : loop_state T Value Model Rng) : Prop :=
  bestResult st1 = bestResult st2
  /\ breakIter st1 = breakIter st2
  /\ rng st1 = rng st2
  /\ (success (bestResult st1) = true -> bestModel st1 = bestModel st2).

(** ** What the stages are expected to do *)

(** [detect] returns four corners for every marker id (and as many corner
    lists as ids). *)
Definition four_corners {T} (d : DetectionResult T) : Prop :=
  forall idx id,
    markerIds d !! idx = Some id -> length (markerCorners d !!! idx) = 4.

(** Every observed marker has its four corner landmarks in the store. *)
Definition corners_tracked {T} (st : gset Z * Landmarks T) : Prop :=
  forall id i, id ∈ st.1 -> i < 4 ->
    is_Some (st.2 !! GetLandmarkID id (Z.of_nat i)).

Definition no_positions {T} (lms : Landmarks T) : Prop :=
  forall k ldm, lms !! k = Some ldm -> ldm_X ldm = None.

Section Pass_spec.
Context {T : Type} {FT : Floating T} {LT : Libm T}.
Context {Rng : Type}.
Variable seed_rng : N -> Rng.
Variable std_sample :
  list (RansacObservation T) -> nat -> Rng -> list (RansacObservation T) * Rng.
Variable TriangulateNViewAlgebraic :
  list (Vec3 T) -> list (Mat34 T) -> bool * Vec4 T.
Variable Vec3_default : Vec3 T.
Variable sfmData : SfM_Data T.
Variable undistortImages : bool.
Variable no_ransac : bool.

(** What triangulating the observations of a landmark gives; the state
    of the generator does not matter ([triangulate_observations_rng]). *)
Definition triangulated (g : Rng) (ldm : Landmark T) : bool * Vec3 T :=
  (triangulate_observations seed_rng std_sample TriangulateNViewAlgebraic
     Vec3_default no_ransac
     (map (collect_observation sfmData undistortImages) (ldm_obs ldm)) g).1.

(** A landmark after the pass. *)
Definition landmark_after (g : Rng) (ldm : Landmark T) : Landmark T :=
  if length (ldm_obs ldm) <? 3 then ldm
  else if (triangulated g ldm).1
       then mkLandmark (ldm_id ldm) (ldm_obs ldm) (Some (triangulated g ldm).2)
       else ldm.

(** The warning the pass prints for a landmark, if any. *)
Definition landmark_warning (g : Rng) (entry : string * Landmark T)
  : list message :=
  if length (ldm_obs entry.2) <? 3
  then [WARNING_not_enough_observations entry.1]
  else if (triangulated g entry.2).1 then []
       else [WARNING_could_not_triangulate entry.1].
End Pass_spec.

Section Scale_spec.
Context {T : Type} {FT : Floating T}.

(** The triangulated position of corner [i] of a marker, if any. *)
Definition corner_position (lms : Landmarks T) (markerID : Z) (i : nat)
  : option (Vec3 T) :=
  lms !! GetLandmarkID markerID (Z.of_nat i) ≫= ldm_X.

(** The four edges of a marker in cyclic order. *)
Definition marker_edges : list (nat * nat) := [(0, 1); (1, 2); (2, 3); (3, 0)].

(** The sample of one edge: the known length over the distance between
    the two corner positions, when both are there. *)
Definition edge_sample (markerSize : T) (lms : Landmarks T) (markerID : Z)
    (edge : nat * nat) : option T :=
  c0 ← corner_position lms markerID edge.1;
  c1 ← corner_position lms markerID edge.2;
  Some (s_div markerSize (vec3_norm (vec3_sub c1 c0))).

Definition expected_scales (markerSize : T) (markerIDs : gset Z)
    (lms : Landmarks T) : list T :=
  merge_sort Z.le (elements markerIDs)
    ≫= fun markerID => omap (edge_sample markerSize lms markerID) marker_edges.

(** Two stores with the same positions (they may differ in landmarks
    without a position). *)
Definition same_positions (lms lms' : Landmarks T) : Prop :=
  forall k, lms' !! k ≫= ldm_X = lms !! k ≫= ldm_X.

(** In exact arithmetic a quotient of a sum is the sum of the
    quotients. *)
Definition exact_division : Prop :=
  (forall a b c : T, s_div (s_add a b) c = s_add (s_div a c) (s_div b c))
  /\ (forall c : T, s_div s_zero c = s_zero).
End Scale_spec.

(** ** Example inputs

    Small inputs on which the definitions above are run: a position on
    the integer line estimated by [RANSAC], a marker with two triangulated
    corners, two markers with seven, a view in which one marker was
    detected, a point far away on the first axis, views whose rays meet in
    front of the cameras and behind them, and a [<cmath>] for binary64. *)

Section Line_example.
Context {T : Type} {FT : Floating T}.

(** [fit]: the mean of the samples (integer division); it fails on an
    empty sample. *)
Definition line_fit (samples : list Z) : bool * Z :=
  (negb (length samples =? 0),
   (foldl Z.add 0 samples / Z.of_nat (length samples))%Z).

(** [eval]: the inliers are the values at distance at most 40 from the
    model, [error] is the sum of their distances. *)
Definition line_eval (x : list Z) (m : Z) : RANSACResult Z T :=
  let found := List.filter (fun v => Z.abs (v - m) <=? 40)%Z x in
  let err :=
    s_of_nat (Z.to_nat (foldl Z.add 0%Z (map (fun v => Z.abs (v - m)) found))) in
  {| error := err;
     fitness := s_div (s_of_nat (length found)) (s_of_nat (length x));
     inliers := found;
     inlier_rmse := s_div err (s_sqrt (s_of_nat (length found)));
     success := true |}.

Definition line_data : list Z := [0; 4; 100]%Z.

(** A generator without state whose sample is the first [n] elements. *)
Definition first_sample (x : list Z) (n : nat) (g : unit) : list Z * unit :=
  (take n x, g).
End Line_example.

Section Scene_example.
Context {T : Type} {FT : Floating T}.

Definition vec3_of_nat (a b c : nat) : Vec3 T :=
  mkVec3 (s_of_nat a) (s_of_nat b) (s_of_nat c).
Definition vec2_of_nat (a b : nat) : Vec2 T :=
  mkVec2 (s_of_nat a) (s_of_nat b).

(** Marker 7 seen in three views; corners 0 and 1 were triangulated, one
    unit apart, corners 2 and 3 were not. *)
Definition seen_three_times (a b : nat) : list (ViewID * Vec2 T) :=
  [(1%N, vec2_of_nat a b); (2%N, vec2_of_nat a b); (3%N, vec2_of_nat a b)].
Definition two_corners : Landmarks T :=
  <[GetLandmarkID 7 0 :=
      mkLandmark "" (seen_three_times 0 0) (Some (vec3_of_nat 0 0 0))]>
  (<[GetLandmarkID 7 1 :=
      mkLandmark "" (seen_three_times 1 0) (Some (vec3_of_nat 1 0 0))]>
  (<[GetLandmarkID 7 2 := mkLandmark "" (seen_three_times 1 1) None]>
  (<[GetLandmarkID 7 3 := mkLandmark "" (seen_three_times 0 1) None]> ∅))).
Definition after_pass_two_corners : pass_state (T := T) (Rng := unit) :=
  mkPass two_corners 2
         [WARNING_could_not_triangulate (GetLandmarkID 7 2);
          WARNING_could_not_triangulate (GetLandmarkID 7 3)] tt.

(** One view in which marker 7 was detected with its four corners. *)
Definition one_view : list (ViewID * DetectionResult T) :=
  [(1%N, mkDetection [7%Z]
           [[vec2_of_nat 0 0; vec2_of_nat 1 0; vec2_of_nat 1 1;
             vec2_of_nat 0 1]])].

(** A pinhole camera without distortion at the origin, looking along the
    third axis. *)
Definition identity_pose : Pose3 T :=
  mkPose3 (mkMat3 (vec3_of_nat 1 0 0) (vec3_of_nat 0 1 0) (vec3_of_nat 0 0 1))
          (vec3_of_nat 0 0 0).
Definition pinhole : IntrinsicBase T :=
  mkCam (fun p => mkVec3 (v2x p) (v2y p) s_one)
        (fun p => p)
        (fun X p => vec2_sub p (mkVec2 (s_div (v3x X) (v3z X))
                                       (s_div (v3y X) (v3z X)))).
Definition one_camera : SfM_Data T :=
  mkSfM (fun _ => pinhole) (fun _ => identity_pose).

(** A solver that answers with the first bearing vector. *)
Definition first_bearing (pts : list (Vec3 T)) (poses : list (Mat34 T))
  : bool * Vec4 T :=
  match pts with
  | p :: _ => (true, mkVec4 (v3x p) (v3y p) (v3z p) s_one)
  | [] => (false, mkVec4 s_zero s_zero s_zero s_zero)
  end.
End Scene_example.

Section Two_markers_example.
Context {T : Type} {FT : Floating T}.

(** Markers 7 and 9 seen in three views.  The corners of marker 7 were
    triangulated to a rectangle with sides 1 and 2; corners 0, 1 and 2 of
    marker 9 to three corners of a square with side 4, corner 3 was
    not. *)
Definition two_markers : Landmarks T :=
  let corner id i X :=
    <[GetLandmarkID id i := mkLandmark "" (seen_three_times 0 0) X]> in
  corner 7%Z 0%Z (Some (vec3_of_nat 0 0 0))
  (corner 7%Z 1%Z (Some (vec3_of_nat 1 0 0))
  (corner 7%Z 2%Z (Some (vec3_of_nat 1 2 0))
  (corner 7%Z 3%Z (Some (vec3_of_nat 0 2 0))
  (corner 9%Z 0%Z (Some (vec3_of_nat 0 0 0))
  (corner 9%Z 1%Z (Some (vec3_of_nat 4 0 0))
  (corner 9%Z 2%Z (Some (vec3_of_nat 4 4 0))
  (corner 9%Z 3%Z None ∅))))))).
Definition after_pass_two_markers : pass_state (T := T) (Rng := unit) :=
  mkPass two_markers 7 [WARNING_could_not_triangulate (GetLandmarkID 9 3)] tt.
End Two_markers_example.

(** A solution far away on the first axis, [(1, 0, 0, 2^-1040)], for a
    camera turned by half a turn about the diagonal, whose rotation has no
    zero entry. *)
Definition far_solution (pts : list (Vec3 float)) (poses : list (Mat34 float))
  : bool * Vec4 float :=
  (true, mkVec4 1%float 0%float 0%float 0x1p-1040%float).
Definition half_turn : Pose3 float :=
  let a := (-1 / 3)%float in
  let b := (2 / 3)%float in
  mkPose3 (mkMat3 (mkVec3 a b b) (mkVec3 b a b) (mkVec3 b b a))
          (mkVec3 0%float 0%float 0%float).
Definition far_observation : RansacObservation float :=
  mkRO (mkVec2 (-1)%float 1%float) (mkVec3 (-1)%float 1%float 1%float)
       pinhole half_turn.

(** ** More of what the stages are expected to do *)

(** A string without the separator of [GetLandmarkID]. *)
Fixpoint dot_free (s : string) : bool :=
  match s with
  | EmptyString => true
  | String c s' => negb (Ascii.eqb c "."%char) && dot_free s'
  end.

Section Detection_spec.
Context {T : Type}.

(** The observations stored under a key; none when the key is absent. *)
Definition obs_at (lms : Landmarks T) (key : string) : list (ViewID * Vec2 T) :=
  from_option ldm_obs [] (lms !! key).

(** The observations of corner [i] of marker [markerID]: view by view, and
    in a view once for every place the marker id has in [markerIds]. *)
Definition corner_observations (views : list (ViewID * DetectionResult T))
    (markerID : Z) (i : nat) : list (ViewID * Vec2 T) :=
  views ≫= fun view =>
    imap pair (markerIds view.2) ≫= fun im =>
      if decide (im.2 = markerID)
      then option_list (pair view.1 <$> (markerCorners view.2 !!! im.1) !! i)
      else [].

(** Every stored landmark was observed at least once; its [id] field is
    never written and stays empty. *)
Definition observed_landmarks (lms : Landmarks T) : Prop :=
  forall key ldm, lms !! key = Some ldm ->
    ldm_id ldm = "" /\ ldm_obs ldm <> [] /\ ldm_X ldm = None.

End Detection_spec.

(** A stand-in for [<cmath>] on binary64, for runs that leave the loop
    before the bound is recomputed. *)
Definition libm_unused : Libm float :=
  {| s_log := fun a => a; s_pow := fun a _ => a; s_to_size := fun _ => 0 |}.

(** A [<cmath>] on binary64 to run the iteration bound on examples.
    [float_log] has the special values of Annex F of the C standard
    ([-inf] at zero, a NaN below zero and at a NaN, [+inf] at [+inf], [+0]
    at 1); elsewhere it brings the mantissa [m] between [sqrt(1/2)] and
    [sqrt(2)], sums 20 terms of the series of
    [2 atanh((m - 1) / (m + 1))] and adds the exponent times [log 2].
    [float_pow] multiplies, for an exponent that is a natural number, as
    [nSamples] is, and is a NaN for any other.  [float_to_size] truncates
    a value that is not negative. *)
Definition float_to_size (a : float) : nat :=
  match Prim2SF a with
  | S754_finite false m e => Z.to_nat (Z.shiftl (Z.pos m) e)
  | _ => 0
  end.
Definition float_of_Z (z : Z) : float :=
  let a := PrimFloat.of_uint63 (Uint63.of_Z (Z.abs z)) in
  if (z <? 0)%Z then (- a)%float else a.
Definition float_log (y : float) : float :=
  if (y =? 0)%float then neg_infinity
  else if (y <? 0)%float then nan
  else if (y =? infinity)%float then infinity
  else if negb (y =? y)%float then nan
  else
    let '(m, e) := FloatOps.Z.frexp y in
    let '(m, e) :=
      if (m <? 0x1.6a09e667f3bcdp-1)%float then ((2 * m)%float, (e - 1)%Z)
      else (m, e) in
    let z := ((m - 1) / (m + 1))%float in
    let w := (z * z)%float in
    let sum :=
      foldr (fun k acc =>
               (1 / float_of_Z (2 * Z.of_nat k + 1) + w * acc)%float)
            0%float (seq 0 20) in
    (float_of_Z e * 0x1.62e42fefa39efp-1 + 2 * z * sum)%float.
Definition float_pow (a b : float) : float :=
  if (float_of_Z (Z.of_nat (float_to_size b)) =? b)%float
  then Nat.iter (float_to_size b) (fun r => (r * a)%float) 1%float
  else nan.
Definition libm_series : Libm float :=
  {| s_log := float_log; s_pow := float_pow; s_to_size := float_to_size |}.

(** Three views of the point [(0, 0, 5)] from the origin and from one unit
    along the first and the second axis, and a solver that answers with
    that point. *)
Definition pose_at (c : Vec3 float) : Pose3 float :=
  mkPose3 (rotation (identity_pose (T := float))) c.
Definition seen_point : list (RansacObservation float) :=
  let view c p := mkRO p (cam_bearing pinhole p) pinhole (pose_at c) in
  [view (mkVec3 0 0 0)%float (mkVec2 0 0)%float;
   view (mkVec3 1 0 0)%float (mkVec2 (-1 / 5) 0)%float;
   view (mkVec3 0 1 0)%float (mkVec2 0 (-1 / 5))%float].
Definition point_solver (pts : list (Vec3 float)) (poses : list (Mat34 float))
  : bool * Vec4 float :=
  (true, mkVec4 0 0 5 1)%float.

(** The same three cameras with the pixels mirrored: the rays diverge,
    their lines meet at [(0, 0, -5)], behind every camera, and
    [behind_solver] answers with that point. *)
Definition diverging_views : list (RansacObservation float) :=
  let view c p := mkRO p (cam_bearing pinhole p) pinhole (pose_at c) in
  [view (mkVec3 0 0 0)%float (mkVec2 0 0)%float;
   view (mkVec3 1 0 0)%float (mkVec2 (1 / 5) 0)%float;
   view (mkVec3 0 1 0)%float (mkVec2 0 (1 / 5))%float].
Definition behind_solver (pts : list (Vec3 float)) (poses : list (Mat34 float))
  : bool * Vec4 float :=
  (true, mkVec4 0 0 (-5) 1)%float.

Section RANSAC_provenance.
Context {T : Type} {FT : Floating T}.
Context {Value Model Rng : Type}.
Variable default_model : Model.
Variable fit : list Value -> bool * Model.
Variable eval : list Value -> Model -> RANSACResult Value T.
Variable x : list Value.
Variable nSamples : nat.

(** Where the best model of the loop comes from: it is the
    default-constructed one as long as no candidate was accepted, and
    afterwards the fit of a sample drawn from the data, whose evaluation
    succeeded and is the best result. *)
Definition best_from_sample (st : loop_state T Value Model Rng) : Prop :=
  (bestModel st = default_model /\ bestResult st = RANSACResult_default)
  \/ exists samples,
       sublist samples x
       /\ length samples = Nat.min nSamples (length x)
       /\ fit samples = (true, bestModel st)
       /\ bestResult st = eval x (bestModel st)
       /\ success (bestResult st) = true.
End RANSAC_provenance.

(** ** global_scaler.cpp: scaling and writing the landmarks *)

Section Output.
Context {T : Type} {FT : Floating T}.

(** [X *= scale] on an Eigen vector. *)
Definition vec3_times (a : Vec3 T) (k : T) : Vec3 T :=
  mkVec3 (s_mul (v3x a) k) (s_mul (v3y a) k) (s_mul (v3z a) k).

(** [ScaleLandmarks]: every position that is there is multiplied by
    [scale]. *)
Definition ScaleLandmarks (ldms : Landmarks T) (scale : T) : Landmarks T :=
  (fun ldm => mkLandmark (ldm_id ldm) (ldm_obs ldm)
                         ((fun X => vec3_times X scale) <$> ldm_X ldm))
    <$> ldms.

(** [operator<<] for a [double] on a stream with the default format. *)
Variable show : T -> string.

(** The positions that the writers go through: the landmarks in key order
    that have one. *)
Definition written_positions (ldms : Landmarks T) : list (Vec3 T) :=
  omap (fun entry => ldm_X entry.2) (landmark_entries ldms).

Definition coordinates (pt : Vec3 T) : string :=
  show (v3x pt) +:+ " " +:+ show (v3y pt) +:+ " " +:+ show (v3z pt).

(** What a writer leaves behind: the lines of the file, each followed by
    a newline, and [file.fail()] after [file.close()], on which the writer
    throws [Failed to write file].  The file is taken to open, and the
    device to accept what is written. *)
Record written_file := mkFile {
  file_lines : list string;
  file_fail : bool
}.

(** The loop of [WriteOBJ]. *)
Definition WriteOBJ (ldms : Landmarks T) : written_file :=
  mkFile (foldl (fun file entry =>
                   match ldm_X entry.2 with
                   | Some pt => file ++ ["v " +:+ coordinates pt]
                   | None => file
                   end)
                [] (landmark_entries ldms))
         false.

(** The first loop of [WritePLY]: the counter and the buffered lines. *)
Definition WritePLY_vertices (ldms : Landmarks T) : nat * list string :=
  foldl (fun st entry =>
           match ldm_X entry.2 with
           | Some pt => (st.1 + 1, st.2 ++ [coordinates pt +:+ " 255 255 0"])
           | None => st
           end)
        (0, []) (landmark_entries ldms).

(** [WritePLY].  [file << ss.rdbuf()] sets the fail bit of [file] when it
    inserts no character, that is when the buffer [ss] is empty. *)
Definition WritePLY (ldms : Landmarks T) : written_file :=
  let '(numVs, ss) := WritePLY_vertices ldms in
  mkFile (["ply"; "format ascii 1.0"; "element vertex " +:+ pretty numVs;
           "property float x"; "property float y"; "property float z";
           "property uchar red"; "property uchar green";
           "property uchar blue"; "end_header"] ++ ss)
         (match ss with [] => true | _ :: _ => false end).

(** [el::is_file_type(path, ext)] *)
Variable is_file_type : string -> string -> bool.

(** [WriteMesh]: [None] is the exception for a mesh type that is
    neither. *)
Definition WriteMesh (path : string) (ldms : Landmarks T)
  : option written_file :=
  if is_file_type path "obj" then Some (WriteOBJ ldms)
  else if is_file_type path "ply" then Some (WritePLY ldms)
  else None.
End Output.

(** ** global_scaler_io.cpp: scaling a PLY mesh

    A file is the list of its bytes, a line of it a string.  The host is
    little-endian, as the code takes it to be when it swaps the bytes of
    [binary_big_endian] files only; the files are taken to open and the
    device to accept what is written. *)

(** [swap32] on a [std::uint32_t]: the left shifts wrap at 32 bits. *)
Definition swap32 (v : Z) : Z :=
  Z.lor (Z.lor (Z.lor (Z.land (Z.shiftr v 24) 0x000000FF)
                      (Z.land (Z.shiftr v 8) 0x0000FF00))
               (Z.land (Z.shiftl v 8 mod 2 ^ 32) 0x00FF0000))
        (Z.land (Z.shiftl v 24 mod 2 ^ 32) 0xFF000000).

Inductive Format := ASCII | BIN_LE | BIN_BE.

Record Property := mkProperty {
  prop_name : string;
  prop_size : nat;
  prop_offset : nat
}.

Inductive ply_error :=
| Unsupported_PLY_property_type (t : string)
| Unsupported_PLY_vertex_property_is_a_list
| No_vertex_properties_or_zero_vertices_found
| PLY_has_no_property (n : string)
| Unexpected_EOF_in_ASCII_body
| Unexpected_EOF_in_binary_body.

(** The lambda [sizeOfType]; [None] is its exception. *)
Definition sizeOfType (t : string) : option nat :=
  if String.eqb t "char" || String.eqb t "int8" then Some 1
  else if String.eqb t "uchar" || String.eqb t "uint8" then Some 1
  else if String.eqb t "short" || String.eqb t "int16" then Some 2
  else if String.eqb t "ushort" || String.eqb t "uint16" then Some 2
  else if String.eqb t "int" || String.eqb t "int32" then Some 4
  else if String.eqb t "uint" || String.eqb t "uint32" then Some 4
  else if String.eqb t "float" || String.eqb t "float32" then Some 4
  else if String.eqb t "double" || String.eqb t "float64" then Some 8
  else None.

(** [std::getline(fin, line)] as long as it succeeds: every line with what
    is left of the stream after it.  A last line without a newline is a
    line; nothing is read from an empty stream. *)
Fixpoint getlines (fin : list ascii) : list (string * list ascii) :=
  match fin with
  | [] => []
  | c :: fin' =>
      if Ascii.eqb c "010" then (EmptyString, fin') :: getlines fin'
      else match getlines fin' with
           | [] => [(String c EmptyString, [])]
           | (line, rest) :: lines => (String c line, rest) :: lines
           end
  end.

(** [iss >> token] for a [std::string]: white space is skipped, then the
    characters up to the next white space are taken; the token is empty
    when nothing is left. *)
Definition isspace (c : ascii) : bool :=
  let n := nat_of_ascii c in (n =? 32) || ((9 <=? n) && (n <=? 13)).

Fixpoint skip_space (iss : string) : string :=
  match iss with
  | String c iss' => if isspace c then skip_space iss' else iss
  | EmptyString => EmptyString
  end.

Fixpoint read_word (iss : string) : string * string :=
  match iss with
  | String c iss' =>
      if isspace c then (EmptyString, iss)
      else let '(token, rest) := read_word iss' in (String c token, rest)
  | EmptyString => (EmptyString, EmptyString)
  end.

Definition extract_word (iss : string) : string * string :=
  read_word (skip_space iss).

(** The variables of [ScalePLYMesh] that the header loop sets. *)
Record Header := mkHeader {
  format : Format;
  vertCount : nat;
  faceCount : nat;
  inVertexElement : bool;
  vertexProps : list Property;
  headerLines : list string;
  currentOffset : nat
}.

Definition Header_initial : Header := mkHeader ASCII 0 0 false [] [] 0.

(** The lambda [findOffset]: the offset of the first property of that
    name; [None] is its exception. *)
Definition findOffset (props : list Property) (n : string) : option nat :=
  prop_offset <$> find (fun p => String.eqb (prop_name p) n) props.

(** Four bytes of a record as a [std::uint32_t] and back ([std::memcpy]). *)
Definition uint32_of_bytes (bytes : list ascii) : Z :=
  foldr (fun b v => Z.of_nat (nat_of_ascii b) + 256 * v)%Z 0%Z bytes.

Definition bytes_of_uint32 (v : Z) : list ascii :=
  map (fun k => ascii_of_nat (Z.to_nat (Z.shiftr v (8 * k) mod 256)))
      [0; 1; 2; 3]%Z.

(** What [ScalePLYMesh] ends with: it returns with the output written, it
    throws, with the output written so far when the output was open, or it
    copies four bytes from or to a place outside the record. *)
Inductive ply_outcome :=
| Done (fout : list ascii)
| Throws (e : ply_error) (fout : option (list ascii))
| Outside_record.

(** The header and the body that the first part of [ScalePLYMesh] ends
    with. *)
Record Mesh := mkMesh {
  header : Header;
  offX : nat;
  offY : nat;
  offZ : nat;
  body : list ascii
}.

Definition write_line (line : string) : list ascii :=
  String.list_ascii_of_string line ++ ["010"%char].

Section ScalePLYMesh.
(** [iss >> n] for a [std::size_t n]: from what is left of the line and
    the value that [n] has, the value that it has afterwards. *)
Variable extract_size : string -> nat -> nat.
(** A vertex line of an ASCII body with its coordinates read as [double],
    multiplied by [scale] and printed again before the rest of the
    line. *)
Variable scale_line : string -> string.
(** The bits of a [float] to the bits of its product with
    [static_cast<float>(scale)]. *)
Variable scale_float : Z -> Z.

(** The body of the header loop: the error thrown, or the variables
    after the line and whether the loop was left by [break]. *)
Definition header_line (line : string) (h : Header)
  : ply_error + Header * bool :=
  let h := mkHeader (format h) (vertCount h) (faceCount h)
                    (inVertexElement h) (vertexProps h)
                    (headerLines h ++ [line]) (currentOffset h) in
  let '(token, iss) := extract_word line in
  if String.eqb token "format" then
    let '(fmt, _) := extract_word iss in
    let format' :=
      if String.eqb fmt "ascii" then ASCII
      else if String.eqb fmt "binary_little_endian" then BIN_LE
      else if String.eqb fmt "binary_big_endian" then BIN_BE
      else format h in
    inr (mkHeader format' (vertCount h) (faceCount h) (inVertexElement h)
                  (vertexProps h) (headerLines h) (currentOffset h), false)
  else if String.eqb token "element" then
    let '(name, iss) := extract_word iss in
    if String.eqb name "vertex" then
      inr (mkHeader (format h) (extract_size iss (vertCount h)) (faceCount h)
                    true (vertexProps h) (headerLines h) (currentOffset h),
           false)
    else
      let faceCount' :=
        if String.eqb name "face" then extract_size iss (faceCount h)
        else faceCount h in
      inr (mkHeader (format h) (vertCount h) faceCount' false
                    (vertexProps h) (headerLines h) (currentOffset h), false)
  else if inVertexElement h && String.eqb token "property" then
    let '(sub, iss) := extract_word iss in
    if String.eqb sub "list" then
      inl Unsupported_PLY_vertex_property_is_a_list
    else
      let '(propName, _) := extract_word iss in
      match sizeOfType sub with
      | None => inl (Unsupported_PLY_property_type sub)
      | Some sz =>
          inr (mkHeader (format h) (vertCount h) (faceCount h)
                        (inVertexElement h)
                        (vertexProps h
                           ++ [mkProperty propName sz (currentOffset h)])
                        (headerLines h) (currentOffset h + sz), false)
      end
  else if String.eqb line "end_header" then inr (h, true)
  else inr (h, false).

(** The header loop: the variables it ends with and [bodyStart], which is
    what is left of the stream after [end_header], and stays at the start
    of the file ([None]) when the stream ends before. *)
Fixpoint read_header (lines : list (string * list ascii)) (h : Header)
  : ply_error + Header * option (list ascii) :=
  match lines with
  | [] => inr (h, None)
  | (line, rest) :: lines' =>
      match header_line line h with
      | inl e => inl e
      | inr (h', true) => inr (h', Some rest)
      | inr (h', false) => read_header lines' h'
      end
  end.

(** Part 1: the header, the two tests, and the offsets. *)
Definition read_mesh (fin : list ascii) : ply_error + Mesh :=
  match read_header (getlines fin) Header_initial with
  | inl e => inl e
  | inr (h, bodyStart) =>
      if (vertCount h =? 0)
         || match vertexProps h with [] => true | _ :: _ => false end
      then inl No_vertex_properties_or_zero_vertices_found
      else
        match findOffset (vertexProps h) "x" with
        | None => inl (PLY_has_no_property "x")
        | Some oX =>
        match findOffset (vertexProps h) "y" with
        | None => inl (PLY_has_no_property "y")
        | Some oY =>
        match findOffset (vertexProps h) "z" with
        | None => inl (PLY_has_no_property "z")
        | Some oZ => inr (mkMesh h oX oY oZ (default fin bodyStart))
        end end end
  end.

(** Part 2: the header lines, each with a newline. *)
Definition write_header (h : Header) : list ascii :=
  concat (map write_line (headerLines h)).

(** The ASCII branch: [vertCount] lines are scaled, the lines after them
    are copied. *)
Fixpoint scale_lines (n : nat) (lines : list (string * list ascii))
    (fout : list ascii) : ply_outcome :=
  match n with
  | 0 => Done (fout ++ concat (map (fun l => write_line l.1) lines))
  | S n' =>
      match lines with
      | [] => Throws Unexpected_EOF_in_ASCII_body (Some fout)
      | (line, _) :: lines' =>
          scale_lines n' lines' (fout ++ write_line (scale_line line))
      end
  end.

(** The lambda [adjust] on the record [rec]; [None] when the four bytes
    at [off] are not all in the record. *)
Definition adjust (needsSwap : bool) (off : nat) (rec : list ascii)
  : option (list ascii) :=
  if off + 4 <=? length rec then
    let iv := uint32_of_bytes (take 4 (drop off rec)) in
    let iv := if needsSwap then swap32 iv else iv in
    let iv := scale_float iv in
    let iv := if needsSwap then swap32 iv else iv in
    Some (take off rec ++ bytes_of_uint32 iv ++ drop (off + 4) rec)
  else None.

(** The binary branch: [vertCount] records are read, adjusted and written,
    what is left is copied. *)
Fixpoint scale_records (needsSwap : bool) (oX oY oZ recordSize : nat)
    (n : nat) (fin fout : list ascii) : ply_outcome :=
  match n with
  | 0 => Done (fout ++ fin)
  | S n' =>
      if length fin <? recordSize then
        Throws Unexpected_EOF_in_binary_body (Some fout)
      else
        match (rec ← adjust needsSwap oX (take recordSize fin);
               rec ← adjust needsSwap oY rec;
               adjust needsSwap oZ rec) with
        | None => Outside_record
        | Some rec =>
            scale_records needsSwap oX oY oZ recordSize n'
                          (drop recordSize fin) (fout ++ rec)
        end
  end.

Definition write_mesh (m : Mesh) : ply_outcome :=
  let h := header m in
  let recordSize := currentOffset h in
  let fout := write_header h in
  match format h with
  | ASCII => scale_lines (vertCount h) (getlines (body m)) fout
  | BIN_LE =>
      scale_records false (offX m) (offY m) (offZ m) recordSize
                    (vertCount h) (body m) fout
  | BIN_BE =>
      scale_records true (offX m) (offY m) (offZ m) recordSize
                    (vertCount h) (body m) fout
  end.

Definition ScalePLYMesh (fin : list ascii) : ply_outcome :=
  match read_mesh fin with
  | inl e => Throws e None
  | inr m => write_mesh m
  end.
End ScalePLYMesh.

(** *** What the scaler is expected to do *)

(** The properties of a record lie one after the other from [start] to
    [stop], each with the size of a scalar type. *)
Fixpoint record_layout (start : nat) (props : list Property) (stop : nat)
  : Prop :=
  match props with
  | [] => start = stop
  | p :: props' =>
      prop_offset p = start
      /\ prop_size p ∈ [1; 2; 4; 8]
      /\ record_layout (start + prop_size p) props' stop
  end.

(** The first property of that name. *)
Definition property_named (h : Header) (n : string) : option Property :=
  find (fun p => String.eqb (prop_name p) n) (vertexProps h).

(** The bytes of the body that [adjust] may change: the four bytes at the
    three offsets in each of the [vertCount] records. *)
Definition adjusted (m : Mesh) (i : nat) : Prop :=
  i < vertCount (header m) * currentOffset (header m)
  /\ exists off, off ∈ [offX m; offY m; offZ m]
       /\ off <= i mod currentOffset (header m) < off + 4.

(** *** Example meshes

    A mesh of one vertex with three coordinates and a colour, in the
    format [fmt], and the same mesh with coordinates of one byte. *)
Definition one_vertex_mesh (fmt scalar : string) (vertex : string)
  : list ascii :=
  concat (map write_line
            ["ply"; "format " +:+ fmt +:+ " 1.0"; "element vertex 1";
             "property " +:+ scalar +:+ " x";
             "property " +:+ scalar +:+ " y";
             "property " +:+ scalar +:+ " z";
             "property uchar red"; "end_header"])
  ++ String.list_ascii_of_string vertex.

(** A count of one for every [element] line, every line with a mark at
    its end, and every [float] with its lowest bit changed. *)
Definition count_of_one (iss : string) (n : nat) : nat := 1.
Definition marked_line (line : string) : string := line +:+ " scaled".
Definition lowest_bit_changed (v : Z) : Z := Z.lxor v 1.

(** ** gen_aruco_markers.cpp: contact sheets

    An image is its size, a sheet the regions that markers were copied
    to, in the order of the copies; [int] is not taken to overflow. *)

Record MatSize := mkMatSize { cols : Z; rows : Z }.

(** [cv::Rect] *)
Record Rect := mkRect {
  rect_x : Z;
  rect_y : Z;
  rect_width : Z;
  rect_height : Z
}.

(** The assertion of [mat(roi)]: the region lies in the image. *)
Definition roi_inside (roi : Rect) (mat : MatSize) : bool :=
  (0 <=? rect_x roi)%Z && (0 <=? rect_width roi)%Z
  && (rect_x roi + rect_width roi <=? cols mat)%Z
  && (0 <=? rect_y roi)%Z && (0 <=? rect_height roi)%Z
  && (rect_y roi + rect_height roi <=? rows mat)%Z.

(** The variables of the loop of [GenerateContactSheets]. *)
Record sheet_state := mkSheets {
  sheets : list (list Rect);
  sheet : list Rect;
  oy : Z;
  ox : Z
}.

Section ContactSheets.
(** [cv::getTextSize(label, font, scale, thick, &base)] *)
Variable getTextSize : string -> MatSize.

(** [PadAndLabel]: the size of the padded image and the region of the
    marker in it; [None] when OpenCV rejects the size or the region.  The
    crop marks and the text are drawn on the image and clipped to it. *)
Definition PadAndLabel (marker : MatSize) (label : string) (padding : Z)
  : option (MatSize * Rect) :=
  let w := (cols marker + 2 * padding)%Z in
  let h := (padding + rows marker + padding)%Z in
  let '(w, h) :=
    if String.eqb label "" then (w, h)
    else
      let textSize := getTextSize label in
      let h := (h + rows textSize)%Z in
      let w := if (cols textSize >? w)%Z
               then (cols textSize + 2 * padding)%Z else w in
      (w, (h + padding)%Z) in
  let out := mkMatSize w h in
  let iy := padding in
  let ix := ((w - cols marker) ÷ 2)%Z in
  let roi := mkRect ix iy (cols marker) (rows marker) in
  if roi_inside roi out then Some (out, roi) else None.

(** The body of the loop over the padded markers; [None] when OpenCV
    rejects the region of the copy. *)
Definition place_marker (h w m : Z) (st : sheet_state) (marker : MatSize)
  : option sheet_state :=
  let st :=
    if (ox st + cols marker >? w - m)%Z
    then mkSheets (sheets st) (sheet st) (oy st + rows marker)%Z m
    else st in
  let st :=
    if (oy st + rows marker >? h - m)%Z
    then mkSheets (sheets st ++ [sheet st]) [] m m
    else st in
  let roi := mkRect (ox st) (oy st) (cols marker) (rows marker) in
  if roi_inside roi (mkMatSize w h)
  then Some (mkSheets (sheets st) (sheet st ++ [roi]) (oy st)
                      (ox st + cols marker)%Z)
  else None.

Fixpoint place_markers (h w m : Z) (st : sheet_state) (padded : list MatSize)
  : option sheet_state :=
  match padded with
  | [] => Some st
  | marker :: padded' =>
      match place_marker h w m st marker with
      | Some st' => place_markers h w m st' padded'
      | None => None
      end
  end.

(** The sheets for padded markers, from the first sheet on.  [None] for
    no marker at all, where the code takes the front of an empty vector,
    and for a sheet size that OpenCV rejects. *)
Definition contact_sheets (h w m : Z) (padded : list MatSize)
  : option (list (list Rect)) :=
  match padded with
  | [] => None
  | _ :: _ =>
      if (0 <=? h)%Z && (0 <=? w)%Z then
        st ← place_markers h w m (mkSheets [] [] m m) padded;
        Some (sheets st ++ [sheet st])
      else None
  end.

(** [GenerateContactSheets] for the sheet height, width, margin and
    padding in pixels. *)
Definition GenerateContactSheets (markers : list (string * MatSize))
    (h w m p : Z) : option (list (list Rect)) :=
  padded ← mapM (fun pair => fst <$> PadAndLabel pair.2 pair.1 p) markers;
  contact_sheets h w m padded.
End ContactSheets.

(** *** What the sheets are expected to be *)

(** A region inside the margins of a sheet. *)
Definition in_margins (h w m : Z) (roi : Rect) : Prop :=
  (m <= rect_x roi /\ rect_x roi + rect_width roi <= w - m
   /\ m <= rect_y roi /\ rect_y roi + rect_height roi <= h - m)%Z.

(** A marker that fits between the margins. *)
Definition fits (h w m : Z) (marker : MatSize) : Prop :=
  (0 <= cols marker <= w - 2 * m /\ 0 <= rows marker <= h - 2 * m)%Z.

(** Two regions without a common pixel. *)
Definition disjoint_regions (a b : Rect) : Prop :=
  (rect_x a + rect_width a <= rect_x b \/ rect_x b + rect_width b <= rect_x a
   \/ rect_y a + rect_height a <= rect_y b
   \/ rect_y b + rect_height b <= rect_y a)%Z.

Definition region_size (roi : Rect) : MatSize :=
  mkMatSize (rect_width roi) (rect_height roi).

(** What holds of the loop variables for markers that fit. *)
Definition sheets_in_margins (h w m : Z) (st : sheet_state) : Prop :=
  (m <= ox st)%Z /\ (m <= oy st)%Z
  /\ Forall (Forall (in_margins h w m)) (sheets st)
  /\ Forall (in_margins h w m) (sheet st)
  /\ Forall (fun s => s <> []) (sheets st)
  /\ (sheet st = [] -> ox st = m /\ oy st = m).

(** The regions of a sheet have no common pixel, one with another. *)
Definition pairwise_disjoint (regions : list Rect) : Prop :=
  forall i j a b,
    i < j -> regions !! i = Some a -> regions !! j = Some b ->
    disjoint_regions a b.

(** What holds of the loop variables for markers of one height: the
    regions of the sheet lie in the rows above or to the left in the
    present row. *)
Definition sheets_in_rows (H : Z) (st : sheet_state) : Prop :=
  Forall pairwise_disjoint (sheets st)
  /\ pairwise_disjoint (sheet st)
  /\ forall a, a ∈ sheet st ->
       rect_height a = H
       /\ ((rect_y a + H <= oy st)%Z
           \/ (rect_y a = oy st /\ rect_x a + rect_width a <= ox st)%Z).

(** The text size of the examples. *)
Definition text_of_20_by_10 (label : string) : MatSize := mkMatSize 20 10.

(** ** global_scaler.cpp: the sample square *)

(** What [DetectBoard] fills in of a [DetectionResult]: the ChArUco ids
    and corners next to the markers. *)
Record BoardResult (T : Type) := mkBoard {
  charucoIDs : list Z;
  charucoCorners : list (Vec2 T);
  board_markers : DetectionResult T
}.
Arguments mkBoard {T}.
Arguments charucoIDs {T}.
Arguments charucoCorners {T}.
Arguments board_markers {T}.

Section SampleSquare.
Context {T : Type} `{!Inhabited (Vec2 T)}.

(** [DetectSampleSquare] from what [DetectBoard] returns for the top and
    for the bottom board.  [res2.markerCorners[idx]] and
    [res2.charucoCorners[idx]] are unchecked in the source. *)
Definition DetectSampleSquare (top bottom : BoardResult T) : BoardResult T :=
  let res :=
    match charucoIDs top with
    | [] => mkBoard [] [] (mkDetection [] [])
    | _ :: _ => top
    end in
  let res2 := bottom in
  match charucoIDs res2 with
  | [] => res
  | _ :: _ =>
      mkBoard
        (charucoIDs res ++ ((fun id => id + 512)%Z <$> charucoIDs res2))
        (charucoCorners res
           ++ imap (fun idx _ => charucoCorners res2 !!! idx)
                   (charucoIDs res2))
        (mkDetection
           (markerIds (board_markers res)
              ++ ((fun id => id + 512)%Z <$> markerIds (board_markers res2)))
           (markerCorners (board_markers res)
              ++ imap (fun idx _ => markerCorners (board_markers res2) !!! idx)
                      (markerIds (board_markers res2))))
  end.
End SampleSquare.

(** As many corner lists as marker ids. *)
Definition corners_for_ids {T} (d : DetectionResult T) : Prop :=
  length (markerCorners d) = length (markerIds d).

(** A board on which marker 1 was found with four corners. *)
Definition board_with_marker_1 : BoardResult Z :=
  mkBoard [0%Z] [mkVec2 5 5]%Z
          (mkDetection [1%Z]
                       [[mkVec2 0 0; mkVec2 9 0; mkVec2 9 9; mkVec2 0 9]]%Z).

(** ** global_scaler_io.cpp: the bins of the scale histogram

    [WriteScaleHistogram] up to the bin counts and their maximum, from
    which the bars of the SVG are drawn. *)

Inductive histogram :=
| No_scale_samples
| Histogram (hist : list nat) (maxc : nat)
| Histogram_undefined.

Definition nbins : nat := 50.

(** [hist[b]++]; [None] for an index outside the vector. *)
Definition count_in (hist : list nat) (b : Z) : option (list nat) :=
  if (0 <=? b)%Z && (b <? Z.of_nat (length hist))%Z
  then Some (alter S (Z.to_nat b) hist)
  else None.

Section Histogram.
Context {T : Type} {FT : Floating T}.
(** [static_cast<int>] of a [double]; [None] for a value without an
    [int], where the conversion is undefined. *)
Variable to_int : T -> option Z.

(** [*std::min_element] and [*std::max_element] of a range that is not
    empty. *)
Definition min_element (first : T) (rest : list T) : T :=
  foldl (fun smallest v => if s_lt v smallest then v else smallest)
        first rest.

Definition max_element (first : T) (rest : list T) : T :=
  foldl (fun largest v => if s_lt largest v then v else largest)
        first rest.

(** The loop over the samples. *)
Definition bin_counts (minv binw : T) (scales : list T)
  : option (list nat) :=
  foldl (fun hist v =>
           hist ← hist;
           b ← to_int (s_div (s_sub v minv) binw);
           count_in hist (Z.min b (Z.of_nat nbins - 1)))
        (Some (replicate nbins 0)) scales.

Definition scale_histogram (scales : list T) : histogram :=
  match scales with
  | [] => No_scale_samples
  | first :: rest =>
      let minv := min_element first rest in
      let maxv := max_element first rest in
      let binw := s_div (s_sub maxv minv) (s_of_nat nbins) in
      match bin_counts minv binw scales with
      | Some hist => Histogram hist (max_list hist)
      | None => Histogram_undefined
      end
  end.
End Histogram.

(** The conversion in exact arithmetic: the fraction is dropped, and
    there is no [int] for a value of 2^31 or more in size. *)
Definition xreal_to_int (a : xreal) : option Z :=
  match a with
  | XFin r =>
      let z := if Rle_dec 0 r then Int_part r else (- Int_part (- r))%Z in
      if (- 2 ^ 31 <=? z)%Z && (z <? 2 ^ 31)%Z then Some z else None
  | XInf => None
  end.

(** A conversion for the examples: no [int] for a NaN, 0 otherwise. *)
Definition zero_unless_nan (a : float) : option Z :=
  if PrimFloat.is_nan a then None else Some 0%Z.

(** The keys of the store are landmark ids of marker corners. *)
Definition corner_keys {T} (lms : Landmarks T) : Prop :=
  forall key, is_Some (lms !! key) ->
    exists markerID i, key = GetLandmarkID markerID (Z.of_nat i).

(** Marker 7 with its four corners, detected at the same pixels in three
    views. *)
Definition three_views {T} {FT : Floating T}
  : list (ViewID * DetectionResult T) :=
  map (fun viewID =>
         (viewID,
          mkDetection [7%Z]
                      [[vec2_of_nat 0 0; vec2_of_nat 1 0; vec2_of_nat 1 1;
                        vec2_of_nat 0 1]]))
      [1%N; 2%N; 3%N].

(** * Properties *)

(** ** The RANSAC loop *)

Section RANSAC_facts.
Context {T : Type} {FT : Floating T} {LT : Libm T}.
Context {Value Model Rng : Type}.
Variable seed_rng : N -> Rng.
Variable std_sample : list Value -> nat -> Rng -> list Value * Rng.
Variable default_model : Model.
Variable fit : list Value -> bool * Model.
Variable eval : list Value -> Model -> RANSACResult Value T.
Variable x : list Value.
Variables nSamples nIters : nat.
Variable probability : T.

Local Abbreviation iteration' :=
  (iteration std_sample fit eval x nSamples nIters probability).
Local Abbreviation budget := (new_breakIter nIters nSamples probability).

(** An iteration whose candidate passed [fit] and [eval]. *)
Lemma iteration_candidate i st samples g model :
  (breakIter st <? i) = false ->
  std_sample x nSamples (rng st) = (samples, g) ->
  fit samples = (true, model) ->
  success (eval x model) = true ->
  iteration' i st =
    if improved (eval x model) (bestResult st) then
      if s_lt (fitness (eval x model)) s_one then
        Next (mkLoop (eval x model) model (budget (fitness (eval x model))) g)
      else Break (mkLoop (eval x model) model (breakIter st) g)
    else Next (mkLoop (bestResult st) (bestModel st) (breakIter st) g).
Proof.
  intros Hi Hs Hf He. unfold iteration.
  rewrite Hi, Hs, Hf. cbn. rewrite He. cbn. reflexivity.
Qed.

Lemma improved_iff (result best : RANSACResult Value T) :
  improved result best = true <->
  s_lt (fitness best) (fitness result) = true
  \/ (s_eq (fitness result) (fitness best) = true
      /\ s_lt (inlier_rmse best) (inlier_rmse result) = true).
Proof.
  unfold improved, improvedFitness, improvedRMSE.
  rewrite orb_true_iff, andb_true_iff. reflexivity.
Qed.

(** C3: a candidate that passed [fit] and [eval] becomes the best model
    and result when its fitness is greater than the best's, or equal to it
    with a greater [inlier_rmse]; in every other case the best model and
    result stay as they were. *)
Theorem iteration_replaces_best_iff i st samples g model :
  (breakIter st <? i) = false ->
  std_sample x nSamples (rng st) = (samples, g) ->
  fit samples = (true, model) ->
  success (eval x model) = true ->
  let result := eval x model in
  let best := bestResult st in
  let st' := flow_state (iteration' i st) in
  let better :=
    s_lt (fitness best) (fitness result) = true
    \/ (s_eq (fitness result) (fitness best) = true
        /\ s_lt (inlier_rmse best) (inlier_rmse result) = true) in
  (better -> bestResult st' = result /\ bestModel st' = model)
  /\ (~ better -> bestResult st' = best /\ bestModel st' = bestModel st).
Proof.
  intros Hi Hs Hf He result best st' better.
  subst st'. rewrite (iteration_candidate i st samples g model Hi Hs Hf He).
  fold result. fold best.
  destruct (improved result best) eqn:Himp.
  - split.
    + intros _. destruct (s_lt (fitness result) s_one); cbn; auto.
    + intros Hn. exfalso. apply Hn. apply improved_iff. exact Himp.
  - split.
    + intros Hb. apply improved_iff in Hb. fold result best in Hb. congruence.
    + intros _. cbn. auto.
Qed.

Local Abbreviation best_consistent' := (best_consistent default_model eval x).

Lemma iteration_consistent i st :
  best_consistent' st -> best_consistent' (flow_state (iteration' i st)).
Proof.
  intros Hc. unfold iteration.
  destruct (breakIter st <? i); [exact Hc|].
  destruct (std_sample x nSamples (rng st)) as [samples g].
  destruct (fit samples) as [ok model].
  destruct ok; cbn; [|exact Hc].
  destruct (success (eval x model)) eqn:He; cbn; [|exact Hc].
  destruct (improved (eval x model) (bestResult st)); [|exact Hc].
  destruct (s_lt (fitness (eval x model)) s_one); cbn; right; auto.
Qed.

Lemma iterate_consistent remaining i st :
  best_consistent' st ->
  best_consistent'
    (iterate std_sample fit eval x nSamples nIters probability remaining i st).
Proof.
  revert i st. induction remaining as [|k IH]; intros i st Hc; cbn.
  - exact Hc.
  - pose proof (iteration_consistent i st Hc) as Hstep.
    destruct (iteration' i st) as [st'|st']; cbn in Hstep.
    + apply IH. exact Hstep.
    + exact Hstep.
Qed.

Lemma run_loop_consistent seed g :
  best_consistent'
    (run_loop seed_rng std_sample default_model fit eval x nSamples nIters
              seed probability g).
Proof.
  unfold run_loop. apply iterate_consistent. left. split; reflexivity.
Qed.

(** C2, as the code has it: after the loop the best model of the loop is
    evaluated on the full data set, the returned model is [fit] of that
    evaluation's inliers, and the returned result is that evaluation, of
    the model before the refit, with the refit's [success].  When a
    candidate was accepted the statistics are those of the best result of
    the loop. *)
Theorem RANSAC_returns_evaluation_before_refit seed g :
  let st := run_loop seed_rng std_sample default_model fit eval x nSamples
                     nIters seed probability g in
  let out := (RANSAC seed_rng std_sample default_model fit eval x nSamples
                     nIters seed probability g).1 in
  let before := eval x (bestModel st) in
  fit (inliers before) = (success out.2, out.1)
  /\ error out.2 = error before
  /\ fitness out.2 = fitness before
  /\ inliers out.2 = inliers before
  /\ inlier_rmse out.2 = inlier_rmse before
  /\ ((bestModel st = default_model /\ bestResult st = RANSACResult_default)
      \/ (bestResult st = before /\ success before = true)).
Proof.
  intros st out before. subst out. unfold RANSAC. fold st. fold before.
  destruct (fit (inliers before)) as [ok model] eqn:Hfit. cbn.
  repeat split; try reflexivity.
  exact (run_loop_consistent seed g).
Qed.

End RANSAC_facts.

(** ** The seed and the best model's first value *)

Section RANSAC_reproducibility.
Context {T : Type} {FT : Floating T} {LT : Libm T}.
Context {Value Model Rng : Type}.
Variable seed_rng : N -> Rng.
Variable std_sample : list Value -> nat -> Rng -> list Value * Rng.
Variable fit : list Value -> bool * Model.
Variable eval : list Value -> Model -> RANSACResult Value T.
Variable x : list Value.
Variables nSamples nIters : nat.
Variable probability : T.

Local Abbreviation iteration' :=
  (iteration std_sample fit eval x nSamples nIters probability).

Lemma iteration_same_but_unset i st1 st2 :
  same_but_unset st1 st2 ->
  match iteration' i st1, iteration' i st2 with
  | Next a, Next b | Break a, Break b => same_but_unset a b
  | _, _ => False
  end.
Proof.
  destruct st1 as [r1 m1 b1 g1], st2 as [r2 m2 b2 g2].
  unfold same_but_unset. cbn. intros (<- & <- & <- & Hm).
  unfold iteration. cbn [bestResult bestModel breakIter rng].
  destruct (b1 <? i); [cbn; repeat split; auto|].
  destruct (std_sample x nSamples g1) as [samples g].
  destruct (fit samples) as [ok model].
  destruct ok; cbn; [|repeat split; auto].
  destruct (success (eval x model)) eqn:He; cbn; [|repeat split; auto].
  destruct (improved (eval x model) r1); [|cbn; repeat split; auto].
  destruct (s_lt (fitness (eval x model)) s_one); cbn; repeat split; auto.
Qed.

Lemma iterate_same_but_unset remaining i st1 st2 :
  same_but_unset st1 st2 ->
  same_but_unset
    (iterate std_sample fit eval x nSamples nIters probability remaining i st1)
    (iterate std_sample fit eval x nSamples nIters probability remaining i st2).
Proof.
  revert i st1 st2. induction remaining as [|k IH]; intros i st1 st2 H; cbn.
  - exact H.
  - pose proof (iteration_same_but_unset i st1 st2 H) as Hstep.
    destruct (iteration' i st1), (iteration' i st2); try contradiction.
    + apply IH. exact Hstep.
    + exact Hstep.
Qed.

(** When the loop accepted a candidate (the best result has [success]
    set, which the initial one has not), a call with an explicit seed
    depends neither on the value [bestModel] started with nor on the state
    the generator was left in. *)
Lemma RANSAC_reproducible_after_acceptance (d1 d2 : Model) (seed : N)
    (g1 g2 : Rng) :
  success (bestResult (run_loop seed_rng std_sample d1 fit eval x nSamples
                                nIters (Some seed) probability g1)) = true ->
  RANSAC seed_rng std_sample d1 fit eval x nSamples nIters (Some seed)
         probability g1
  = RANSAC seed_rng std_sample d2 fit eval x nSamples nIters (Some seed)
           probability g2.
Proof.
  intros Hacc. unfold RANSAC.
  assert (H : same_but_unset
            (run_loop seed_rng std_sample d1 fit eval x nSamples nIters
                      (Some seed) probability g1)
            (run_loop seed_rng std_sample d2 fit eval x nSamples nIters
                      (Some seed) probability g2)).
  { unfold run_loop. apply iterate_same_but_unset.
    unfold same_but_unset. cbn. repeat split; auto. discriminate. }
  destruct H as (_ & _ & Hg & Hm). rewrite <- (Hm Hacc), <- Hg.
  reflexivity.
Qed.
End RANSAC_reproducibility.

Section RANSAC_positive.
Context {T : Type} {FT : Floating T} {LT : Libm T}.
Context {Value Model Rng : Type}.
Variable std_sample : list Value -> nat -> Rng -> list Value * Rng.
Variable default_model : Model.
Variable fit : list Value -> bool * Model.
Variable eval : list Value -> Model -> RANSACResult Value T.
Variable x : list Value.
Variables nSamples nIters : nat.
Variable probability : T.
Variable g0 : Rng.

Local Abbreviation iteration' :=
  (iteration std_sample fit eval x nSamples nIters probability).
Local Abbreviation reachable' :=
  (reachable std_sample default_model fit eval x nSamples nIters probability g0).

Hypothesis Horder : order_laws T.

Lemma improved_positive (result best : RANSACResult Value T) :
  best = RANSACResult_default \/ s_lt s_zero (fitness best) = true ->
  improved result best = true ->
  s_lt s_zero (fitness result) = true.
Proof using Horder.
  destruct Horder as (Hinf & Htrans & Heq & _).
  intros Hbest Himp. apply improved_iff in Himp.
  destruct Hbest as [-> | Hpos]; cbn in Himp.
  - destruct Himp as [H | [_ H]]; [exact H|]. rewrite Hinf in H. discriminate.
  - destruct Himp as [H | [H _]].
    + exact (Htrans _ _ _ Hpos H).
    + exact (Heq _ _ _ Hpos H).
Qed.

Lemma iteration_best_positive i st st' :
  iteration' i st = Next st' -> best_positive st -> best_positive st'.
Proof using Horder.
  intros Hstep Hinv. unfold iteration in Hstep.
  destruct (breakIter st <? i); [discriminate|].
  destruct (std_sample x nSamples (rng st)) as [samples g].
  destruct (fit samples) as [ok model].
  destruct ok; cbn in Hstep; [|injection Hstep as <-; exact Hinv].
  destruct (success (eval x model)); cbn in Hstep;
    [|injection Hstep as <-; exact Hinv].
  destruct (improved (eval x model) (bestResult st)) eqn:Himp;
    [|injection Hstep as <-; exact Hinv].
  destruct (s_lt (fitness (eval x model)) s_one); [|discriminate].
  injection Hstep as <-. right. cbn.
  exact (improved_positive _ (bestResult st) Hinv Himp).
Qed.

Lemma reachable_best_positive i st : reachable' i st -> best_positive st.
Proof using Horder.
  induction 1 as [|i st st' _ IH _ Hstep].
  - left. reflexivity.
  - exact (iteration_best_positive i st st' Hstep IH).
Qed.
End RANSAC_positive.

(** ** Exact arithmetic satisfies the assumptions *)

Lemma xreal_lt_true a b :
  xreal_lt a b = true <->
  match a, b with
  | XFin r, XFin s => (r < s)%R
  | XFin _, XInf => True
  | XInf, _ => False
  end.
Proof.
  destruct a, b; cbn; try tauto; try (split; [discriminate|tauto]).
  destruct (Rlt_dec r r0); split; auto; discriminate.
Qed.

Lemma xreal_eq_true a b : xreal_eq a b = true <-> a = b.
Proof.
  destruct a, b; cbn; try (split; [discriminate|discriminate]); try tauto.
  destruct (Req_dec_T r r0); split; intros; try congruence; try discriminate.
Qed.

Lemma xreal_order_laws : order_laws xreal.
Proof.
  split; [|split; [|split]].
  - intros a. reflexivity.
  - intros a b c H1 H2. apply xreal_lt_true in H1, H2. apply xreal_lt_true.
    destruct a, b, c; try tauto. lra.
  - intros a b c H1 H2. apply xreal_eq_true in H2. subst. exact H1.
  - intros a b H. apply xreal_eq_true in H. subst.
    destruct b; cbn; [|reflexivity]. destruct (Rlt_dec r r); [lra|reflexivity].
Qed.

Lemma Int_part_mono (a b : R) : (a <= b)%R -> (Int_part a <= Int_part b)%Z.
Proof.
  intros Hab.
  destruct (base_Int_part a) as [Ha _]. destruct (base_Int_part b) as [_ Hb].
  destruct (Z_le_gt_dec (Int_part a) (Int_part b)) as [H|H]; [exact H|exfalso].
  assert (H1 : (Int_part b + 1 <= Int_part a)%Z) by lia.
  apply IZR_le in H1. rewrite plus_IZR in H1. lra.
Qed.

(** ** Binary64 satisfies the assumptions *)

Lemma SFcompare_Lt_trans (a b c : spec_float) :
  SFcompare a b = Some Lt -> SFcompare b c = Some Lt -> SFcompare a c = Some Lt.
Proof.
  destruct a as [[]|[]| |[] ma ea], b as [[]|[]| |[] mb eb],
           c as [[]|[]| |[] mc ec]; cbn; try congruence.
  all: rewrite ?Pos.compare_cont_spec; cbn.
  all: destruct (Z.compare_spec ea eb), (Z.compare_spec eb ec),
         (Z.compare_spec ea ec); try congruence; try lia; subst.
  all: destruct (Pos.compare_spec ma mb), (Pos.compare_spec mb mc),
         (Pos.compare_spec ma mc); cbn; try congruence; try lia.
Qed.

Lemma SFcompare_Lt_Eq (a b c : spec_float) :
  SFcompare a b = Some Lt -> SFcompare c b = Some Eq -> SFcompare a c = Some Lt.
Proof.
  destruct a as [[]|[]| |[] ma ea], b as [[]|[]| |[] mb eb],
           c as [[]|[]| |[] mc ec]; cbn; try congruence.
  all: rewrite ?Pos.compare_cont_spec; cbn.
  all: destruct (Z.compare_spec ea eb), (Z.compare_spec ec eb),
         (Z.compare_spec ea ec); try congruence; try lia; subst.
  all: destruct (Pos.compare_spec ma mb), (Pos.compare_spec mc mb),
         (Pos.compare_spec ma mc); cbn; try congruence; try lia.
Qed.

Lemma float_order_laws : order_laws float.
Proof.
  split; [|split; [|split]]; cbn [s_lt s_eq s_inf float_Floating].
  - intros a. rewrite FloatAxioms.ltb_spec. unfold SFltb.
    replace (Prim2SF infinity) with (S754_infinity false)
      by (vm_compute; reflexivity).
    destruct (Prim2SF a) as [[]|[]| |[] m e]; reflexivity.
  - intros a b c. rewrite !FloatAxioms.ltb_spec. unfold SFltb.
    destruct (SFcompare (Prim2SF a) (Prim2SF b)) as [[]|] eqn:H1;
      try discriminate.
    destruct (SFcompare (Prim2SF b) (Prim2SF c)) as [[]|] eqn:H2;
      try discriminate.
    rewrite (SFcompare_Lt_trans _ _ _ H1 H2). reflexivity.
  - intros a b c. rewrite !FloatAxioms.ltb_spec, FloatAxioms.eqb_spec.
    unfold SFltb, SFeqb.
    destruct (SFcompare (Prim2SF a) (Prim2SF b)) as [[]|] eqn:H1;
      try discriminate.
    destruct (SFcompare (Prim2SF c) (Prim2SF b)) as [[]|] eqn:H2;
      try discriminate.
    rewrite (SFcompare_Lt_Eq _ _ _ H1 H2). reflexivity.
  - intros a b. rewrite FloatAxioms.ltb_spec, FloatAxioms.eqb_spec.
    unfold SFltb, SFeqb.
    destruct (SFcompare (Prim2SF a) (Prim2SF b)) as [[]|];
      try discriminate; reflexivity.
Qed.

(** ** The iteration bound in binary64

    The program's only call of [RANSAC] leaves [probability] at its
    default, which is [1.0f]: [1. - probability] is 0, and [std::log(0.)]
    is minus infinity (Annex F of the C standard).  Minus infinity divided
    by any denominator is [+inf], [-inf] or not a number; where it is not
    negative, so that its conversion to [std::size_t] is defined,
    [std::min] answers [nIters]. *)

Lemma neg_infinity_div (d : float) :
  Prim2SF (neg_infinity / d) = S754_nan
  \/ exists s, Prim2SF (neg_infinity / d) = S754_infinity s.
Proof.
  rewrite FloatAxioms.div_spec.
  replace (Prim2SF neg_infinity) with (S754_infinity true)
    by (vm_compute; reflexivity).
  unfold FloatAxioms.SF64div, SFdiv.
  destruct (Prim2SF d) as [s|s| |s m e]; eauto.
Qed.

Lemma min_neg_infinity_div (N d : float) :
  (neg_infinity / d <? 0)%float = false ->
  s_min N (neg_infinity / d)%float = N.
Proof.
  intros Hq. unfold s_min. cbn [s_lt float_Floating].
  rewrite FloatAxioms.ltb_spec in *. unfold SFltb in *.
  replace (Prim2SF 0) with (S754_zero false) in Hq by (vm_compute; reflexivity).
  destruct (neg_infinity_div d) as [Hd | [s Hd]]; rewrite Hd in *;
    [reflexivity|].
  destruct s; [cbn in Hq; discriminate Hq|].
  destruct (Prim2SF N) as [[]|[]| |[] m e]; reflexivity.
Qed.

Section RANSAC_bound.
Context {LT : Libm float}.
Context {Value Model Rng : Type}.
Variable std_sample : list Value -> nat -> Rng -> list Value * Rng.
Variable default_model : Model.
Variable fit : list Value -> bool * Model.
Variable eval : list Value -> Model -> RANSACResult Value float.
Variable x : list Value.
Variables nSamples nIters : nat.
Variable g0 : Rng.

Local Abbreviation iteration' :=
  (iteration std_sample fit eval x nSamples nIters default_probability).
Local Abbreviation reachable' :=
  (reachable std_sample default_model fit eval x nSamples nIters
             default_probability g0).

(** [std::log(0.)] is [-inf]. *)
Hypothesis log_zero : s_log 0%float = neg_infinity.
(** [nIters] converts to [double] and back to itself. *)
Hypothesis size_nIters : s_to_size (s_of_nat nIters : float) = nIters.
(** The quotient is not negative for a fitness between 0 and 1 that [eval]
    returns: the conversion of a negative value to [std::size_t] is
    undefined. *)
Hypothesis quotient_defined :
  forall model,
    let f := fitness (eval x model) in
    s_lt s_zero f = true -> s_lt f s_one = true ->
    s_lt (bound_quotient nSamples default_probability f) s_zero = false.

Lemma new_breakIter_default (f : float) :
  s_lt (bound_quotient nSamples default_probability f) s_zero = false ->
  new_breakIter nIters nSamples default_probability f = nIters.
Proof using log_zero size_nIters.
  unfold bound_quotient, new_breakIter, default_probability.
  cbn [s_sub s_one s_zero s_div s_lt float_Floating].
  replace (1 - 1)%float with 0%float by (vm_compute; reflexivity).
  rewrite log_zero. intros Hq.
  rewrite (min_neg_infinity_div _ _ Hq). exact size_nIters.
Qed.

Lemma iteration_bound_fixed i st :
  best_positive st -> breakIter st = nIters ->
  breakIter (flow_state (iteration' i st)) = nIters.
Proof using log_zero size_nIters quotient_defined.
  intros Hpos Hb. unfold iteration.
  destruct (breakIter st <? i); [exact Hb|].
  destruct (std_sample x nSamples (rng st)) as [samples g].
  destruct (fit samples) as [ok model].
  destruct ok; cbn [negb flow_state bestResult breakIter]; [|exact Hb].
  destruct (success (eval x model));
    cbn [negb flow_state bestResult breakIter]; [|exact Hb].
  destruct (improved (eval x model) (bestResult st)) eqn:Himp; [|exact Hb].
  destruct (s_lt (fitness (eval x model)) s_one) eqn:Hlt;
    cbn [flow_state breakIter]; [|exact Hb].
  apply new_breakIter_default. apply quotient_defined; [|exact Hlt].
  eapply improved_positive;
    [exact float_order_laws|exact Hpos|exact Himp].
Qed.

Lemma reachable_bound_fixed i st :
  reachable' i st -> best_positive st /\ breakIter st = nIters.
Proof using log_zero size_nIters quotient_defined.
  induction 1 as [|i st st' _ [IHp IHb] _ Hstep].
  - split; [left|]; reflexivity.
  - split.
    + eapply iteration_best_positive;
        [exact float_order_laws|exact Hstep|exact IHp].
    + pose proof (iteration_bound_fixed i st IHp IHb) as H.
      rewrite Hstep in H. exact H.
Qed.

End RANSAC_bound.

(** ** The triangulation model *)

Section Triangulation_facts.
Context {T : Type} {FT : Floating T}.
Variable TriangulateNViewAlgebraic :
  list (Vec3 T) -> list (Mat34 T) -> bool * Vec4 T.
Variable Vec3_default : Vec3 T.

Local Abbreviation Triangulate' :=
  (Triangulate TriangulateNViewAlgebraic Vec3_default).

(** The observations the loop of [EvalTriangulate] appends to
    [inliers]. *)
Local Abbreviation is_inlier X :=
  (fun ro : RansacObservation T => s_lt (reprojection_error ro X) threshold).

Lemma forallb_chirality_false (x : list (RansacObservation T)) X :
  forallb (fun ro => chirality ro X) x = false <->
  exists ro, ro ∈ x /\ chirality ro X = false.
Proof.
  induction x as [|ro x IH]; cbn.
  - split; [discriminate|]. intros (ro & Hin & _). inversion Hin.
  - rewrite andb_false_iff, IH. split.
    + intros [H | (ro' & Hin & H)].
      * exists ro. split; [left|exact H].
      * exists ro'. split; [right; exact Hin|exact H].
    + intros (ro' & Hin & H). inversion Hin; subst; eauto.
Qed.

Lemma forallb_chirality_true (x : list (RansacObservation T)) X :
  forallb (fun ro => chirality ro X) x = true <->
  forall ro, ro ∈ x -> chirality ro X = true.
Proof.
  rewrite forallb_forall. split; intros H ro Hin; apply H.
  - apply list_elem_of_In. exact Hin.
  - apply list_elem_of_In. exact Hin.
Qed.

Lemma EvalTriangulate_loop_spec x X acc :
  EvalTriangulate_loop x X acc =
    if forallb (fun ro => chirality ro X) x then
      Some {| error :=
                foldl s_add (error acc)
                      (map (fun ro => reprojection_error ro X)
                           (List.filter (is_inlier X) x));
              fitness := fitness acc;
              inliers := inliers acc ++ List.filter (is_inlier X) x;
              inlier_rmse := inlier_rmse acc;
              success := success acc |}
    else None.
Proof.
  revert acc. induction x as [|ro x IH]; intros acc; cbn.
  - rewrite app_nil_r. destruct acc; reflexivity.
  - destruct (chirality ro X); cbn; [|reflexivity].
    rewrite IH. destruct (forallb (fun ro0 => chirality ro0 X) x); [|reflexivity].
    destruct (s_lt (reprojection_error ro X) threshold); cbn; [|reflexivity].
    rewrite <- app_assoc. reflexivity.
Qed.

(** C4: [EvalTriangulate] returns the default result (no success,
    fitness 0, no inliers) when an observation fails the chirality test
    against [X].  Otherwise it succeeds, also without inliers; the inliers
    are the observations whose reprojection error is below 0.1, [error]
    is the sum of their errors, and with [n > 0] inliers among [N]
    observations [fitness = n / N] and [inlier_rmse = error / sqrt n];
    with none, [fitness] stays 0 and [inlier_rmse] infinite. *)
Theorem EvalTriangulate_spec (x : list (RansacObservation T)) (X : Vec3 T) :
  let r := EvalTriangulate x X in
  let found := List.filter (is_inlier X) x in
  ((exists ro, ro ∈ x /\ chirality ro X = false) ->
   r = RANSACResult_default
   /\ success r = false /\ fitness r = s_zero /\ inliers r = [])
  /\ ((forall ro, ro ∈ x -> chirality ro X = true) ->
      success r = true
      /\ inliers r = found
      /\ error r
         = foldl s_add s_zero (map (fun ro => reprojection_error ro X) found)
      /\ (0 < length found ->
          fitness r = s_div (s_of_nat (length found)) (s_of_nat (length x))
          /\ inlier_rmse r
             = s_div (error r) (s_sqrt (s_of_nat (length found))))
      /\ (length found = 0 -> fitness r = s_zero /\ inlier_rmse r = s_inf)
      /\ (x <> [] ->
          (forall n, 0 < n -> s_div (s_of_nat 0) (s_of_nat n) = s_zero) ->
          fitness r = s_div (s_of_nat (length found)) (s_of_nat (length x)))).
Proof.
  intros r found. subst r. unfold EvalTriangulate.
  rewrite EvalTriangulate_loop_spec. cbn [error fitness inliers inlier_rmse success].
  rewrite app_nil_l. fold found. split.
  - intros Hfail. apply forallb_chirality_false in Hfail. rewrite Hfail.
    repeat split; reflexivity.
  - intros Hpass. apply forallb_chirality_true in Hpass. rewrite Hpass.
    cbn [inliers error].
    destruct (0 <? length found) eqn:Hn; cbn.
    + apply Nat.ltb_lt in Hn. repeat split; try reflexivity; lia.
    + apply Nat.ltb_ge in Hn.
      split; [reflexivity|]. split; [reflexivity|]. split; [reflexivity|].
      split; [intros; lia|]. split; [intros; split; reflexivity|].
      intros Hx Hzero. assert (length found = 0) as -> by lia.
      symmetry. apply Hzero. destruct x; [congruence|cbn; lia].
Qed.

(** C5, as the code has it: [Triangulate] fails exactly when the
    algebraic solve fails, the normalised point has a NaN coordinate, or
    an observation fails the chirality test; when it succeeds it returns
    the normalised point. *)
Theorem Triangulate_fails_iff (x : list (RansacObservation T)) :
  let solution :=
    TriangulateNViewAlgebraic (map ro_pt x)
                              (map (fun ro => asMatrix (ro_pose ro)) x) in
  let X := hnormalized solution.2 in
  ((Triangulate' x).1 = false <->
   solution.1 = false
   \/ vec3_hasNaN X = true
   \/ exists ro, ro ∈ x /\ chirality ro X = false)
  /\ ((Triangulate' x).1 = true <-> Triangulate' x = (true, X)).
Proof.
  intros solution X. unfold Triangulate. fold solution.
  destruct solution as [solved Xh] eqn:Hsol. cbn [fst snd] in *. subst X.
  destruct solved; cbn.
  - destruct (vec3_hasNaN (hnormalized Xh)) eqn:Hnan; cbn.
    + split; [|split; discriminate]. split; auto.
    + destruct (forallb (fun ro => chirality ro (hnormalized Xh)) x) eqn:Hall; cbn.
      * split; [|split; reflexivity]. split; [discriminate|].
        intros [H | [H | H]]; try discriminate.
        apply forallb_chirality_false in H. congruence.
      * split; [|split; discriminate]. split; [|reflexivity].
        intros _. right. right. apply forallb_chirality_false. exact Hall.
  - split; [|split; discriminate]. split; auto.
Qed.
End Triangulation_facts.

(** ** Detection *)

Section Detection_facts.
Context {T : Type}.
Implicit Types (lms : Landmarks T) (ids : gset Z).

Lemma foldl_preserves {A B} (P : A -> Prop) (f : A -> B -> A) (l : list B) :
  (forall a b, b ∈ l -> P a -> P (f a b)) -> forall a, P a -> P (foldl f a l).
Proof.
  induction l as [|b l IH]; intros Hf a Ha; cbn; [exact Ha|].
  apply IH.
  - intros a' b' Hin. apply Hf. right. exact Hin.
  - apply Hf; [left|exact Ha].
Qed.

Lemma add_observation_lookup cornerID viewID corner lms k :
  add_observation cornerID viewID corner lms !! k =
    if decide (k = cornerID) then
      Some (let ldm := default Landmark_default (lms !! cornerID) in
            mkLandmark (ldm_id ldm) (ldm_obs ldm ++ [(viewID, corner)])
                       (ldm_X ldm))
    else lms !! k.
Proof.
  unfold add_observation. destruct (decide (k = cornerID)) as [->|Hne].
  - rewrite lookup_alter_eq.
    destruct (lms !! cornerID) as [ldm|] eqn:Hk; cbn.
    + rewrite Hk. reflexivity.
    + rewrite lookup_insert_eq. reflexivity.
  - rewrite lookup_alter_ne by congruence.
    destruct (lms !! cornerID); [reflexivity|].
    rewrite lookup_insert_ne by congruence. reflexivity.
Qed.

Lemma add_observation_no_positions cornerID viewID corner lms :
  no_positions lms -> no_positions (add_observation cornerID viewID corner lms).
Proof.
  intros Hno k ldm. rewrite add_observation_lookup.
  destruct (decide (k = cornerID)) as [->|Hne]; [|apply Hno].
  intros [= <-]. cbn.
  destruct (lms !! cornerID) as [l|] eqn:Hk; cbn; [|reflexivity].
  exact (Hno _ _ Hk).
Qed.

Lemma add_observation_is_Some cornerID viewID corner lms k :
  is_Some (add_observation cornerID viewID corner lms !! k) <->
  k = cornerID \/ is_Some (lms !! k).
Proof.
  rewrite add_observation_lookup.
  destruct (decide (k = cornerID)) as [->|Hne].
  - split; [auto|]. intros _. eexists. reflexivity.
  - split; [auto|]. intros [H|H]; [congruence|exact H].
Qed.

Lemma track_corners_no_positions viewID markerID corners lms :
  no_positions lms -> no_positions (track_corners viewID markerID corners lms).
Proof.
  unfold track_corners. apply foldl_preserves.
  intros a b _. apply add_observation_no_positions.
Qed.

Lemma track_corners_is_Some_mono viewID markerID corners lms k :
  is_Some (lms !! k) -> is_Some (track_corners viewID markerID corners lms !! k).
Proof.
  unfold track_corners.
  apply (foldl_preserves (fun m : Landmarks T => is_Some (m !! k))).
  intros a b _ H. apply add_observation_is_Some. right. exact H.
Qed.

Lemma foldl_add_observation_tracks viewID markerID
    (l : list (nat * Vec2 T)) lms i c :
  (i, c) ∈ l ->
  is_Some (foldl (fun m ic =>
                    add_observation (GetLandmarkID markerID (Z.of_nat ic.1))
                                    viewID ic.2 m) lms l
           !! GetLandmarkID markerID (Z.of_nat i)).
Proof.
  revert lms. induction l as [|b l IH]; intros lms Hin; [inversion Hin|].
  cbn. apply elem_of_cons in Hin. destruct Hin as [<- | Hin].
  - apply (foldl_preserves
             (fun m : Landmarks T =>
                is_Some (m !! GetLandmarkID markerID (Z.of_nat i)))).
    + intros a b _ H. apply add_observation_is_Some. right. exact H.
    + apply add_observation_is_Some. left. reflexivity.
  - apply IH. exact Hin.
Qed.

Lemma track_corners_tracks viewID markerID corners lms i :
  i < length corners ->
  is_Some (track_corners viewID markerID corners lms
           !! GetLandmarkID markerID (Z.of_nat i)).
Proof.
  intros Hi. apply lookup_lt_is_Some_2 in Hi. destruct Hi as [c Hc].
  unfold track_corners. apply (foldl_add_observation_tracks _ _ _ _ i c).
  apply elem_of_lookup_imap. exists i, c. split; [reflexivity|exact Hc].
Qed.

Lemma track_view_no_positions (st : gset Z * Landmarks T) view :
  no_positions st.2 -> no_positions (track_view st view).2.
Proof.
  unfold track_view.
  apply (foldl_preserves (fun s : gset Z * Landmarks T => no_positions s.2)).
  intros a b _ H. cbn. apply track_corners_no_positions. exact H.
Qed.

Lemma track_view_corners_tracked (st : gset Z * Landmarks T) view :
  four_corners view.2 -> corners_tracked st -> corners_tracked (track_view st view).
Proof.
  intros Hfour. unfold track_view. apply foldl_preserves.
  intros [ids lms] [idx id] Hin Htr. cbn.
  apply elem_of_lookup_imap in Hin.
  destruct Hin as (idx' & id' & [= -> ->] & Hid).
  pose proof (Hfour _ _ Hid) as Hlen.
  intros mid i Hmid Hi. cbn in *.
  apply elem_of_union in Hmid. destruct Hmid as [Hmid | Hmid].
  - apply elem_of_singleton in Hmid. subst mid.
    apply track_corners_tracks. lia.
  - apply track_corners_is_Some_mono. exact (Htr mid i Hmid Hi).
Qed.

Lemma detect_landmarks_no_positions (views : list (ViewID * DetectionResult T)) :
  no_positions (detect_landmarks views).2.
Proof.
  unfold detect_landmarks.
  apply (foldl_preserves (fun s : gset Z * Landmarks T => no_positions s.2)).
  - intros a b _. apply track_view_no_positions.
  - intros k ldm. cbn. rewrite lookup_empty. discriminate.
Qed.

Lemma detect_landmarks_corners_tracked (views : list (ViewID * DetectionResult T)) :
  Forall (fun view => four_corners view.2) views ->
  corners_tracked (detect_landmarks views).
Proof.
  intros Hall. unfold detect_landmarks. apply foldl_preserves.
  - intros a b Hin. apply track_view_corners_tracked.
    rewrite Forall_forall in Hall. apply Hall. exact Hin.
  - intros id i Hin. cbn in Hin. set_solver.
Qed.
End Detection_facts.

(** ** The triangulation pass *)

Section Pass_facts.
Context {T : Type} {FT : Floating T} {LT : Libm T}.
Context {Rng : Type}.
Variable seed_rng : N -> Rng.
Variable std_sample :
  list (RansacObservation T) -> nat -> Rng -> list (RansacObservation T) * Rng.
Variable TriangulateNViewAlgebraic :
  list (Vec3 T) -> list (Mat34 T) -> bool * Vec4 T.
Variable Vec3_default : Vec3 T.
Variable sfmData : SfM_Data T.
Variable undistortImages : bool.
Variable no_ransac : bool.

Local Abbreviation triangulate_observations' :=
  (triangulate_observations seed_rng std_sample TriangulateNViewAlgebraic
     Vec3_default no_ransac).
Local Abbreviation triangulate_landmark' :=
  (triangulate_landmark seed_rng std_sample TriangulateNViewAlgebraic
     Vec3_default sfmData undistortImages no_ransac).
Local Abbreviation triangulate_landmarks' :=
  (triangulate_landmarks seed_rng std_sample TriangulateNViewAlgebraic
     Vec3_default sfmData undistortImages no_ransac).
Local Abbreviation triangulated' :=
  (triangulated seed_rng std_sample TriangulateNViewAlgebraic Vec3_default
     sfmData undistortImages no_ransac).
Local Abbreviation landmark_after' :=
  (landmark_after seed_rng std_sample TriangulateNViewAlgebraic Vec3_default
     sfmData undistortImages no_ransac).
Local Abbreviation landmark_warning' :=
  (landmark_warning seed_rng std_sample TriangulateNViewAlgebraic Vec3_default
     sfmData undistortImages no_ransac).

(** [TriangulateRansac] reseeds the generator, [Triangulate] does not
    use it. *)
Lemma triangulate_observations_rng x (g1 g2 : Rng) :
  (triangulate_observations' x g1).1 = (triangulate_observations' x g2).1.
Proof. unfold triangulate_observations. destruct no_ransac; reflexivity. Qed.

Lemma triangulate_landmark_step (g : Rng) st entry :
  (forall k, k <> entry.1 ->
     landmarks (triangulate_landmark' st entry) !! k = landmarks st !! k)
  /\ (landmarks st !! entry.1 = Some entry.2 ->
      landmarks (triangulate_landmark' st entry) !! entry.1
      = Some (landmark_after' g entry.2))
  /\ messages (triangulate_landmark' st entry)
     = messages st ++ landmark_warning' g entry.
Proof.
  unfold triangulate_landmark, landmark_after, landmark_warning, triangulated.
  rewrite (triangulate_observations_rng _ g (pass_rng st)).
  destruct (length (ldm_obs entry.2) <? 3); cbn; [auto|].
  destruct (triangulate_observations' _ (pass_rng st)) as [[ok X] g'].
  destruct ok; cbn.
  - split; [|split].
    + intros k Hk. rewrite lookup_insert_ne by congruence. reflexivity.
    + intros _. rewrite lookup_insert_eq. reflexivity.
    + rewrite app_nil_r. reflexivity.
  - auto.
Qed.

Lemma foldl_triangulate_landmark (g : Rng) (l : list (string * Landmark T)) :
  NoDup l.*1 ->
  forall st,
    (forall e, e ∈ l -> landmarks st !! e.1 = Some e.2) ->
    (forall e, e ∈ l ->
       landmarks (foldl triangulate_landmark' st l) !! e.1
       = Some (landmark_after' g e.2))
    /\ (forall k, k ∉ l.*1 ->
          landmarks (foldl triangulate_landmark' st l) !! k = landmarks st !! k)
    /\ messages (foldl triangulate_landmark' st l)
       = messages st ++ (l ≫= landmark_warning' g).
Proof.
  induction l as [|e l IH]; intros Hnd st Hst; cbn.
  - split; [|split].
    + intros e He. inversion He.
    + reflexivity.
    + rewrite app_nil_r. reflexivity.
  - apply NoDup_cons in Hnd. destruct Hnd as [Hnotin Hnd].
    destruct (triangulate_landmark_step g st e) as (Hother & Hself & Hmsg).
    assert (Hst' : forall e', e' ∈ l ->
              landmarks (triangulate_landmark' st e) !! e'.1 = Some e'.2).
    { intros e' He'. rewrite Hother.
      - apply Hst. right. exact He'.
      - intros Heq. apply Hnotin. rewrite <- Heq.
        apply list_elem_of_fmap. exists e'. auto. }
    destruct (IH Hnd _ Hst') as (IH1 & IH2 & IH3).
    split; [|split].
    + intros e' He'. apply elem_of_cons in He'. destruct He' as [-> | He'].
      * rewrite IH2 by exact Hnotin. apply Hself. apply Hst. left.
      * apply IH1. exact He'.
    + intros k Hk. apply not_elem_of_cons in Hk. destruct Hk as [Hk1 Hk2].
      rewrite IH2 by exact Hk2. apply Hother. exact Hk1.
    + rewrite IH3, Hmsg, <- app_assoc. reflexivity.
Qed.

Lemma landmark_entries_elem_of (lms : Landmarks T) e :
  e ∈ landmark_entries lms <-> lms !! e.1 = Some e.2.
Proof.
  unfold landmark_entries. rewrite merge_sort_Permutation.
  destruct e as [k v]. apply elem_of_map_to_list.
Qed.

Lemma landmark_entries_NoDup (lms : Landmarks T) :
  NoDup (landmark_entries lms).*1.
Proof.
  unfold landmark_entries. rewrite merge_sort_Permutation.
  apply NoDup_fst_map_to_list.
Qed.

(** The store after the pass: each landmark on its own. *)
Lemma triangulate_landmarks_fmap (lms : Landmarks T) (g g' : Rng) :
  landmarks (triangulate_landmarks' lms g) = landmark_after' g' <$> lms.
Proof.
  unfold triangulate_landmarks.
  destruct (foldl_triangulate_landmark g' (landmark_entries lms)
              (landmark_entries_NoDup lms) (mkPass lms 0 [] g))
    as (Hin & Hout & _).
  { intros e He. cbn. apply landmark_entries_elem_of. exact He. }
  apply map_eq. intros k. rewrite lookup_fmap.
  destruct (lms !! k) as [v|] eqn:Hk; cbn.
  - apply (Hin (k, v)). apply landmark_entries_elem_of. exact Hk.
  - rewrite Hout; [exact Hk|].
    intros Hmem. apply list_elem_of_fmap in Hmem.
    destruct Hmem as ([k' v] & -> & He).
    apply landmark_entries_elem_of in He. cbn in *. congruence.
Qed.

Lemma triangulate_landmarks_messages (lms : Landmarks T) (g g' : Rng) m :
  m ∈ messages (triangulate_landmarks' lms g) <->
  exists k ldm, lms !! k = Some ldm /\ m ∈ landmark_warning' g' (k, ldm).
Proof.
  unfold triangulate_landmarks.
  destruct (foldl_triangulate_landmark g' (landmark_entries lms)
              (landmark_entries_NoDup lms) (mkPass lms 0 [] g))
    as (_ & _ & ->).
  { intros e He. cbn. apply landmark_entries_elem_of. exact He. }
  cbn. rewrite list_elem_of_bind. split.
  - intros ([k v] & Hm & He). apply landmark_entries_elem_of in He. eauto.
  - intros (k & v & Hk & Hm). exists (k, v). split; [exact Hm|].
    apply landmark_entries_elem_of. exact Hk.
Qed.
End Pass_facts.

(** ** Measuring the markers *)

Section Scale_facts.
Context {T : Type} {FT : Floating T}.
Implicit Types (lms : Landmarks T) (ids : gset Z).

Lemma Landmarks_at_present key lms ldm :
  lms !! key = Some ldm -> Landmarks_at key lms = (ldm, lms).
Proof. intros H. unfold Landmarks_at. rewrite H. reflexivity. Qed.

Lemma Landmarks_at_positions key lms :
  ldm_X (Landmarks_at key lms).1 = lms !! key ≫= ldm_X
  /\ same_positions lms (Landmarks_at key lms).2.
Proof.
  unfold Landmarks_at. destruct (lms !! key) as [ldm|] eqn:Hk; cbn.
  - split; [reflexivity|]. intros k. reflexivity.
  - split; [reflexivity|]. intros k.
    destruct (decide (k = key)) as [->|Hne].
    + rewrite lookup_insert_eq, Hk. reflexivity.
    + rewrite lookup_insert_ne by congruence. reflexivity.
Qed.

Lemma same_positions_trans lms1 lms2 lms3 :
  same_positions lms1 lms2 -> same_positions lms2 lms3 ->
  same_positions lms1 lms3.
Proof. intros H1 H2 k. rewrite H2. apply H1. Qed.

Lemma edge_sample_same_positions markerSize lms lms' markerID edge :
  same_positions lms lms' ->
  edge_sample markerSize lms' markerID edge
  = edge_sample markerSize lms markerID edge.
Proof.
  intros H. unfold edge_sample, corner_position. rewrite !H. reflexivity.
Qed.

Lemma measure_edge_spec (markerSize : T) markerID lms0 (st : Landmarks T * list T) i :
  same_positions lms0 st.1 ->
  let nI := if i =? 3 then 0 else i + 1 in
  same_positions lms0 (measure_edge markerSize markerID st i).1
  /\ (measure_edge markerSize markerID st i).2
     = st.2 ++ option_list (edge_sample markerSize lms0 markerID (i, nI)).
Proof.
  intros Hsame nI. unfold measure_edge. fold nI.
  destruct (Landmarks_at_positions (GetLandmarkID markerID (Z.of_nat i)) st.1)
    as [HX0 Hs0].
  destruct (Landmarks_at (GetLandmarkID markerID (Z.of_nat i)) st.1)
    as [l0 lms1].
  cbn [fst snd] in HX0, Hs0.
  destruct (Landmarks_at_positions (GetLandmarkID markerID (Z.of_nat nI)) lms1)
    as [HX1 Hs1].
  destruct (Landmarks_at (GetLandmarkID markerID (Z.of_nat nI)) lms1)
    as [l1 lms2].
  cbn [fst snd] in HX1, Hs1.
  assert (Hs2 : same_positions lms0 lms2).
  { eapply same_positions_trans; [|exact Hs1].
    eapply same_positions_trans; [exact Hsame|exact Hs0]. }
  assert (Hedge : edge_sample markerSize lms0 markerID (i, nI)
                  = c0 ← ldm_X l0; c1 ← ldm_X l1;
                    Some (s_div markerSize (vec3_norm (vec3_sub c1 c0)))).
  { unfold edge_sample, corner_position. cbn [fst snd].
    rewrite HX0, HX1, Hs0, !Hsame. reflexivity. }
  rewrite Hedge.
  destruct (ldm_X l0) as [c0|], (ldm_X l1) as [c1|]; cbn;
    rewrite ?app_nil_r; auto.
Qed.

Lemma measure_marker_spec (markerSize : T) lms0 (st : Landmarks T * list T) markerID :
  same_positions lms0 st.1 ->
  same_positions lms0 (measure_marker markerSize st markerID).1
  /\ (measure_marker markerSize st markerID).2
     = st.2 ++ omap (edge_sample markerSize lms0 markerID) marker_edges.
Proof.
  intros H0. unfold measure_marker. cbn [seq foldl].
  destruct (measure_edge_spec markerSize markerID lms0 st 0 H0) as [H1 E1].
  destruct (measure_edge_spec markerSize markerID lms0 _ 1 H1) as [H2 E2].
  destruct (measure_edge_spec markerSize markerID lms0 _ 2 H2) as [H3 E3].
  destruct (measure_edge_spec markerSize markerID lms0 _ 3 H3) as [H4 E4].
  split; [exact H4|].
  rewrite E4, E3, E2, E1. cbn [Nat.eqb Nat.add].
  unfold marker_edges. cbn [omap list_omap].
  rewrite <- !app_assoc.
  destruct (edge_sample markerSize lms0 markerID (0, 1)),
           (edge_sample markerSize lms0 markerID (1, 2)),
           (edge_sample markerSize lms0 markerID (2, 3)),
           (edge_sample markerSize lms0 markerID (3, 0)); reflexivity.
Qed.

Lemma foldl_measure_marker (markerSize : T) lms0 (l : list Z) :
  forall st : Landmarks T * list T,
    same_positions lms0 st.1 ->
    same_positions lms0 (foldl (measure_marker markerSize) st l).1
    /\ (foldl (measure_marker markerSize) st l).2
       = st.2 ++ (l ≫= fun markerID =>
                    omap (edge_sample markerSize lms0 markerID) marker_edges).
Proof.
  induction l as [|markerID l IH]; intros st H0; cbn [foldl].
  - cbn. rewrite app_nil_r. auto.
  - destruct (measure_marker_spec markerSize lms0 st markerID H0) as [H1 E1].
    destruct (IH _ H1) as [H2 E2]. split; [exact H2|].
    rewrite E2, E1, <- app_assoc. reflexivity.
Qed.

Lemma measure_landmarks_scales (markerSize : T) ids lms :
  (measure_landmarks markerSize ids lms).2 = expected_scales markerSize ids lms.
Proof.
  unfold measure_landmarks, expected_scales.
  destruct (foldl_measure_marker markerSize lms
              (merge_sort Z.le (elements ids)) (lms, [])) as [_ E].
  { intros k. reflexivity. }
  exact E.
Qed.

(** When the corners of the markers are in the store, looking them up
    leaves the store as it is. *)
Lemma measure_edge_unchanged (markerSize : T) markerID (st : Landmarks T * list T) i :
  i < 4 ->
  (forall j, j < 4 -> is_Some (st.1 !! GetLandmarkID markerID (Z.of_nat j))) ->
  (measure_edge markerSize markerID st i).1 = st.1.
Proof.
  intros Hi Hall. unfold measure_edge.
  destruct (Hall i Hi) as [l0 H0].
  rewrite (Landmarks_at_present _ _ _ H0).
  assert (HnI : (if i =? 3 then 0 else i + 1) < 4).
  { destruct (i =? 3) eqn:E; [lia|]. apply Nat.eqb_neq in E. lia. }
  destruct (Hall _ HnI) as [l1 H1].
  rewrite (Landmarks_at_present _ _ _ H1).
  destruct (ldm_X l0), (ldm_X l1); reflexivity.
Qed.

Lemma measure_marker_unchanged (markerSize : T) (st : Landmarks T * list T) markerID :
  (forall j, j < 4 -> is_Some (st.1 !! GetLandmarkID markerID (Z.of_nat j))) ->
  (measure_marker markerSize st markerID).1 = st.1.
Proof.
  intros Hall. unfold measure_marker. cbn [seq foldl].
  assert (E1 := measure_edge_unchanged markerSize markerID st 0 ltac:(lia) Hall).
  assert (E2 := measure_edge_unchanged markerSize markerID
                  (measure_edge markerSize markerID st 0) 1 ltac:(lia)).
  rewrite E1 in E2. specialize (E2 Hall).
  assert (E3 := measure_edge_unchanged markerSize markerID
                  (measure_edge markerSize markerID
                     (measure_edge markerSize markerID st 0) 1) 2 ltac:(lia)).
  rewrite E2 in E3. specialize (E3 Hall).
  rewrite measure_edge_unchanged; [congruence|lia|].
  rewrite E3. exact Hall.
Qed.

Lemma foldl_measure_marker_unchanged (markerSize : T) (l : list Z) :
  forall st : Landmarks T * list T,
    (forall id j, id ∈ l -> j < 4 ->
       is_Some (st.1 !! GetLandmarkID id (Z.of_nat j))) ->
    (foldl (measure_marker markerSize) st l).1 = st.1.
Proof.
  induction l as [|id l IH]; intros st Hall; cbn [foldl]; [reflexivity|].
  assert (Hm : (measure_marker markerSize st id).1 = st.1).
  { apply measure_marker_unchanged. intros j Hj. apply Hall; [left|exact Hj]. }
  rewrite IH; [exact Hm|].
  intros id' j Hid' Hj. rewrite Hm. apply Hall; [right; exact Hid'|exact Hj].
Qed.

Lemma measure_landmarks_unchanged (markerSize : T) ids lms :
  corners_tracked (ids, lms) ->
  (measure_landmarks markerSize ids lms).1 = lms.
Proof.
  intros Htr. unfold measure_landmarks.
  rewrite foldl_measure_marker_unchanged; [reflexivity|].
  intros id j Hid Hj. cbn. apply (Htr id j); [|exact Hj]. cbn.
  rewrite merge_sort_Permutation in Hid. apply elem_of_elements. exact Hid.
Qed.

Lemma accumulate_scale_sum (scales : list T) :
  accumulate_scale scales
  = foldl s_add s_zero
          (map (fun b => s_div b (s_of_nat (length scales))) scales).
Proof.
  unfold accumulate_scale. generalize (s_of_nat (length scales)). intros n.
  generalize (s_zero : T). induction scales as [|b l IH]; intros a; cbn.
  - reflexivity.
  - apply IH.
Qed.

Lemma accumulate_scale_mean (scales : list T) :
  exact_division ->
  accumulate_scale scales
  = s_div (foldl s_add s_zero scales) (s_of_nat (length scales)).
Proof.
  intros [Hdistr Hzero]. unfold accumulate_scale.
  generalize (s_of_nat (length scales)). intros n.
  rewrite <- (Hzero n) at 1.
  generalize (s_zero : T). induction scales as [|b l IH]; intros a; cbn.
  - reflexivity.
  - rewrite <- Hdistr. apply IH.
Qed.
End Scale_facts.

(** ** The stages of [main] *)

Section Main_facts.
Context {T : Type} {FT : Floating T} {LT : Libm T}.
Context {Rng : Type}.
Variable seed_rng : N -> Rng.
Variable std_sample :
  list (RansacObservation T) -> nat -> Rng -> list (RansacObservation T) * Rng.
Variable TriangulateNViewAlgebraic :
  list (Vec3 T) -> list (Mat34 T) -> bool * Vec4 T.
Variable Vec3_default : Vec3 T.
Variable sfmData : SfM_Data T.
Variable undistortImages : bool.
Variable no_ransac : bool.

Local Abbreviation triangulate_landmarks' :=
  (triangulate_landmarks seed_rng std_sample TriangulateNViewAlgebraic
     Vec3_default sfmData undistortImages no_ransac).
Local Abbreviation triangulated' :=
  (triangulated seed_rng std_sample TriangulateNViewAlgebraic Vec3_default
     sfmData undistortImages no_ransac).
Local Abbreviation landmark_after' :=
  (landmark_after seed_rng std_sample TriangulateNViewAlgebraic Vec3_default
     sfmData undistortImages no_ransac).
Local Abbreviation landmark_warning' :=
  (landmark_warning seed_rng std_sample TriangulateNViewAlgebraic Vec3_default
     sfmData undistortImages no_ransac).
Local Abbreviation global_scaler' :=
  (global_scaler seed_rng std_sample TriangulateNViewAlgebraic Vec3_default
     sfmData undistortImages no_ransac).


Lemma estimate_scale_result (markerSize : T) (markerIDs : gset Z)
    (st : pass_state (Rng := Rng)) :
  result (estimate_scale markerSize markerIDs st)
  = if numTriangulated st <? 2 then Exit NO_LDMS
    else match (measure_landmarks markerSize markerIDs (landmarks st)).2 with
         | [] => Exit NO_SCALES
         | s0 :: scales => Scale (accumulate_scale (s0 :: scales))
         end.
Proof.
  unfold estimate_scale.
  destruct (numTriangulated st <? 2); [reflexivity|].
  destruct (measure_landmarks markerSize markerIDs (landmarks st))
    as [lms [|s0 scales]]; reflexivity.
Qed.

(** C1, as the code has it: the scale stage ends with [NO_LDMS] exactly
    when fewer than 2 landmarks were triangulated, with [NO_SCALES]
    exactly when at least 2 were and no scale sample was collected, and
    with a scale, the accumulated mean of the samples, as soon as there is
    one sample. *)
Theorem estimate_scale_outcome (markerSize : T) (markerIDs : gset Z)
    (st : pass_state (Rng := Rng)) :
  let scales := (measure_landmarks markerSize markerIDs (landmarks st)).2 in
  let r := result (estimate_scale markerSize markerIDs st) in
  (r = Exit NO_LDMS <-> numTriangulated st < 2)
  /\ (r = Exit NO_SCALES <-> 2 <= numTriangulated st /\ scales = [])
  /\ (forall s, r = Scale s <->
                2 <= numTriangulated st /\ 1 <= length scales
                /\ s = accumulate_scale scales).
Proof.
  intros scales r. subst r. rewrite estimate_scale_result. fold scales.
  destruct (numTriangulated st <? 2) eqn:Hn.
  - apply Nat.ltb_lt in Hn.
    split; [split; auto|]. split.
    + split; [discriminate|]. intros [? _]. lia.
    + intros s. split; [discriminate|]. intros [? _]. lia.
  - apply Nat.ltb_ge in Hn. destruct scales as [|s0 scales]; cbn.
    + split; [split; [discriminate|lia]|]. split.
      * split; auto.
      * intros s. split; [discriminate|]. intros (_ & ? & _). lia.
    + split; [split; [discriminate|lia]|]. split.
      * split; [discriminate|]. intros [_ [=]].
      * intros s. split.
        -- intros [= <-]. split; [exact Hn|]. split; [lia|reflexivity].
        -- intros (_ & _ & ->). reflexivity.
Qed.

(** C8: in the program's arithmetic as in any other, the samples are
    collected marker by marker in increasing id and, for each marker, over
    the edges 0-1, 1-2, 2-3, 3-0, an edge giving [markerSize / |c1 - c0|]
    when both corners have a position and nothing otherwise; and the scale
    is the sum, from 0 and in the order of collection, of the samples each
    divided by their number.  Where division distributes over the sum, as
    in exact arithmetic, that is the sum of the samples divided by their
    number, their arithmetic mean; binary64 rounds every quotient and
    every sum, and the two can differ in the last place. *)
Theorem scale_is_mean_of_edge_samples (markerSize : T) (markerIDs : gset Z)
    (st : pass_state (Rng := Rng)) :
  let scales := (measure_landmarks markerSize markerIDs (landmarks st)).2 in
  scales
  = (merge_sort Z.le (elements markerIDs)
       ≫= fun markerID =>
            omap (edge_sample markerSize (landmarks st) markerID)
                 [(0, 1); (1, 2); (2, 3); (3, 0)])
  /\ (2 <= numTriangulated st -> scales <> [] ->
      result (estimate_scale markerSize markerIDs st)
      = Scale (accumulate_scale scales))
  /\ accumulate_scale scales
     = foldl s_add s_zero
             (map (fun b => s_div b (s_of_nat (length scales))) scales)
  /\ (exact_division (T := T) ->
      accumulate_scale scales
      = s_div (foldl s_add s_zero scales) (s_of_nat (length scales))).
Proof.
  intros scales.
  split; [apply measure_landmarks_scales|].
  split.
  - intros Hn Hne. rewrite estimate_scale_result. fold scales.
    apply Nat.ltb_ge in Hn. rewrite Hn.
    destruct scales; [congruence|reflexivity].
  - split; [apply accumulate_scale_sum|].
    intros Hexact. apply accumulate_scale_mean. exact Hexact.
Qed.

(** C10: when detection gave four corners for every marker, measuring
    the distances leaves the landmark store as the triangulation pass
    left it: the lookups add, remove and change nothing, and the store
    the program goes on with is the one before the measurement. *)
Theorem measuring_leaves_landmarks_unchanged
    (views : list (ViewID * DetectionResult T)) (markerSize : T) (g : Rng) :
  Forall (fun view => four_corners view.2) views ->
  let det := detect_landmarks views in
  let st := triangulate_landmarks' det.2 g in
  (measure_landmarks markerSize det.1 (landmarks st)).1 = landmarks st
  /\ out_landmarks (global_scaler' views markerSize g) = landmarks st.
Proof.
  intros Hfour det st.
  assert (Hst : landmarks st = landmark_after' g <$> det.2).
  { apply triangulate_landmarks_fmap. }
  assert (Hsame : (measure_landmarks markerSize det.1 (landmarks st)).1
                  = landmarks st).
  { apply measure_landmarks_unchanged. intros id i Hid Hi. cbn in *.
    rewrite Hst, lookup_fmap. apply fmap_is_Some.
    apply (detect_landmarks_corners_tracked views Hfour id i Hid Hi). }
  split; [exact Hsame|].
  unfold global_scaler. destruct views as [|view views'].
  - cbn. subst st det. rewrite Hst. cbn. rewrite fmap_empty. reflexivity.
  - fold det. destruct det as [ids lms] eqn:Hdet. cbn [fst snd] in *.
    fold st. unfold estimate_scale.
    destruct (numTriangulated st <? 2); [reflexivity|].
    destruct (measure_landmarks markerSize ids (landmarks st))
      as [lms' [|s0 scales]]; cbn in *; congruence.
Qed.
End Main_facts.

(** ** The code on the example inputs *)

(** C1 does not hold as stated: marker 7 with two triangulated corners
    gives exactly one scale sample, and the scale stage does not fail: it
    returns that sample, 2 / 1, as the scale. *)
Lemma one_sample_is_returned_as_scale :
  (measure_landmarks (T := float) 2%float {[ 7%Z ]} two_corners).2 = [2%float]
  /\ result (estimate_scale 2%float {[ 7%Z ]} after_pass_two_corners)
     = Scale 2%float.
Proof. split; vm_compute; reflexivity. Qed.

(** C5 does not hold as stated: the normalised point [(inf, 0, 0)] has a
    coordinate that is not finite, the solve succeeded and the observation
    passes the chirality test, and [Triangulate] succeeds. *)
Lemma Triangulate_accepts_infinite_point :
  Triangulate far_solution (mkVec3 0%float 0%float 0%float) [far_observation]
  = (true, mkVec3 infinity 0%float 0%float)
  /\ chirality far_observation (mkVec3 infinity 0%float 0%float) = true
  /\ vec3_hasNaN (mkVec3 infinity 0%float 0%float) = false
  /\ PrimFloat.is_finite infinity = false.
Proof. repeat split; vm_compute; reflexivity. Qed.

Lemma sublist_same_length {A} (l1 l2 : list A) :
  sublist l1 l2 -> length l2 <= length l1 -> l1 = l2.
Proof.
  induction 1 as [|a l1 l2 _ IH|a l1 l2 Hsub _]; cbn; intros Hlen.
  - reflexivity.
  - f_equal. apply IH. lia.
  - apply sublist_length in Hsub. lia.
Qed.

(** A sample as large as the population is the population. *)
Lemma sample_spec_all {Value Rng : Type}
    (std_sample : list Value -> nat -> Rng -> list Value * Rng) x n g :
  sample_spec std_sample -> length x <= n -> (std_sample x n g).1 = x.
Proof.
  intros Hspec Hn. destruct (Hspec x n g) as [Hsub Hlen].
  apply sublist_same_length; [exact Hsub|]. lia.
Qed.

Section RANSAC_single.
Context {T : Type} {FT : Floating T} {LT : Libm T}.
Context {Value Model Rng : Type}.
Variable seed_rng : N -> Rng.
Variable std_sample : list Value -> nat -> Rng -> list Value * Rng.
Variable default_model : Model.
Variable fit : list Value -> bool * Model.
Variable eval : list Value -> Model -> RANSACResult Value T.

(** A call with [nIters = 1] whose only candidate is accepted. *)
Lemma RANSAC_single_iteration x nSamples seed probability g model :
  (forall g0, fit (std_sample x nSamples g0).1 = (true, model)) ->
  success (eval x model) = true ->
  improved (eval x model) RANSACResult_default = true ->
  (RANSAC seed_rng std_sample default_model fit eval x nSamples 1 seed
          probability g).1
  = ((fit (inliers (eval x model))).2,
     set_success (fit (inliers (eval x model))).1 (eval x model)).
Proof.
  intros Hfit He Himp. unfold RANSAC, run_loop. cbn [iterate].
  set (g0 := match seed with Some s => seed_rng s | None => g end).
  specialize (Hfit g0).
  destruct (std_sample x nSamples g0) as [samples g'] eqn:Hs.
  cbn [fst] in Hfit.
  rewrite (iteration_candidate std_sample fit eval x nSamples 1 probability
             0 (initial_state default_model 1 g0) samples g' model
             eq_refl Hs Hfit He).
  cbn [bestResult initial_state]. rewrite Himp.
  destruct (s_lt (fitness (eval x model)) s_one); cbn [bestModel rng];
    destruct (fit (inliers (eval x model))); reflexivity.
Qed.
End RANSAC_single.

(** C2 does not hold as stated.  Whatever the generator and the functions
    of [<cmath>] are, [RANSAC] on [0, 4, 100] with samples of 3 and one
    iteration returns the model 2, the mean of the inliers 0 and 4 of the
    model 34, with the evaluation of the model 34, whose error is 64; the
    evaluation of the data against the returned model 2 has error 4. *)
Lemma RANSAC_result_is_not_of_returned_model :
  (forall (LT : Libm float) (Rng : Type) (seed_rng : N -> Rng)
          (std_sample : list Z -> nat -> Rng -> list Z * Rng)
          (seed : option N) (probability : float) (g : Rng),
      sample_spec std_sample ->
      (RANSAC seed_rng std_sample 0%Z line_fit line_eval line_data 3 1 seed
              probability g).1
      = (2%Z, set_success true (line_eval line_data 34)))
  /\ error (line_eval (T := float) line_data 34) = 64%float
  /\ error (line_eval (T := float) line_data 2) = 4%float.
Proof.
  split; [|split; vm_compute; reflexivity].
  intros LT Rng seed_rng std_sample seed probability g Hspec.
  rewrite (RANSAC_single_iteration seed_rng std_sample 0%Z line_fit line_eval
             line_data 3 seed probability g 34%Z).
  - vm_compute. reflexivity.
  - intros g0. rewrite (sample_spec_all std_sample line_data 3 g0 Hspec).
    + vm_compute. reflexivity.
    + cbn. lia.
  - reflexivity.
  - vm_compute. reflexivity.
Qed.

Lemma xreal_exact_division : exact_division (T := xreal).
Proof.
  split.
  - intros a b c. destruct a as [a|], b as [b|], c as [c|]; cbn;
      try reflexivity; f_equal; unfold Rdiv; ring.
  - intros c. destruct c as [c|]; cbn; [|reflexivity].
    f_equal. unfold Rdiv. ring.
Qed.

(** The first iteration on the line example in binary64: the candidate 34
    has fitness 2/3, more than the initial 0, and becomes the best
    model. *)
Lemma iteration_replaces_best_iff_witness :
  let st := initial_state (T := float) 0%Z 1000 tt in
  let st' := flow_state (iteration (LT := libm_series) first_sample line_fit
                                   line_eval line_data 3 1000
                                   default_probability 0 st) in
  (breakIter st <? 0) = false
  /\ first_sample line_data 3 (rng st) = (line_data, tt)
  /\ line_fit line_data = (true, 34%Z)
  /\ success (line_eval (T := float) line_data 34) = true
  /\ bestResult st' = line_eval line_data 34
  /\ bestModel st' = 34%Z.
Proof.
  intros st st'.
  split; [reflexivity|]. split; [reflexivity|]. split; [reflexivity|].
  split; [reflexivity|].
  apply (iteration_replaces_best_iff (LT := libm_series) first_sample
           line_fit (line_eval (T := float)) line_data 3 1000
           default_probability 0 st line_data tt 34%Z
           eq_refl eq_refl eq_refl eq_refl).
  left. vm_compute. reflexivity.
Defined.

(** On the line example every fitness is 0, 1/3, 2/3 or 1; for 1/3 and
    2/3 the quotient is [+inf]. *)
Lemma line_quotient_defined (model : Z) :
  let f := fitness (line_eval (T := float) line_data model) in
  s_lt s_zero f = true -> s_lt f s_one = true ->
  s_lt (bound_quotient (LT := libm_series) 3 default_probability f) s_zero
  = false.
Proof.
  unfold line_eval, line_data. cbn [List.filter].
  destruct (Z.abs (0 - model) <=? 40)%Z, (Z.abs (4 - model) <=? 40)%Z,
           (Z.abs (100 - model) <=? 40)%Z;
    vm_compute; intros H0 H1; first [reflexivity | discriminate].
Qed.


(** C9: two calls with the same data, parameters and seed need not return
    the same result.  On the three diverging views every sample fails
    [Triangulate], no candidate is accepted, and the returned result is the
    evaluation of the value [bestModel] started with: with [(0, 0, 0)]
    there it has no inlier and fitness 0, with [(0, 0, 5)] it has the first
    view as inlier and fitness 1/3. *)
Theorem RANSAC_result_of_unset_model :
  let run d :=
    (RANSAC (LT := libm_series) (fun _ => tt) (fun x n g => (take n x, g)) d
            (Triangulate behind_solver (mkVec3 0 0 0)%float) EvalTriangulate
            diverging_views 2 1000 (Some 0%N) default_probability tt).1 in
  (forall samples,
     sublist samples diverging_views -> length samples = 2 ->
     (Triangulate behind_solver (mkVec3 0 0 0)%float samples).1 = false)
  /\ inliers (run (mkVec3 0 0 0)%float).2 = []
  /\ fitness (run (mkVec3 0 0 0)%float).2 = 0%float
  /\ inliers (run (mkVec3 0 0 5)%float).2 = take 1 diverging_views
  /\ fitness (run (mkVec3 0 0 5)%float).2 = (1 / 3)%float
  /\ run (mkVec3 0 0 0)%float <> run (mkVec3 0 0 5)%float.
Proof.
  intros run. split; [|split; [|split; [|split; [|split]]]].
  - intros samples Hsub Hlen. unfold diverging_views in Hsub.
    repeat match goal with
           | H : sublist _ (_ :: _) |- _ =>
               apply sublist_cons_r in H as [H | (? & -> & H)]
           | H : sublist _ [] |- _ => apply sublist_nil_r in H as ->
           end;
      try discriminate Hlen; vm_compute; reflexivity.
  - vm_compute. reflexivity.
  - vm_compute. reflexivity.
  - vm_compute. reflexivity.
  - vm_compute. reflexivity.
  - intros H. apply (f_equal (fun r => length (inliers r.2))) in H.
    vm_compute in H. discriminate H.
Qed.

(** Markers 7 and 9 with seven triangulated corners give six samples, in
    the order of the ids and of the edges, the two edges of marker 9 that
    end in its missing corner being left out.  In binary64 the scale is
    the sum of the six quotients by 6; in exact arithmetic it is the sum
    of the samples over 6. *)
Lemma scale_is_mean_of_edge_samples_witness :
  let scales :=
    (measure_landmarks (T := float) 2%float {[ 7%Z; 9%Z ]}
                       (landmarks after_pass_two_markers)).2 in
  let exact :=
    (measure_landmarks (T := xreal) (XFin 2) {[ 7%Z; 9%Z ]}
                       (landmarks after_pass_two_markers)).2 in
  scales = [2; 1; 2; 1; 0.5; 0.5]%float
  /\ result (estimate_scale 2%float {[ 7%Z; 9%Z ]} after_pass_two_markers)
     = Scale (0 + 2 / 6 + 1 / 6 + 2 / 6 + 1 / 6 + 0.5 / 6 + 0.5 / 6)%float
  /\ exact_division (T := xreal)
  /\ accumulate_scale exact
     = s_div (foldl s_add s_zero exact) (s_of_nat (length exact)).
Proof.
  intros scales exact.
  assert (Hs : scales = [2; 1; 2; 1; 0.5; 0.5]%float)
    by (vm_compute; reflexivity).
  destruct (scale_is_mean_of_edge_samples 2%float {[ 7%Z; 9%Z ]}
              (after_pass_two_markers (T := float)))
    as (_ & Hscale & Hsum & _).
  destruct (scale_is_mean_of_edge_samples (XFin 2) {[ 7%Z; 9%Z ]}
              (after_pass_two_markers (T := xreal)))
    as (_ & _ & _ & Hmean).
  fold scales in Hscale, Hsum. rewrite Hs in Hscale, Hsum.
  split; [exact Hs|]. split.
  - rewrite Hscale; [|vm_compute; lia|discriminate].
    rewrite Hsum. reflexivity.
  - split; [exact xreal_exact_division|].
    exact (Hmean xreal_exact_division).
Defined.

(** In binary64 division does not distribute over the sum: on these six
    samples the scale and the quotient of their sum by 6 differ in the
    last place. *)
Lemma accumulate_scale_rounds :
  let scales := [2; 1; 2; 1; 0.5; 0.5]%float in
  accumulate_scale scales = 0x1.2aaaaaaaaaaaap+0%float
  /\ s_div (foldl s_add s_zero scales) (s_of_nat (length scales))
     = 0x1.2aaaaaaaaaaabp+0%float.
Proof. split; vm_compute; reflexivity. Qed.

Lemma one_view_four_corners {T} `{Floating T} :
  Forall (fun view : ViewID * DetectionResult T => four_corners view.2) one_view.
Proof.
  repeat constructor. intros idx id. destruct idx as [|idx]; cbn.
  - intros _. reflexivity.
  - intros Hid. destruct idx; discriminate Hid.
Qed.

(** One view with marker 7 and its four corners: measuring leaves the
    store of the four landmarks as the pass left it. *)
Lemma measuring_leaves_landmarks_unchanged_witness :
  let det := detect_landmarks (T := float) one_view in
  let st := triangulate_landmarks (LT := libm_series) (fun _ => tt)
              (fun x n g => (take n x, g)) first_bearing
              (vec3_of_nat 0 0 0) one_camera false false det.2 tt in
  Forall (fun view : ViewID * DetectionResult float => four_corners view.2)
         one_view
  /\ (measure_landmarks 2%float det.1 (landmarks st)).1 = landmarks st.
Proof.
  intros det st. split; [exact one_view_four_corners|].
  exact (proj1
           (measuring_leaves_landmarks_unchanged (LT := libm_series)
              (fun _ => tt)
              (fun x n g => (take n x, g)) first_bearing (vec3_of_nat 0 0 0)
              one_camera false false one_view 2%float tt
              one_view_four_corners)).
Defined.

(** ** Landmark ids, observations and counts *)

Lemma pretty_N_char_not_dot (x : N) : Ascii.eqb (pretty_N_char x) "."%char = false.
Proof. unfold pretty_N_char. repeat case_match; reflexivity. Qed.

Lemma pretty_N_go_dot_free (x : N) (s : string) :
  dot_free s = true -> dot_free (pretty_N_go x s) = true.
Proof.
  revert s. induction (N.lt_wf_0 x) as [x _ IH]; intros s Hs.
  assert (x = 0 \/ 0 < x)%N as [->|Hx] by lia.
  - rewrite pretty_N_go_0. exact Hs.
  - rewrite pretty_N_go_step by exact Hx. apply IH.
    + apply N.div_lt; [exact Hx|reflexivity].
    + cbn. rewrite pretty_N_char_not_dot. exact Hs.
Qed.

Lemma pretty_N_dot_free (x : N) : dot_free (pretty x) = true.
Proof.
  unfold pretty, pretty_N. case_decide; [reflexivity|].
  apply pretty_N_go_dot_free. reflexivity.
Qed.

Lemma pretty_Z_dot_free (z : Z) : dot_free (pretty z) = true.
Proof.
  destruct z as [|p|p]; [reflexivity| |].
  - apply (pretty_N_dot_free (Npos p)).
  - change (dot_free (String "-" (pretty (Npos p))) = true). cbn.
    apply pretty_N_dot_free.
Qed.

(** Two strings that agree after a first dot agree before and after it. *)
Lemma split_at_first_dot (s1 s2 t1 t2 : string) :
  dot_free s1 = true -> dot_free s2 = true ->
  s1 +:+ "." +:+ t1 = s2 +:+ "." +:+ t2 -> s1 = s2 /\ t1 = t2.
Proof.
  revert s2. induction s1 as [|c s1 IH]; intros [|d s2] H1 H2 Heq; cbn in *.
  - injection Heq as Ht. subst. auto.
  - injection Heq as Hd _. subst d. discriminate H2.
  - injection Heq as Hc _. subst c. discriminate H1.
  - injection Heq as Hc Heq. subst d.
    apply andb_true_iff in H1, H2. destruct H1 as [_ H1], H2 as [_ H2].
    destruct (IH s2 H1 H2 Heq) as [-> ->]. auto.
Qed.

(** X2: distinct marker corners have distinct landmark ids. *)
Theorem GetLandmarkID_inj (arucoID cornerID arucoID' cornerID' : Z) :
  GetLandmarkID arucoID cornerID = GetLandmarkID arucoID' cornerID' <->
  arucoID = arucoID' /\ cornerID = cornerID'.
Proof.
  split; [|intros [-> ->]; reflexivity].
  unfold GetLandmarkID. intros Heq.
  apply split_at_first_dot in Heq; try apply pretty_Z_dot_free.
  destruct Heq as [Ha Hc]. split; eapply (inj pretty); eassumption.
Qed.

Section Observation_facts.
Context {T : Type}.
Implicit Types (lms : Landmarks T).

Lemma obs_at_add_observation cornerID viewID (corner : Vec2 T) lms key :
  obs_at (add_observation cornerID viewID corner lms) key
  = obs_at lms key ++ (if decide (key = cornerID) then [(viewID, corner)] else []).
Proof.
  unfold obs_at. rewrite add_observation_lookup.
  destruct (decide (key = cornerID)) as [->|Hne]; cbn.
  - destruct (lms !! cornerID); reflexivity.
  - rewrite app_nil_r. reflexivity.
Qed.

Lemma foldl_obs_at {B} (f : Landmarks T -> B -> Landmarks T)
    (g : B -> list (ViewID * Vec2 T)) key (l : list B) :
  (forall m b, obs_at (f m b) key = obs_at m key ++ g b) ->
  forall lms, obs_at (foldl f lms l) key = obs_at lms key ++ (l ≫= g).
Proof.
  intros Hstep. induction l as [|b l IH]; intros lms; cbn [foldl].
  - cbn. rewrite app_nil_r. reflexivity.
  - rewrite IH, Hstep, bind_cons, app_assoc. reflexivity.
Qed.

Lemma bind_imap_miss {A B} (f : A -> B) (l : list A) (n t : nat) :
  (forall j, n + j <> t) ->
  (imap (fun j a => (n + j, a)) l
     ≫= fun ja => if decide (ja.1 = t) then [f ja.2] else [])
  = [].
Proof.
  revert n. induction l as [|a l IH]; intros n Hn; [reflexivity|].
  rewrite imap_cons, bind_cons. cbn [fst snd].
  rewrite decide_False by apply Hn. cbn [app].
  rewrite (imap_ext _ (fun j a => (S n + j, a)))
    by (intros; cbn; f_equal; lia).
  apply IH. intros j. specialize (Hn (S j)). lia.
Qed.

Lemma bind_imap_at {A B} (f : A -> B) (l : list A) (i n : nat) :
  (imap (fun j a => (n + j, a)) l
     ≫= fun ja => if decide (ja.1 = n + i) then [f ja.2] else [])
  = option_list (f <$> l !! i).
Proof.
  revert i n. induction l as [|a l IH]; intros i n; [reflexivity|].
  rewrite imap_cons, bind_cons. cbn [fst snd].
  rewrite (imap_ext _ (fun j a => (S n + j, a)))
    by (intros; cbn; f_equal; lia).
  destruct i as [|i].
  - rewrite decide_True by lia. rewrite bind_imap_miss by (intros; lia).
    reflexivity.
  - rewrite decide_False by lia. cbn [app].
    replace (n + S i) with (S n + i) by lia. apply IH.
Qed.

Lemma obs_at_track_corners viewID markerID (corners : list (Vec2 T)) lms
    markerID' i :
  obs_at (track_corners viewID markerID corners lms)
         (GetLandmarkID markerID' (Z.of_nat i))
  = obs_at lms (GetLandmarkID markerID' (Z.of_nat i))
    ++ (if decide (markerID = markerID')
        then option_list (pair viewID <$> corners !! i) else []).
Proof.
  unfold track_corners.
  rewrite (foldl_obs_at _
             (fun ic : nat * Vec2 T =>
                if decide (GetLandmarkID markerID' (Z.of_nat i)
                           = GetLandmarkID markerID (Z.of_nat ic.1))
                then [(viewID, ic.2)] else []))
    by (intros; apply obs_at_add_observation).
  f_equal. destruct (decide (markerID = markerID')) as [->|Hne].
  - rewrite <- (bind_imap_at (pair viewID) corners i 0).
    apply list_bind_ext; [|reflexivity].
    intros [j c]. cbn [fst snd Nat.add].
    destruct (decide (j = i)) as [->|Hji].
    + rewrite decide_True by reflexivity. reflexivity.
    + rewrite decide_False; [reflexivity|].
      intros Hkey. apply GetLandmarkID_inj in Hkey. lia.
  - induction (imap pair corners) as [|ic l IH]; [reflexivity|].
    rewrite bind_cons, IH, app_nil_r. rewrite decide_False; [reflexivity|].
    intros Hkey. apply GetLandmarkID_inj in Hkey. destruct Hkey. congruence.
Qed.

Lemma foldl_obs_at_state {S B} (proj : S -> Landmarks T) (f : S -> B -> S)
    (g : B -> list (ViewID * Vec2 T)) key (l : list B) :
  (forall s b, obs_at (proj (f s b)) key = obs_at (proj s) key ++ g b) ->
  forall s, obs_at (proj (foldl f s l)) key = obs_at (proj s) key ++ (l ≫= g).
Proof.
  intros Hstep. induction l as [|b l IH]; intros s; cbn [foldl].
  - cbn. rewrite app_nil_r. reflexivity.
  - rewrite IH, Hstep, bind_cons, app_assoc. reflexivity.
Qed.

Lemma foldl_marker_ids {S B} (proj : S -> gset Z) (f : S -> B -> S)
    (g : B -> list Z) (l : list B) :
  (forall s b, proj (f s b) = list_to_set (g b) ∪ proj s) ->
  forall s, proj (foldl f s l) = list_to_set (l ≫= g) ∪ proj s.
Proof.
  intros Hstep. induction l as [|b l IH]; intros s; cbn [foldl].
  - cbn. rewrite union_empty_l_L. reflexivity.
  - rewrite IH, Hstep, bind_cons, list_to_set_app_L, (assoc_L (∪)).
    f_equal. apply (comm_L (∪)).
Qed.

Lemma bind_imap_snd {A} (h : nat -> nat) (l : list A) :
  (imap (fun j a => (h j, a)) l ≫= fun ja => [ja.2]) = l.
Proof.
  revert h. induction l as [|a l IH]; intros h; [reflexivity|].
  rewrite imap_cons, bind_cons. cbn. f_equal.
  rewrite (imap_ext _ (fun j a => ((h ∘ S) j, a))) by reflexivity.
  apply IH.
Qed.

Lemma add_observation_observed cornerID viewID (corner : Vec2 T) lms :
  observed_landmarks lms ->
  observed_landmarks (add_observation cornerID viewID corner lms).
Proof.
  intros Hobs key ldm. rewrite add_observation_lookup.
  destruct (decide (key = cornerID)) as [->|Hne]; [|apply Hobs].
  intros [= <-]. cbn.
  destruct (lms !! cornerID) as [l|] eqn:Hk; cbn.
  - destruct (Hobs _ _ Hk) as (Hid & _ & HX).
    split; [exact Hid|]. split; [|exact HX]. intros Happ.
    apply app_eq_nil in Happ. destruct Happ as [_ [=]].
  - split; [reflexivity|]. split; [discriminate|reflexivity].
Qed.

Lemma detect_landmarks_observed (views : list (ViewID * DetectionResult T)) :
  observed_landmarks (detect_landmarks views).2.
Proof.
  unfold detect_landmarks.
  apply (foldl_preserves
           (fun s : gset Z * Landmarks T => observed_landmarks s.2)).
  - intros st view _. unfold track_view.
    apply (foldl_preserves
             (fun s : gset Z * Landmarks T => observed_landmarks s.2)).
    intros s im _ Hs. cbn. unfold track_corners.
    apply foldl_preserves; [|exact Hs].
    intros m ic _. apply add_observation_observed.
  - intros key ldm. cbn. rewrite lookup_empty. discriminate.
Qed.

(** X3: the landmark store after detection: the landmark of corner [i] of a
    marker holds the observations of that corner, in the order of the
    views and without merging repeated ones; the set of marker ids is
    the set of the detected ids; and every stored landmark has an
    observation, no position, and an empty [id] field. *)
Theorem detect_landmarks_observations
    (views : list (ViewID * DetectionResult T)) (markerID : Z) (i : nat) :
  obs_at (detect_landmarks views).2 (GetLandmarkID markerID (Z.of_nat i))
  = corner_observations views markerID i
  /\ (detect_landmarks views).1
     = list_to_set (views ≫= fun view => markerIds view.2)
  /\ observed_landmarks (detect_landmarks views).2.
Proof.
  split; [|split; [|apply detect_landmarks_observed]].
  - unfold detect_landmarks, corner_observations.
    rewrite (foldl_obs_at_state snd track_view
               (fun view : ViewID * DetectionResult T =>
                  imap pair (markerIds view.2) ≫= fun im =>
                    if decide (im.2 = markerID)
                    then option_list
                           (pair view.1 <$> (markerCorners view.2 !!! im.1) !! i)
                    else [])).
    + reflexivity.
    + intros st view. unfold track_view.
      apply (foldl_obs_at_state snd). intros s im. cbn [snd].
      apply obs_at_track_corners.
  - unfold detect_landmarks.
    rewrite (foldl_marker_ids fst track_view
               (fun view : ViewID * DetectionResult T => markerIds view.2)).
    + cbn. apply union_empty_r_L.
    + intros st view. unfold track_view.
      rewrite (foldl_marker_ids fst _ (fun im : nat * Z => [im.2])).
      * rewrite (bind_imap_snd (fun j => j)). reflexivity.
      * intros s im. cbn. rewrite union_empty_r_L. reflexivity.
Qed.
End Observation_facts.

Section Count_facts.
Context {T : Type} {FT : Floating T} {LT : Libm T}.
Context {Rng : Type}.
Variable seed_rng : N -> Rng.
Variable std_sample :
  list (RansacObservation T) -> nat -> Rng -> list (RansacObservation T) * Rng.
Variable TriangulateNViewAlgebraic :
  list (Vec3 T) -> list (Mat34 T) -> bool * Vec4 T.
Variable Vec3_default : Vec3 T.
Variable sfmData : SfM_Data T.
Variable undistortImages : bool.
Variable no_ransac : bool.

Local Abbreviation triangulate_landmark' :=
  (triangulate_landmark seed_rng std_sample TriangulateNViewAlgebraic
     Vec3_default sfmData undistortImages no_ransac).
Local Abbreviation triangulate_landmarks' :=
  (triangulate_landmarks seed_rng std_sample TriangulateNViewAlgebraic
     Vec3_default sfmData undistortImages no_ransac).
Local Abbreviation landmark_after' :=
  (landmark_after seed_rng std_sample TriangulateNViewAlgebraic Vec3_default
     sfmData undistortImages no_ransac).

Lemma map_to_list_filter_Permutation {A} (P : string * A -> Prop)
    `{!forall x, Decision (P x)} (m : gmap string A) :
  map_to_list (filter P m) ≡ₚ filter P (map_to_list m).
Proof.
  apply NoDup_Permutation.
  - apply NoDup_map_to_list.
  - apply NoDup_filter, NoDup_map_to_list.
  - intros [k v]. rewrite elem_of_map_to_list, map_lookup_filter_Some,
      list_elem_of_filter, elem_of_map_to_list. tauto.
Qed.

Lemma triangulate_landmark_count (g : Rng) st entry :
  no_positions (<[entry.1 := entry.2]> ∅ : Landmarks T) ->
  numTriangulated (triangulate_landmark' st entry)
  = numTriangulated st
    + (if decide (is_Some (ldm_X (landmark_after' g entry.2))) then 1 else 0).
Proof.
  intros Hno. assert (HX : ldm_X entry.2 = None).
  { apply (Hno entry.1). apply lookup_insert_eq. }
  unfold triangulate_landmark, landmark_after, triangulated.
  rewrite (triangulate_observations_rng _ _ _ _ _ _ g (pass_rng st)).
  destruct (length (ldm_obs entry.2) <? 3); cbn.
  - rewrite HX. rewrite decide_False by (intros [? [=]]). lia.
  - destruct (triangulate_observations _ _ _ _ _ _ (pass_rng st))
      as [[ok X] g'].
    destruct ok; cbn.
    + rewrite decide_True by (eexists; reflexivity). reflexivity.
    + rewrite HX. rewrite decide_False by (intros [? [=]]). lia.
Qed.

Lemma foldl_triangulate_landmark_count (g : Rng)
    (l : list (string * Landmark T)) :
  (forall e, e ∈ l -> ldm_X e.2 = None) ->
  forall st,
    numTriangulated (foldl triangulate_landmark' st l)
    = numTriangulated st
      + length (filter (fun e => is_Some (ldm_X (landmark_after' g e.2))) l).
Proof.
  induction l as [|e l IH]; intros Hno st; cbn [foldl].
  - cbn. lia.
  - rewrite IH by (intros e' He'; apply Hno; right; exact He').
    rewrite (triangulate_landmark_count g).
    + rewrite filter_cons. case_decide; cbn; lia.
    + intros k ldm. destruct (decide (k = e.1)) as [->|Hne].
      * rewrite lookup_insert_eq. intros [= <-]. apply Hno. left.
      * rewrite lookup_insert_ne, lookup_empty by congruence. discriminate.
Qed.

(** X4: the counter of the triangulation pass is the number of landmarks that
    have a position when the pass ends: [main] reports and tests
    ([numTriangulated < 2]) the number of positions in the store. *)
Theorem numTriangulated_counts_positions
    (views : list (ViewID * DetectionResult T)) (g : Rng) :
  let st := triangulate_landmarks' (detect_landmarks views).2 g in
  numTriangulated st
  = size (filter (fun kv : string * Landmark T => is_Some (ldm_X kv.2))
                 (landmarks st)).
Proof.
  intros st. subst st. set (lms := (detect_landmarks views).2).
  rewrite (triangulate_landmarks_fmap _ _ _ _ _ _ _ lms g g).
  unfold triangulate_landmarks.
  rewrite (foldl_triangulate_landmark_count g).
  - cbn [numTriangulated]. rewrite Nat.add_0_l.
    rewrite map_filter_fmap, map_size_fmap.
    rewrite <- length_map_to_list.
    rewrite map_to_list_filter_Permutation.
    unfold landmark_entries. rewrite merge_sort_Permutation.
    f_equal. apply list_filter_iff. intros [k v]. reflexivity.
  - intros e He. apply landmark_entries_elem_of in He.
    exact (detect_landmarks_no_positions views _ _ He).
Qed.
End Count_facts.

(** ** Triangulation and RANSAC together *)

Section Triangulation_composition.
Context {T : Type} {FT : Floating T}.
Variable TriangulateNViewAlgebraic :
  list (Vec3 T) -> list (Mat34 T) -> bool * Vec4 T.
Variable Vec3_default : Vec3 T.

Local Abbreviation Triangulate' :=
  (Triangulate TriangulateNViewAlgebraic Vec3_default).

Lemma Triangulate_success (x : list (RansacObservation T)) (X : Vec3 T) :
  Triangulate' x = (true, X) ->
  X = hnormalized
        (TriangulateNViewAlgebraic (map ro_pt x)
           (map (fun ro => asMatrix (ro_pose ro)) x)).2
  /\ vec3_hasNaN X = false
  /\ forallb (fun ro => chirality ro X) x = true.
Proof.
  unfold Triangulate.
  destruct (TriangulateNViewAlgebraic _ _) as [solved Xh].
  destruct solved; cbn; [|discriminate].
  destruct (vec3_hasNaN (hnormalized Xh)) eqn:Hnan; [discriminate|].
  destruct (forallb _ x) eqn:Hall; [|discriminate].
  intros [= <-]. auto.
Qed.

Lemma EvalTriangulate_inliers (x : list (RansacObservation T)) (X : Vec3 T) :
  inliers (EvalTriangulate x X)
  = if forallb (fun ro => chirality ro X) x
    then List.filter (fun ro => s_lt (reprojection_error ro X) threshold) x
    else [].
Proof.
  unfold EvalTriangulate. rewrite EvalTriangulate_loop_spec.
  destruct (forallb _ x); [|reflexivity].
  cbn [inliers success error app].
  match goal with |- context [0 <? ?n] => destruct (0 <? n) end; reflexivity.
Qed.

Lemma EvalTriangulate_success (x : list (RansacObservation T)) (X : Vec3 T) :
  success (EvalTriangulate x X) = forallb (fun ro => chirality ro X) x.
Proof.
  unfold EvalTriangulate. rewrite EvalTriangulate_loop_spec.
  destruct (forallb _ x); [|reflexivity].
  cbn [inliers success error app].
  match goal with |- context [0 <? ?n] => destruct (0 <? n) end; reflexivity.
Qed.

(** X5: a point that [Triangulate] returns for a list of observations passes
    the chirality gate of [EvalTriangulate] on that list: the evaluation
    succeeds, and its inliers are the observations with a reprojection
    error below the threshold. *)
Theorem Triangulate_then_EvalTriangulate
    (x : list (RansacObservation T)) (X : Vec3 T) :
  Triangulate' x = (true, X) ->
  success (EvalTriangulate x X) = true
  /\ inliers (EvalTriangulate x X)
     = List.filter (fun ro => s_lt (reprojection_error ro X) threshold) x.
Proof.
  intros Htri. apply Triangulate_success in Htri.
  destruct Htri as (_ & _ & Hall).
  rewrite EvalTriangulate_success, EvalTriangulate_inliers, Hall. auto.
Qed.
End Triangulation_composition.

Lemma Triangulate_then_EvalTriangulate_witness :
  Triangulate point_solver (mkVec3 0 0 0)%float seen_point
  = (true, mkVec3 0 0 5)%float
  /\ success (EvalTriangulate seen_point (mkVec3 0 0 5)%float) = true
  /\ length (inliers (EvalTriangulate seen_point (mkVec3 0 0 5)%float)) = 3.
Proof.
  assert (H : Triangulate point_solver (mkVec3 0 0 0)%float seen_point
              = (true, mkVec3 0 0 5)%float) by (vm_compute; reflexivity).
  split; [exact H|].
  destruct (Triangulate_then_EvalTriangulate point_solver
              (mkVec3 0 0 0)%float seen_point (mkVec3 0 0 5)%float H)
    as [Hs Hi].
  split; [exact Hs|]. rewrite Hi. vm_compute. reflexivity.
Defined.

Section RANSAC_provenance_facts.
Context {T : Type} {FT : Floating T} {LT : Libm T}.
Context {Value Model Rng : Type}.
Variable seed_rng : N -> Rng.
Variable std_sample : list Value -> nat -> Rng -> list Value * Rng.
Variable default_model : Model.
Variable fit : list Value -> bool * Model.
Variable eval : list Value -> Model -> RANSACResult Value T.
Variable x : list Value.
Variables nSamples nIters : nat.
Variable probability : T.

Local Abbreviation iteration' :=
  (iteration std_sample fit eval x nSamples nIters probability).
Local Abbreviation best_from_sample' :=
  (best_from_sample (Rng := Rng) default_model fit eval x nSamples).

Hypothesis Hsample : sample_spec std_sample.

Lemma iteration_best_from_sample i st :
  best_from_sample' st -> best_from_sample' (flow_state (iteration' i st)).
Proof using Hsample.
  intros Hst. unfold iteration.
  destruct (breakIter st <? i); [exact Hst|].
  destruct (Hsample x nSamples (rng st)) as [Hsub Hlen].
  destruct (std_sample x nSamples (rng st)) as [samples g]. cbn in Hsub, Hlen.
  destruct (fit samples) as [ok model] eqn:Hfit.
  destruct ok; cbn; [|exact Hst].
  destruct (success (eval x model)) eqn:He; cbn; [|exact Hst].
  destruct (improved (eval x model) (bestResult st)); [|exact Hst].
  destruct (s_lt (fitness (eval x model)) s_one); cbn; right;
    exists samples; cbn; auto.
Qed.

Lemma iterate_best_from_sample remaining i st :
  best_from_sample' st ->
  best_from_sample'
    (iterate std_sample fit eval x nSamples nIters probability remaining i st).
Proof using Hsample.
  revert i st. induction remaining as [|k IH]; intros i st Hst; cbn.
  - exact Hst.
  - pose proof (iteration_best_from_sample i st Hst) as Hstep.
    destruct (iteration' i st) as [st'|st']; cbn in Hstep.
    + apply IH. exact Hstep.
    + exact Hstep.
Qed.

Lemma iterate_fit_fails remaining i st :
  (forall samples, (fit samples).1 = false) ->
  bestModel
    (iterate std_sample fit eval x nSamples nIters probability remaining i st)
  = bestModel st
  /\ bestResult
       (iterate std_sample fit eval x nSamples nIters probability remaining i st)
     = bestResult st.
Proof.
  intros Hfail. revert i st. induction remaining as [|k IH]; intros i st; cbn.
  - auto.
  - unfold iteration. destruct (breakIter st <? i); [auto|].
    destruct (std_sample x nSamples (rng st)) as [samples g].
    specialize (Hfail samples). destruct (fit samples) as [ok model].
    cbn in Hfail. subst ok. cbn. destruct (IH (S i)
      (mkLoop (bestResult st) (bestModel st) (breakIter st) g)) as [H1 H2].
    rewrite H1, H2. auto.
Qed.

(** X6: the model the loop ends with is never made up: it is the
    default-constructed model with the default result when no candidate
    was accepted (as when [nIters] is 0 or [fit] fails on every sample),
    and otherwise the fit of a sample of [min(nSamples, size)] elements of
    the data, in their order, whose evaluation succeeded and is the best
    result. *)
Theorem RANSAC_best_model_from_sample (seed : option N) (g : Rng) :
  let st := run_loop seed_rng std_sample default_model fit eval x nSamples
                     nIters seed probability g in
  best_from_sample' st
  /\ (nIters = 0 \/ (forall samples, (fit samples).1 = false) ->
      bestModel st = default_model /\ bestResult st = RANSACResult_default).
Proof using Hsample.
  intros st. subst st. unfold run_loop. split.
  - apply iterate_best_from_sample. left. auto.
  - intros [-> | Hfail]; [cbn; auto|].
    apply (iterate_fit_fails nIters 0
             (initial_state default_model nIters _) Hfail).
Qed.
End RANSAC_provenance_facts.

Lemma first_sample_spec : sample_spec first_sample.
Proof.
  intros x n g. cbn. split; [apply sublist_take|apply length_take].
Qed.

Lemma RANSAC_best_model_from_sample_witness :
  sample_spec first_sample
  /\ best_from_sample (T := float) 0%Z line_fit line_eval line_data 3
       (run_loop (LT := libm_series) (fun _ => tt) first_sample 0%Z line_fit
                 line_eval line_data 3 1000 (Some 0%N) default_probability
                 tt).
Proof.
  split; [exact first_sample_spec|].
  exact (proj1 (RANSAC_best_model_from_sample (LT := libm_series)
                  (fun _ => tt) first_sample 0%Z
                  line_fit (line_eval (T := float)) line_data 3 1000
                  default_probability first_sample_spec (Some 0%N) tt)).
Defined.

Section TriangulateRansac_facts.
Context {T : Type} {FT : Floating T} {LT : Libm T}.
Context {Rng : Type}.
Variable seed_rng : N -> Rng.
Variable std_sample :
  list (RansacObservation T) -> nat -> Rng -> list (RansacObservation T) * Rng.
Variable TriangulateNViewAlgebraic :
  list (Vec3 T) -> list (Mat34 T) -> bool * Vec4 T.
Variable Vec3_default : Vec3 T.

(** X7: what a successful [TriangulateRansac] guarantees about the position it
    returns: it is the triangulation of the inliers of the best model of
    the loop, it has no NaN coordinate, and it passes the chirality test
    of those inliers, which are observations of the landmark within the
    threshold of the best model.  Nothing is checked against the
    observations outside the inliers, nor against the threshold for the
    returned position. *)
Theorem TriangulateRansac_success
    (x : list (RansacObservation T)) (g g' : Rng) (X : Vec3 T) :
  TriangulateRansac seed_rng std_sample TriangulateNViewAlgebraic Vec3_default
                    x g = ((true, X), g') ->
  let best :=
    bestModel
      (run_loop seed_rng std_sample Vec3_default
                (Triangulate TriangulateNViewAlgebraic Vec3_default)
                EvalTriangulate x 2 1000 (Some 0%N) default_probability g) in
  let kept := inliers (EvalTriangulate x best) in
  Triangulate TriangulateNViewAlgebraic Vec3_default kept = (true, X)
  /\ vec3_hasNaN X = false
  /\ (forall ro, ro ∈ kept -> chirality ro X = true)
  /\ (forall ro, ro ∈ kept ->
        ro ∈ x /\ chirality ro best = true
        /\ s_lt (reprojection_error ro best) threshold = true).
Proof.
  intros Hrun best kept. unfold TriangulateRansac, RANSAC in Hrun.
  fold best in Hrun. fold kept in Hrun.
  destruct (Triangulate TriangulateNViewAlgebraic Vec3_default kept)
    as [ok X'] eqn:Htri.
  cbn in Hrun. injection Hrun as -> -> _.
  destruct (Triangulate_success _ _ _ _ Htri) as (_ & Hnan & Hall).
  split; [reflexivity|]. split; [exact Hnan|]. split.
  - intros ro Hro. rewrite forallb_forall in Hall. apply Hall.
    apply list_elem_of_In. exact Hro.
  - intros ro Hro. subst kept. rewrite EvalTriangulate_inliers in Hro.
    destruct (forallb (fun ro0 => chirality ro0 best) x) eqn:Hbest;
      [|inversion Hro].
    apply list_elem_of_In, filter_In in Hro. destruct Hro as [Hin Hthr].
    split; [apply list_elem_of_In; exact Hin|]. split; [|exact Hthr].
    rewrite forallb_forall in Hbest. apply Hbest. exact Hin.
Qed.
End TriangulateRansac_facts.

Lemma TriangulateRansac_success_witness :
  let run :=
    TriangulateRansac (LT := libm_unused) (fun _ => tt)
                      (fun x n g => (take n x, g)) point_solver
                      (mkVec3 0 0 0)%float seen_point tt in
  run = ((true, mkVec3 0 0 5)%float, tt)
  /\ Triangulate point_solver (mkVec3 0 0 0)%float seen_point
     = (true, mkVec3 0 0 5)%float.
Proof.
  intros run.
  assert (Hrun : run = ((true, mkVec3 0 0 5)%float, tt))
    by (vm_compute; reflexivity).
  split; [exact Hrun|].
  destruct (TriangulateRansac_success (LT := libm_unused) (fun _ => tt)
              (fun x n g => (take n x, g)) point_solver (mkVec3 0 0 0)%float
              seen_point tt tt (mkVec3 0 0 5)%float Hrun) as [Htri _].
  rewrite <- Htri. vm_compute. reflexivity.
Defined.

(** ** Scaling and writing the landmarks *)

Section Output_facts.
Context {T : Type} {FT : Floating T}.
Variable show : T -> string.

Lemma foldl_WriteOBJ (l : list (string * Landmark T)) (file : list string) :
  foldl (fun file entry =>
           match ldm_X entry.2 with
           | Some pt => file ++ ["v " +:+ coordinates show pt]
           | None => file
           end) file l
  = file ++ map (fun pt => "v " +:+ coordinates show pt)
                (omap (fun entry => ldm_X entry.2) l).
Proof.
  revert file. induction l as [|e l IH]; intros file; cbn.
  - rewrite app_nil_r. reflexivity.
  - rewrite IH. destruct (ldm_X e.2); cbn; [|reflexivity].
    rewrite <- app_assoc. reflexivity.
Qed.

Lemma foldl_WritePLY (l : list (string * Landmark T)) (st : nat * list string) :
  foldl (fun st entry =>
           match ldm_X entry.2 with
           | Some pt =>
               (st.1 + 1, st.2 ++ [coordinates show pt +:+ " 255 255 0"])
           | None => st
           end) st l
  = (st.1 + length (omap (fun entry => ldm_X entry.2) l),
     st.2 ++ map (fun pt => coordinates show pt +:+ " 255 255 0")
                 (omap (fun entry => ldm_X entry.2) l)).
Proof.
  revert st. induction l as [|e l IH]; intros [n ss]; cbn.
  - rewrite app_nil_r, Nat.add_0_r. reflexivity.
  - rewrite IH. destruct (ldm_X e.2); cbn; [|reflexivity].
    rewrite <- app_assoc. f_equal. lia.
Qed.

Lemma omap_length_filter {A B} (f : A -> option B) (l : list A) :
  length (omap f l) = length (filter (fun a => is_Some (f a)) l).
Proof.
  induction l as [|a l IH]; [reflexivity|].
  rewrite filter_cons. cbn [omap list_omap].
  destruct (f a) as [b|] eqn:Hf.
  - rewrite decide_True by (eexists; reflexivity). cbn. rewrite IH.
    reflexivity.
  - rewrite decide_False by (intros [? [=]]). exact IH.
Qed.

Lemma written_positions_length (ldms : Landmarks T) :
  length (written_positions ldms)
  = size (filter (fun kv : string * Landmark T => is_Some (ldm_X kv.2)) ldms).
Proof.
  unfold written_positions, landmark_entries.
  rewrite <- length_map_to_list, map_to_list_filter_Permutation.
  rewrite omap_length_filter, merge_sort_Permutation. reflexivity.
Qed.

Lemma omap_nil_iff {A B} (f : A -> option B) (l : list A) :
  omap f l = [] <-> forall a, a ∈ l -> f a = None.
Proof.
  induction l as [|a l IH]; cbn.
  - split; [|reflexivity]. intros _ a Ha. inversion Ha.
  - destruct (f a) as [b|] eqn:Hf.
    + split; [discriminate|]. intros H.
      specialize (H a (list_elem_of_here _ _)). congruence.
    + rewrite IH. split.
      * intros H a' Ha'. apply elem_of_cons in Ha' as [->|Ha']; auto.
      * intros H a' Ha'. apply H. right. exact Ha'.
Qed.

Lemma written_positions_nil (ldms : Landmarks T) :
  written_positions ldms = [] <-> no_positions ldms.
Proof.
  unfold written_positions. rewrite omap_nil_iff. unfold no_positions.
  split.
  - intros H key ldm Hk. apply (H (key, ldm)).
    apply landmark_entries_elem_of. exact Hk.
  - intros H [key ldm] Hin. apply landmark_entries_elem_of in Hin.
    exact (H key ldm Hin).
Qed.

(** X8: the PLY file that [WritePLY] writes is consistent: the vertex count of
    its header is the number of vertex lines after [end_header], one for
    each landmark with a position, in key order; landmarks without a
    position are left out.  [WriteOBJ] writes the same positions in the
    same order.  When no landmark has a position, and only then,
    [WritePLY] ends with the fail bit set, so it throws after the header
    with [element vertex 0] is written; [WriteOBJ] then writes an empty
    file and returns. *)
Theorem WritePLY_vertex_count (ldms : Landmarks T) :
  let positions := written_positions ldms in
  file_lines (WritePLY show ldms)
  = ["ply"; "format ascii 1.0";
     "element vertex " +:+ pretty (length positions);
     "property float x"; "property float y"; "property float z";
     "property uchar red"; "property uchar green"; "property uchar blue";
     "end_header"]
    ++ map (fun pt => coordinates show pt +:+ " 255 255 0") positions
  /\ file_lines (WriteOBJ show ldms)
     = map (fun pt => "v " +:+ coordinates show pt) positions
  /\ length positions
     = size (filter (fun kv : string * Landmark T => is_Some (ldm_X kv.2))
                    ldms)
  /\ (file_fail (WritePLY show ldms) = true <-> no_positions ldms)
  /\ file_fail (WriteOBJ show ldms) = false.
Proof.
  intros positions.
  assert (Hv : WritePLY_vertices show ldms
               = (length positions,
                  map (fun pt => coordinates show pt +:+ " 255 255 0")
                      positions)).
  { unfold WritePLY_vertices. rewrite foldl_WritePLY. reflexivity. }
  split; [|split; [|split; [|split]]].
  - unfold WritePLY. rewrite Hv. reflexivity.
  - unfold WriteOBJ. cbn [file_lines]. rewrite foldl_WriteOBJ. reflexivity.
  - apply written_positions_length.
  - unfold WritePLY. rewrite Hv. cbn [file_fail].
    rewrite <- written_positions_nil. fold positions.
    destruct positions; cbn; split; congruence.
  - reflexivity.
Qed.
End Output_facts.

Lemma sqrt_scaled (s a b c : R) :
  (0 < s)%R ->
  sqrt (a * s * (a * s) + (b * s * (b * s) + c * s * (c * s)))
  = (sqrt (a * a + (b * b + c * c)) * s)%R.
Proof.
  intros Hs.
  replace (a * s * (a * s) + (b * s * (b * s) + c * s * (c * s)))%R
    with ((a * a + (b * b + c * c)) * (s * s))%R by ring.
  rewrite sqrt_mult_alt by nra.
  rewrite sqrt_square by lra. reflexivity.
Qed.

Lemma xreal_norm_scaled (s : R) (c0 c1 : Vec3 xreal) :
  (0 < s)%R ->
  vec3_norm (vec3_sub (vec3_times c1 (XFin s)) (vec3_times c0 (XFin s)))
  = s_mul (vec3_norm (vec3_sub c1 c0)) (XFin s).
Proof.
  intros Hs. destruct c0 as [[x0|] [y0|] [z0|]], c1 as [[x1|] [y1|] [z1|]];
    try reflexivity.
  unfold vec3_norm, vec3_dot, vec3_sub, vec3_times, sum3. cbn.
  f_equal. rewrite <- (sqrt_scaled s _ _ _ Hs). f_equal. ring.
Qed.

Lemma xreal_div_scaled (s : R) (m d : xreal) :
  s_div m (s_mul d (XFin s)) = s_div (s_div m d) (XFin s).
Proof.
  destruct m as [m|], d as [d|]; cbn; try reflexivity; f_equal.
  - unfold Rdiv. rewrite Rinv_mult. ring.
  - unfold Rdiv. ring.
Qed.

Lemma corner_position_ScaleLandmarks {T} {FT : Floating T}
    (lms : Landmarks T) (k : T) id i :
  corner_position (ScaleLandmarks lms k) id i
  = (fun X => vec3_times X k) <$> corner_position lms id i.
Proof.
  unfold corner_position, ScaleLandmarks. rewrite lookup_fmap.
  destruct (lms !! GetLandmarkID id (Z.of_nat i)) as [ldm|]; reflexivity.
Qed.

Lemma edge_sample_ScaleLandmarks (s : R) (m : xreal) lms id e :
  (0 < s)%R ->
  edge_sample m (ScaleLandmarks lms (XFin s)) id e
  = (fun r => s_div r (XFin s)) <$> edge_sample m lms id e.
Proof.
  intros Hs. unfold edge_sample.
  rewrite !corner_position_ScaleLandmarks.
  destruct (corner_position lms id e.1) as [c0|]; [|reflexivity].
  destruct (corner_position lms id e.2) as [c1|]; [|reflexivity].
  cbn -[vec3_norm vec3_sub vec3_times s_div s_mul].
  rewrite xreal_norm_scaled by exact Hs.
  rewrite xreal_div_scaled. reflexivity.
Qed.

Lemma bind_map_ext {A B} (g : B -> B) (f f' : A -> list B) (l : list A) :
  (forall a, f' a = map g (f a)) -> l ≫= f' = map g (l ≫= f).
Proof.
  intros H. induction l as [|a l IH]; [reflexivity|].
  rewrite !bind_cons, map_app, IH, H. reflexivity.
Qed.

Lemma omap_fmap_ext {A B} (g : B -> B) (f f' : A -> option B) (l : list A) :
  (forall a, f' a = g <$> f a) -> omap f' l = map g (omap f l).
Proof.
  intros H. induction l as [|a l IH]; [reflexivity|].
  cbn [omap list_omap]. rewrite H, IH.
  destruct (f a); reflexivity.
Qed.

Lemma expected_scales_ScaleLandmarks (s : R) (m : xreal) ids lms :
  (0 < s)%R ->
  expected_scales m ids (ScaleLandmarks lms (XFin s))
  = map (fun r => s_div r (XFin s)) (expected_scales m ids lms).
Proof.
  intros Hs. unfold expected_scales.
  apply bind_map_ext. intros id. apply omap_fmap_ext. intros e.
  apply edge_sample_ScaleLandmarks. exact Hs.
Qed.

Lemma foldl_mean_scaled (s n : xreal) (l : list xreal) (a : xreal) :
  (exists r, s = XFin r) -> (exists r, n = XFin r) ->
  foldl (fun a b => s_add a (s_div b n)) (s_div a s)
        (map (fun r => s_div r s) l)
  = s_div (foldl (fun a b => s_add a (s_div b n)) a l) s.
Proof.
  intros [s' ->] [n' ->]. revert a.
  induction l as [|b l IH]; intros a; [reflexivity|].
  cbn [map foldl]. rewrite <- IH. f_equal.
  destruct a as [a|], b as [b|]; cbn; try reflexivity.
  f_equal. unfold Rdiv. ring.
Qed.

(** X9: in exact arithmetic, scaling the landmarks by a positive factor [s]
    divides every scale sample that the measurement takes, and with them
    the estimated scale, by [s].  So after [ScaleLandmarks] with the
    estimated scale the same measurement gives the scale 1. *)
Theorem ScaleLandmarks_divides_scale (s : R) (markerSize : xreal)
    (markerIDs : gset Z) (lms : Landmarks xreal) :
  (0 < s)%R ->
  let scales := (measure_landmarks markerSize markerIDs lms).2 in
  let scales' :=
    (measure_landmarks markerSize markerIDs
                       (ScaleLandmarks lms (XFin s))).2 in
  scales' = map (fun r => s_div r (XFin s)) scales
  /\ accumulate_scale scales' = s_div (accumulate_scale scales) (XFin s)
  /\ (accumulate_scale scales = XFin s -> accumulate_scale scales' = XFin 1).
Proof.
  intros Hs scales scales'.
  assert (H1 : scales' = map (fun r => s_div r (XFin s)) scales).
  { subst scales scales'. rewrite !measure_landmarks_scales.
    apply expected_scales_ScaleLandmarks. exact Hs. }
  assert (H2 : accumulate_scale scales'
               = s_div (accumulate_scale scales) (XFin s)).
  { rewrite H1. unfold accumulate_scale. rewrite length_map.
    rewrite <- foldl_mean_scaled by (eexists; reflexivity).
    f_equal. cbn. f_equal. unfold Rdiv. ring. }
  split; [exact H1|]. split; [exact H2|].
  intros Hmean. rewrite H2, Hmean. cbn. f_equal.
  unfold Rdiv. apply Rinv_r. lra.
Qed.

Lemma ScaleLandmarks_divides_scale_witness :
  (0 < 2)%R
  /\ (measure_landmarks (XFin 2) {[ 7%Z ]}
                        (ScaleLandmarks two_corners (XFin 2))).2
     = map (fun r => s_div r (XFin 2))
           (measure_landmarks (XFin 2) {[ 7%Z ]} two_corners).2.
Proof.
  assert (H : (0 < 2)%R) by lra.
  split; [exact H|].
  exact (proj1 (ScaleLandmarks_divides_scale 2 (XFin 2) {[ 7%Z ]}
                                             two_corners H)).
Defined.

(** ** The PLY scaler *)

Ltac testbits :=
  repeat first
    [ rewrite Z.lor_spec | rewrite Z.land_spec
    | rewrite Z.shiftr_spec by lia | rewrite Z.shiftl_spec by lia
    | rewrite Z.testbit_mod_pow2 by lia | rewrite Z.testbit_ones by lia ];
  repeat match goal with
         | |- context [(?a <? ?b)%Z] => destruct (Z.ltb_spec a b); try lia
         | |- context [(?a <=? ?b)%Z] => destruct (Z.leb_spec a b); try lia
         end;
  cbn [andb orb];
  rewrite ?andb_true_r, ?andb_false_r, ?orb_false_r, ?orb_false_l.

Lemma swap32_testbit (v n : Z) :
  (0 <= n)%Z ->
  Z.testbit (swap32 v) n
  = if (n <? 8)%Z then Z.testbit v (n + 24)
    else if (n <? 16)%Z then Z.testbit v (n + 8)
    else if (n <? 24)%Z then Z.testbit v (n - 8)
    else if (n <? 32)%Z then Z.testbit v (n - 24)
    else false.
Proof.
  intros Hn. unfold swap32.
  change 0x000000FF%Z with (Z.ones 8).
  change 0x0000FF00%Z with (Z.shiftl (Z.ones 8) 8).
  change 0x00FF0000%Z with (Z.shiftl (Z.ones 8) 16).
  change 0xFF000000%Z with (Z.shiftl (Z.ones 8) 24).
  testbits; reflexivity.
Qed.

Lemma swap32_byte (v k : Z) :
  (0 <= k < 4)%Z ->
  (Z.shiftr (swap32 v) (8 * k) mod 256 = Z.shiftr v (8 * (3 - k)) mod 256)%Z.
Proof.
  intros Hk. change 256%Z with (2 ^ 8)%Z.
  apply Z.bits_inj'. intros n Hn.
  rewrite !Z.testbit_mod_pow2 by lia.
  destruct (Z.ltb_spec n 8); [|reflexivity]. cbn [andb].
  rewrite !Z.shiftr_spec by lia. rewrite swap32_testbit by lia.
  assert (k = 0 \/ k = 1 \/ k = 2 \/ k = 3)%Z as [->|[->|[->| ->]]] by lia;
    testbits; f_equal; lia.
Qed.

Lemma swap32_range (v : Z) : (0 <= swap32 v < 2 ^ 32)%Z.
Proof.
  assert (H : swap32 v = (swap32 v mod 2 ^ 32)%Z).
  { apply Z.bits_inj'. intros n Hn.
    rewrite Z.testbit_mod_pow2 by lia. rewrite swap32_testbit by lia.
    testbits; reflexivity. }
  rewrite H. apply Z.mod_pos_bound. lia.
Qed.

Lemma swap32_swap32 (v : Z) : swap32 (swap32 v) = (v mod 2 ^ 32)%Z.
Proof.
  apply Z.bits_inj'. intros n Hn.
  rewrite Z.testbit_mod_pow2 by lia. rewrite swap32_testbit by lia.
  destruct (Z.ltb_spec n 8).
  { rewrite swap32_testbit by lia. testbits; f_equal; lia. }
  destruct (Z.ltb_spec n 16).
  { rewrite swap32_testbit by lia. testbits; f_equal; lia. }
  destruct (Z.ltb_spec n 24).
  { rewrite swap32_testbit by lia. testbits; f_equal; lia. }
  destruct (Z.ltb_spec n 32).
  { rewrite swap32_testbit by lia. testbits; f_equal; lia. }
  testbits; reflexivity.
Qed.

(** X10: [swap32] reverses the four bytes of its argument: the result is
    a 32-bit value whose bytes, lowest first, are those of the argument,
    highest first; so swapping twice gives the argument back, and nothing
    above bit 31 of the argument is looked at. *)
Theorem swap32_reverses_bytes (v : Z) :
  bytes_of_uint32 (swap32 v) = rev (bytes_of_uint32 v)
  /\ (0 <= swap32 v < 2 ^ 32)%Z
  /\ swap32 (swap32 v) = (v mod 2 ^ 32)%Z.
Proof.
  split; [|split].
  - unfold bytes_of_uint32. cbn [map rev app].
    rewrite !(swap32_byte v) by lia. reflexivity.
  - apply swap32_range.
  - apply swap32_swap32.
Qed.

Lemma sizeOfType_sizes t sz : sizeOfType t = Some sz -> sz ∈ [1; 2; 4; 8].
Proof.
  unfold sizeOfType. intros H.
  repeat match type of H with
         | (if ?c then _ else _) = _ => destruct c
         end; simplify_eq; rewrite !elem_of_cons; auto 10.
Qed.

Lemma record_layout_snoc start props stop n sz :
  record_layout start props stop -> sz ∈ [1; 2; 4; 8] ->
  record_layout start (props ++ [mkProperty n sz stop]) (stop + sz).
Proof.
  revert start. induction props as [|p props IH]; intros start; cbn.
  - intros <- Hsz. auto.
  - intros (Ho & Hs & Hl) Hsz. auto.
Qed.

Lemma record_layout_inside start props stop p :
  record_layout start props stop -> p ∈ props ->
  start <= prop_offset p /\ prop_offset p + prop_size p <= stop.
Proof.
  revert start. induction props as [|q props IH]; intros start; cbn.
  - intros _ Hp. inversion Hp.
  - intros (Ho & Hs & Hl) Hp.
    assert (Hstop : start + prop_size q <= stop).
    { clear -Hl. revert Hl. generalize (start + prop_size q).
      induction props as [|r props IH]; intros n; cbn; [lia|].
      intros (_ & _ & Hl). apply IH in Hl. lia. }
    apply elem_of_cons in Hp as [->|Hp]; [lia|].
    apply (IH _ Hl) in Hp. lia.
Qed.

Lemma property_named_Some h n p :
  property_named h n = Some p -> p ∈ vertexProps h /\ prop_name p = n.
Proof.
  unfold property_named. intros H. apply find_some in H as [Hin Hn].
  split; [apply list_elem_of_In; exact Hin|]. apply String.eqb_eq. exact Hn.
Qed.

Lemma findOffset_Some h n off :
  findOffset (vertexProps h) n = Some off ->
  exists p, property_named h n = Some p /\ prop_offset p = off.
Proof.
  unfold findOffset, property_named.
  destruct (find _ _) as [p|]; [|discriminate].
  intros [= <-]. eauto.
Qed.

Lemma bytes_of_uint32_length v : length (bytes_of_uint32 v) = 4.
Proof. reflexivity. Qed.

Lemma uint32_of_bytes_range (b0 b1 b2 b3 : ascii) :
  (0 <= uint32_of_bytes [b0; b1; b2; b3] < 2 ^ 32)%Z.
Proof.
  cbn [uint32_of_bytes foldr].
  pose proof (nat_ascii_bounded b0). pose proof (nat_ascii_bounded b1).
  pose proof (nat_ascii_bounded b2). pose proof (nat_ascii_bounded b3).
  lia.
Qed.

Lemma bytes_of_uint32_of_bytes (b0 b1 b2 b3 : ascii) :
  bytes_of_uint32 (uint32_of_bytes [b0; b1; b2; b3]) = [b0; b1; b2; b3].
Proof.
  unfold bytes_of_uint32. cbn [uint32_of_bytes foldr map].
  pose proof (nat_ascii_bounded b0). pose proof (nat_ascii_bounded b1).
  pose proof (nat_ascii_bounded b2). pose proof (nat_ascii_bounded b3).
  rewrite !Z.shiftr_div_pow2 by lia.
  change (2 ^ (8 * 0))%Z with 1%Z. change (2 ^ (8 * 1))%Z with 256%Z.
  change (2 ^ (8 * 2))%Z with 65536%Z.
  change (2 ^ (8 * 3))%Z with 16777216%Z.
  set (z0 := Z.of_nat (nat_of_ascii b0)).
  set (z1 := Z.of_nat (nat_of_ascii b1)).
  set (z2 := Z.of_nat (nat_of_ascii b2)).
  set (z3 := Z.of_nat (nat_of_ascii b3)).
  replace ((z0 + 256 * (z1 + 256 * (z2 + 256 * (z3 + 256 * 0)))) / 1 mod 256)%Z
    with z0 by (Z.div_mod_to_equations; lia).
  replace ((z0 + 256 * (z1 + 256 * (z2 + 256 * (z3 + 256 * 0)))) / 256 mod 256)%Z
    with z1 by (Z.div_mod_to_equations; lia).
  replace ((z0 + 256 * (z1 + 256 * (z2 + 256 * (z3 + 256 * 0)))) / 65536
             mod 256)%Z
    with z2 by (Z.div_mod_to_equations; lia).
  replace ((z0 + 256 * (z1 + 256 * (z2 + 256 * (z3 + 256 * 0)))) / 16777216
             mod 256)%Z
    with z3 by (Z.div_mod_to_equations; lia).
  subst z0 z1 z2 z3. rewrite !Nat2Z.id, !ascii_nat_embedding. reflexivity.
Qed.

Lemma four_bytes (l : list ascii) :
  length l = 4 -> exists b0 b1 b2 b3, l = [b0; b1; b2; b3].
Proof.
  destruct l as [|b0 [|b1 [|b2 [|b3 [|b4 l]]]]]; try discriminate.
  intros _. eauto.
Qed.

Lemma record_window (off : nat) (rec : list ascii) :
  off + 4 <= length rec ->
  rec = take off rec ++ take 4 (drop off rec) ++ drop (off + 4) rec
  /\ length (take 4 (drop off rec)) = 4.
Proof.
  intros H. split.
  - rewrite <- (take_drop off rec) at 1. f_equal.
    rewrite <- (take_drop 4 (drop off rec)) at 1. f_equal.
    rewrite drop_drop. reflexivity.
  - rewrite length_take, length_drop. lia.
Qed.

Lemma lookup_app_middle {A} (l1 m m' l2 : list A) (i : nat) :
  length m = length m' ->
  ~ length l1 <= i < length l1 + length m ->
  (l1 ++ m ++ l2) !! i = (l1 ++ m' ++ l2) !! i.
Proof.
  intros Hlen Hi. destruct (decide (i < length l1)) as [Hlt|Hge].
  - rewrite !lookup_app_l by lia. reflexivity.
  - rewrite !(lookup_app_r l1) by lia.
    rewrite !lookup_app_r by lia. rewrite Hlen. reflexivity.
Qed.

Lemma getlines_split fin l1 line rest l2 :
  getlines fin = l1 ++ (line, rest) :: l2 -> rest <> [] ->
  fin = concat (map (fun l => write_line l.1) l1) ++ write_line line ++ rest.
Proof.
  revert l1 line. induction fin as [|c fin IH]; intros l1 line; cbn [getlines].
  - destruct l1; discriminate.
  - destruct (Ascii.eqb_spec c "010"%char) as [->|Hc].
    + destruct l1 as [|[l0 r0] l1]; cbn [app].
      * intros [= <- <- <-] _. reflexivity.
      * intros [= <- <- Hl] Hrest. cbn [map concat fst].
        rewrite (IH _ _ Hl Hrest) at 1. reflexivity.
    + destruct (getlines fin) as [|[l0 r0] t] eqn:Hg.
      * destruct l1 as [|? [|? ?]]; cbn [app]; try discriminate.
        intros [= <- <-] Hrest. congruence.
      * destruct l1 as [|[l0' r0'] l1]; cbn [app].
        -- intros [= <- <- <-] Hrest.
           rewrite (IH [] l0 eq_refl Hrest) at 1. reflexivity.
        -- intros [= <- <- Hl] Hrest. subst t. cbn [map concat fst].
           rewrite (IH ((l0, r0) :: l1) line eq_refl Hrest) at 1.
           reflexivity.
Qed.

Section ScalePLYMesh_facts.
Variable extract_size : string -> nat -> nat.
Variable scale_line : string -> string.
Variable scale_float : Z -> Z.

Local Abbreviation header_line' := (header_line extract_size).
Local Abbreviation read_header' := (read_header extract_size).
Local Abbreviation read_mesh' := (read_mesh extract_size).
Local Abbreviation ScalePLYMesh' :=
  (ScalePLYMesh extract_size scale_line scale_float).

Lemma header_line_layout line h h' b :
  header_line' line h = inr (h', b) ->
  record_layout 0 (vertexProps h) (currentOffset h) ->
  record_layout 0 (vertexProps h') (currentOffset h').
Proof.
  unfold header_line. intros H Hl.
  repeat case_match; simplify_eq; cbn; try exact Hl.
  apply record_layout_snoc; [exact Hl|].
  eapply sizeOfType_sizes; eassumption.
Qed.

Lemma read_header_layout lines h h' bodyStart :
  read_header' lines h = inr (h', bodyStart) ->
  record_layout 0 (vertexProps h) (currentOffset h) ->
  record_layout 0 (vertexProps h') (currentOffset h').
Proof.
  revert h. induction lines as [|[line rest] lines IH]; intros h; cbn.
  - intros [= <- <-]. auto.
  - destruct (header_line' line h) as [e|[h1 [|]]] eqn:Hline; [discriminate|..].
    + intros [= <- <-]. eauto using header_line_layout.
    + intros H Hl. eapply IH; eauto using header_line_layout.
Qed.

Lemma adjust_Some sw off rec rec' :
  adjust scale_float sw off rec = Some rec' ->
  off + 4 <= length rec
  /\ exists v,
       v = (let iv := uint32_of_bytes (take 4 (drop off rec)) in
            let iv := if sw then swap32 iv else iv in
            let iv := scale_float iv in
            if sw then swap32 iv else iv)
       /\ rec' = take off rec ++ bytes_of_uint32 v ++ drop (off + 4) rec.
Proof.
  unfold adjust. destruct (Nat.leb_spec (off + 4) (length rec)); [|discriminate].
  intros H'. split; [assumption|]. eexists. split; [reflexivity|].
  injection H' as H'. rewrite <- H'. reflexivity.
Qed.

Lemma adjust_length sw off rec rec' :
  adjust scale_float sw off rec = Some rec' -> length rec' = length rec.
Proof.
  intros H. apply adjust_Some in H as (Hin & v & _ & ->).
  rewrite !length_app, bytes_of_uint32_length, length_take, length_drop. lia.
Qed.

Lemma adjust_frame sw off rec rec' i :
  adjust scale_float sw off rec = Some rec' ->
  ~ off <= i < off + 4 -> rec' !! i = rec !! i.
Proof.
  intros H Hi. apply adjust_Some in H as (Hin & v & _ & ->).
  destruct (record_window off rec Hin) as [Hrec Hlen].
  rewrite Hrec at 3.
  assert (Hoff : length (take off rec) = off) by (rewrite length_take; lia).
  apply lookup_app_middle.
  - rewrite Hlen. reflexivity.
  - rewrite Hoff, bytes_of_uint32_length. exact Hi.
Qed.

Lemma adjust_identity sw off rec rec' :
  (forall v, (0 <= v < 2 ^ 32)%Z -> scale_float v = v) ->
  adjust scale_float sw off rec = Some rec' -> rec' = rec.
Proof.
  intros Hid H. apply adjust_Some in H as (Hin & v & Hv & ->).
  destruct (record_window off rec Hin) as [Hrec Hlen].
  etrans; [|symmetry; exact Hrec]. f_equal. f_equal.
  destruct (four_bytes _ Hlen) as (b0 & b1 & b2 & b3 & Hw).
  rewrite Hw in *. cbv zeta in Hv.
  pose proof (uint32_of_bytes_range b0 b1 b2 b3) as Hr.
  destruct sw.
  - pose proof (swap32_range (uint32_of_bytes [b0; b1; b2; b3])) as Hsr.
    pose proof (swap32_swap32 (uint32_of_bytes [b0; b1; b2; b3])) as Hinv.
    rewrite Hid in Hv by exact Hsr. rewrite Hinv in Hv.
    rewrite Z.mod_small in Hv by exact Hr. subst v.
    apply bytes_of_uint32_of_bytes.
  - rewrite Hid in Hv by exact Hr. subst v. apply bytes_of_uint32_of_bytes.
Qed.

Lemma adjust_thrice sw oX oY oZ (r rec' : list ascii) :
  (rec ← adjust scale_float sw oX r;
   rec ← adjust scale_float sw oY rec;
   adjust scale_float sw oZ rec) = Some rec' ->
  length rec' = length r
  /\ (forall i, ~ (exists off, off ∈ [oX; oY; oZ] /\ off <= i < off + 4) ->
       rec' !! i = r !! i)
  /\ ((forall v, (0 <= v < 2 ^ 32)%Z -> scale_float v = v) -> rec' = r).
Proof.
  destruct (adjust scale_float sw oX r) as [r1|] eqn:H1; [|discriminate].
  cbn [mbind option_bind].
  destruct (adjust scale_float sw oY r1) as [r2|] eqn:H2; [|discriminate].
  cbn [mbind option_bind]. intros H3.
  split; [|split].
  - rewrite (adjust_length _ _ _ _ H3), (adjust_length _ _ _ _ H2).
    exact (adjust_length _ _ _ _ H1).
  - intros i Hi.
    rewrite (adjust_frame _ _ _ _ i H3), (adjust_frame _ _ _ _ i H2),
      (adjust_frame _ _ _ _ i H1); [reflexivity|..];
      intros Hw; apply Hi; eexists; (split; [|exact Hw]);
      rewrite !elem_of_cons; auto.
  - intros Hid.
    rewrite (adjust_identity _ _ _ _ Hid H3), (adjust_identity _ _ _ _ Hid H2).
    exact (adjust_identity _ _ _ _ Hid H1).
Qed.

Lemma scale_records_Done sw oX oY oZ rs n fin fout out :
  0 < rs ->
  scale_records scale_float sw oX oY oZ rs n fin fout = Done out ->
  exists body',
    out = fout ++ body'
    /\ length body' = length fin
    /\ n * rs <= length fin
    /\ (forall i,
          ~ (i < n * rs
             /\ exists off, off ∈ [oX; oY; oZ] /\ off <= i mod rs < off + 4) ->
          body' !! i = fin !! i)
    /\ ((forall v, (0 <= v < 2 ^ 32)%Z -> scale_float v = v) -> body' = fin).
Proof.
  intros Hrs. revert fin fout.
  induction n as [|n IH]; intros fin fout; cbn [scale_records].
  - intros [= <-]. exists fin. repeat split; auto. cbn. lia.
  - destruct (Nat.ltb_spec (length fin) rs) as [|Hlen]; [discriminate|].
    destruct (rec ← adjust scale_float sw oX (take rs fin);
              rec ← adjust scale_float sw oY rec;
              adjust scale_float sw oZ rec) as [rec'|] eqn:Hrec;
      [|discriminate].
    intros Hout. apply IH in Hout as (body'' & -> & Hl & Hn & Hframe & Hid).
    apply adjust_thrice in Hrec as (Hl' & Hframe' & Hid').
    rewrite length_take in Hl'. rewrite length_drop in Hl, Hn.
    exists (rec' ++ body''). split; [rewrite app_assoc; reflexivity|].
    split; [rewrite length_app; lia|]. split; [lia|]. split.
    + intros i Hi. destruct (decide (i < rs)) as [Hlt|Hge].
      * rewrite lookup_app_l by lia. rewrite Hframe'.
        { apply lookup_take_lt. exact Hlt. }
        intros (off & Hoff & Hw). apply Hi. split; [lia|].
        exists off. rewrite Nat.mod_small by exact Hlt. auto.
      * rewrite lookup_app_r by lia. rewrite Hframe.
        { rewrite lookup_drop. f_equal. lia. }
        intros (Hlt & off & Hoff & Hw). apply Hi. split; [lia|].
        exists off. split; [exact Hoff|].
        replace i with ((i - length rec') + 1 * rs) by lia.
        rewrite Nat.Div0.mod_add. exact Hw.
    + intros Hv. rewrite (Hid Hv), (Hid' Hv). apply take_drop.
Qed.

Lemma read_mesh_inr fin m :
  read_mesh' fin = inr m ->
  exists bodyStart,
    read_header' (getlines fin) Header_initial = inr (header m, bodyStart)
    /\ body m = default fin bodyStart
    /\ vertCount (header m) <> 0
    /\ vertexProps (header m) <> []
    /\ findOffset (vertexProps (header m)) "x" = Some (offX m)
    /\ findOffset (vertexProps (header m)) "y" = Some (offY m)
    /\ findOffset (vertexProps (header m)) "z" = Some (offZ m).
Proof.
  unfold read_mesh.
  destruct (read_header' (getlines fin) Header_initial)
    as [e|[h bodyStart]]; [discriminate|].
  destruct (Nat.eqb_spec (vertCount h) 0) as [|Hv]; [discriminate|].
  destruct (vertexProps h) as [|p props] eqn:Hp; [discriminate|].
  cbn [orb].
  destruct (findOffset (p :: props) "x") as [oX|] eqn:Hx; [|discriminate].
  destruct (findOffset (p :: props) "y") as [oY|] eqn:Hy; [|discriminate].
  destruct (findOffset (p :: props) "z") as [oZ|] eqn:Hz; [|discriminate].
  intros [= <-]. cbn. exists bodyStart. rewrite Hp.
  split; [reflexivity|]. split; [reflexivity|]. split; [exact Hv|].
  split; [discriminate|]. auto.
Qed.

Lemma read_mesh_layout_aux fin m :
  read_mesh' fin = inr m ->
  record_layout 0 (vertexProps (header m)) (currentOffset (header m))
  /\ 0 < currentOffset (header m).
Proof.
  intros H. apply read_mesh_inr in H as (bs & Hh & _ & _ & Hp & _).
  apply read_header_layout in Hh; [|reflexivity].
  split; [exact Hh|].
  destruct (vertexProps (header m)) as [|p props]; [congruence|].
  destruct (record_layout_inside _ _ _ p Hh) as [_ Hin]; [left|].
  destruct Hh as (_ & Hsz & _). rewrite !elem_of_cons in Hsz.
  rewrite elem_of_nil in Hsz. lia.
Qed.

(** X11: what the header of a mesh that was read gives: there are vertices;
    the vertex properties lie one after the other from offset 0 to the
    record size, each with the size of its scalar type, so the record is
    not empty; and each of the three offsets is that of the first vertex
    property of the name, which lies in the record.  The type of the
    property is not looked at. *)
Theorem read_mesh_layout (fin : list ascii) (m : Mesh) :
  read_mesh' fin = inr m ->
  let h := header m in
  0 < vertCount h
  /\ 0 < currentOffset h
  /\ record_layout 0 (vertexProps h) (currentOffset h)
  /\ forall n off, (n, off) ∈ [("x", offX m); ("y", offY m); ("z", offZ m)] ->
       exists p, property_named h n = Some p
                 /\ prop_name p = n /\ prop_offset p = off
                 /\ off + prop_size p <= currentOffset h.
Proof.
  intros H h. subst h. destruct (read_mesh_layout_aux _ _ H) as [Hl Hpos].
  apply read_mesh_inr in H as (bs & _ & _ & Hv & _ & Hx & Hy & Hz).
  split; [lia|]. split; [exact Hpos|]. split; [exact Hl|].
  intros n off Hin.
  assert (Hf : findOffset (vertexProps (header m)) n = Some off).
  { rewrite !elem_of_cons, elem_of_nil in Hin.
    destruct Hin as [[= -> ->]|[[= -> ->]|[[= -> ->]|[]]]]; assumption. }
  apply findOffset_Some in Hf as (p & Hp & <-).
  exists p. destruct (property_named_Some _ _ _ Hp) as [Hin' Hn].
  destruct (record_layout_inside _ _ _ p Hl Hin'). auto.
Qed.

(** X13: a binary mesh that was scaled differs from the body that was read in
    nothing but the four bytes at the three offsets of each of the
    [vertCount] records, which are all there: the output is the header
    lines followed by a body of the same length, with the other bytes of
    the records and everything after them as they were.  When the
    multiplication leaves every [float] as it is, the body is copied
    unchanged, for both byte orders. *)
Theorem ScalePLYMesh_binary_frame (fin fout : list ascii) (m : Mesh) :
  read_mesh' fin = inr m ->
  format (header m) <> ASCII ->
  ScalePLYMesh' fin = Done fout ->
  exists body',
    fout = write_header (header m) ++ body'
    /\ length body' = length (body m)
    /\ vertCount (header m) * currentOffset (header m) <= length (body m)
    /\ (forall i, ~ adjusted m i -> body' !! i = body m !! i)
    /\ ((forall v, (0 <= v < 2 ^ 32)%Z -> scale_float v = v) ->
        body' = body m).
Proof.
  intros Hm Hfmt. unfold ScalePLYMesh. rewrite Hm.
  destruct (read_mesh_layout_aux _ _ Hm) as [_ Hpos].
  unfold write_mesh, adjusted.
  destruct (format (header m)); [congruence|..];
    intros Hout; exact (scale_records_Done _ _ _ _ _ _ _ _ _ Hpos Hout).
Qed.

Lemma adjust_inside sw off rec :
  off + 4 <= length rec ->
  exists rec', adjust scale_float sw off rec = Some rec'.
Proof.
  intros H. unfold adjust.
  destruct (Nat.leb_spec (off + 4) (length rec)); [|lia]. eauto.
Qed.

Lemma scale_records_outcome sw oX oY oZ rs n fin fout :
  0 < rs -> oX + 4 <= rs -> oY + 4 <= rs -> oZ + 4 <= rs ->
  if n * rs <=? length fin
  then exists out,
         scale_records scale_float sw oX oY oZ rs n fin fout = Done out
  else exists part,
         scale_records scale_float sw oX oY oZ rs n fin fout
         = Throws Unexpected_EOF_in_binary_body (Some part).
Proof.
  intros Hrs HX HY HZ. revert fin fout.
  induction n as [|n IH]; intros fin fout; cbn [scale_records].
  - cbn. eauto.
  - destruct (Nat.ltb_spec (length fin) rs) as [Hshort|Hlen].
    + destruct (Nat.leb_spec (S n * rs) (length fin)); [lia|]. eauto.
    + assert (Hl : length (take rs fin) = rs) by (rewrite length_take; lia).
      destruct (adjust_inside sw oX (take rs fin)) as [r1 H1]; [lia|].
      pose proof (adjust_length _ _ _ _ H1) as Hl1.
      destruct (adjust_inside sw oY r1) as [r2 H2]; [lia|].
      pose proof (adjust_length _ _ _ _ H2) as Hl2.
      destruct (adjust_inside sw oZ r2) as [r3 H3]; [lia|].
      rewrite H1. cbn [mbind option_bind]. rewrite H2.
      cbn [mbind option_bind]. rewrite H3.
      specialize (IH (drop rs fin) (fout ++ r3)).
      rewrite length_drop in IH.
      destruct (Nat.leb_spec (n * rs) (length fin - rs));
        destruct (Nat.leb_spec (S n * rs) (length fin)); try lia; exact IH.
Qed.

(** X14: when the first properties named x, y and z have a type of four bytes
    or more, the binary branch stays inside the record: the mesh is
    written when the body has [vertCount] records, and the end of the file
    is reported otherwise. *)
Theorem ScalePLYMesh_binary_outcome (fin : list ascii) (m : Mesh) :
  read_mesh' fin = inr m ->
  format (header m) <> ASCII ->
  (forall n p, n ∈ ["x"; "y"; "z"] ->
     property_named (header m) n = Some p -> 4 <= prop_size p) ->
  if vertCount (header m) * currentOffset (header m) <=? length (body m)
  then exists fout, ScalePLYMesh' fin = Done fout
  else exists part,
         ScalePLYMesh' fin
         = Throws Unexpected_EOF_in_binary_body (Some part).
Proof.
  intros Hm Hfmt Hwide. unfold ScalePLYMesh. rewrite Hm.
  destruct (read_mesh_layout_aux _ _ Hm) as [Hl Hpos].
  assert (Hoff : forall n off,
             n ∈ ["x"; "y"; "z"] ->
             findOffset (vertexProps (header m)) n = Some off ->
             off + 4 <= currentOffset (header m)).
  { intros n off Hn Hf. apply findOffset_Some in Hf as (p & Hp & <-).
    specialize (Hwide n p Hn Hp).
    destruct (property_named_Some _ _ _ Hp) as [Hin _].
    destruct (record_layout_inside _ _ _ p Hl Hin). lia. }
  apply read_mesh_inr in Hm as (bs & _ & _ & _ & _ & Hx & Hy & Hz).
  apply Hoff in Hx; [|rewrite !elem_of_cons; auto].
  apply Hoff in Hy; [|rewrite !elem_of_cons; auto].
  apply Hoff in Hz; [|rewrite !elem_of_cons; auto].
  unfold write_mesh.
  destruct (format (header m)); [congruence|..];
    apply scale_records_outcome; assumption.
Qed.

Lemma scale_lines_outcome n (lines : list (string * list ascii)) fout :
  scale_lines scale_line n lines fout
  = if n <=? length lines
    then Done (fout ++ concat (map write_line
                                 (map scale_line (take n (map fst lines))
                                  ++ drop n (map fst lines))))
    else Throws Unexpected_EOF_in_ASCII_body
                (Some (fout ++ concat (map write_line
                                         (map scale_line (map fst lines))))).
Proof.
  revert lines fout.
  induction n as [|n IH]; intros lines fout; cbn [scale_lines].
  - cbn [Nat.leb]. rewrite take_0, drop_0. cbn [map app].
    rewrite List.map_map. reflexivity.
  - destruct lines as [|[line rest] lines].
    + cbn. rewrite app_nil_r. reflexivity.
    + rewrite IH. cbn [length Nat.leb fst map].
      rewrite firstn_cons, skipn_cons. cbn [map app].
      destruct (n <=? length lines); cbn [concat app];
        rewrite <- !app_assoc; reflexivity.
Qed.

(** X15: the ASCII branch works by lines: the first [vertCount] lines of the
    body are scaled and the lines after them are copied, every line
    written with a newline; with fewer lines than [vertCount] the end of
    the file is reported after all of them were scaled and written. *)
Theorem ScalePLYMesh_ascii_lines (fin : list ascii) (m : Mesh) :
  read_mesh' fin = inr m ->
  format (header m) = ASCII ->
  let n := vertCount (header m) in
  let lines := map fst (getlines (body m)) in
  ScalePLYMesh' fin
  = if n <=? length lines
    then Done (write_header (header m)
               ++ concat (map write_line (map scale_line (take n lines)
                                          ++ drop n lines)))
    else Throws Unexpected_EOF_in_ASCII_body
                (Some (write_header (header m)
                       ++ concat (map write_line (map scale_line lines)))).
Proof.
  intros Hm Hfmt n lines. unfold ScalePLYMesh. rewrite Hm.
  unfold write_mesh. rewrite Hfmt. rewrite scale_lines_outcome.
  subst lines. rewrite length_map. reflexivity.
Qed.

Lemma header_line_headerLines line h h' b :
  header_line' line h = inr (h', b) ->
  headerLines h' = headerLines h ++ [line]
  /\ (b = true -> line = "end_header").
Proof.
  unfold header_line. intros H.
  repeat case_match; simplify_eq; cbn;
    (split; [reflexivity|]); try discriminate.
  intros _. apply String.eqb_eq. assumption.
Qed.

Lemma header_line_end_header h :
  exists h', header_line' "end_header" h = inr (h', true).
Proof.
  unfold header_line.
  change (extract_word "end_header") with ("end_header", EmptyString).
  cbn. rewrite andb_false_r. eauto.
Qed.

Lemma read_header_lines lines h h' bodyStart :
  read_header' lines h = inr (h', bodyStart) ->
  match bodyStart with
  | Some rest =>
      exists l1 l2,
        lines = l1 ++ ("end_header", rest) :: l2
        /\ headerLines h' = headerLines h ++ map fst l1 ++ ["end_header"]
  | None =>
      headerLines h' = headerLines h ++ map fst lines
      /\ "end_header" ∉ map fst lines
  end.
Proof.
  revert h. induction lines as [|[line rest] lines IH]; intros h;
    cbn [read_header].
  - intros [= <- <-]. rewrite app_nil_r. split; [reflexivity|].
    apply not_elem_of_nil.
  - destruct (header_line' line h) as [e|[h1 b]] eqn:Hline; [discriminate|].
    destruct (header_line_headerLines _ _ _ _ Hline) as [Hh Hb].
    destruct b.
    + intros [= <- <-]. rewrite (Hb eq_refl) in *.
      exists [], lines. split; [reflexivity|]. exact Hh.
    + intros H. apply IH in H. destruct bodyStart as [rest'|].
      * destruct H as (l1 & l2 & -> & Hl). exists ((line, rest) :: l1), l2.
        split; [reflexivity|]. rewrite Hl, Hh, <- app_assoc. reflexivity.
      * destruct H as [Hl Hno]. split.
        { rewrite Hl, Hh, <- app_assoc. reflexivity. }
        cbn [map fst]. rewrite not_elem_of_cons. split; [|exact Hno].
        intros <-. destruct (header_line_end_header h) as [h2 Hend].
        congruence.
Qed.

(** X12: the header is copied as it is: for a file with an [end_header] line
    and something after it, the file that was read is the header lines,
    each with its newline, followed by the body.  A file without such a
    line, as one whose lines end in a carriage return and a newline, is
    read to its end as header, and its body is the file from its first
    byte. *)
Theorem read_mesh_header_lines (fin : list ascii) (m : Mesh) :
  read_mesh' fin = inr m ->
  ("end_header" ∈ headerLines (header m) -> body m <> [] ->
   fin = write_header (header m) ++ body m)
  /\ ("end_header" ∉ headerLines (header m) ->
      body m = fin /\ headerLines (header m) = map fst (getlines fin)).
Proof.
  intros Hm. apply read_mesh_inr in Hm as (bs & Hh & Hbody & _).
  apply read_header_lines in Hh. destruct bs as [rest|]; cbn in Hbody.
  - destruct Hh as (l1 & l2 & Hlines & Hl). cbn [headerLines Header_initial app] in Hl.
    split.
    + intros _ Hne. rewrite Hbody in *.
      rewrite (getlines_split _ _ _ _ _ Hlines Hne).
      unfold write_header. rewrite Hl, map_app, concat_app, List.map_map.
      cbn [map concat]. rewrite app_nil_r, <- app_assoc. reflexivity.
    + intros Hno. exfalso. apply Hno. rewrite Hl.
      rewrite !elem_of_app, elem_of_cons. auto.
  - destruct Hh as [Hl Hno]. cbn [headerLines Header_initial app] in Hl.
    split.
    + intros Hin. rewrite Hl in Hin. contradiction.
    + intros _. auto.
Qed.
End ScalePLYMesh_facts.

(** ** The PLY scaler on the example meshes *)

Lemma read_mesh_layout_witness :
  exists m,
    read_mesh count_of_one (one_vertex_mesh "ascii" "float" "1 2 3 255")
    = inr m
    /\ 0 < currentOffset (header m).
Proof.
  destruct (read_mesh count_of_one
                      (one_vertex_mesh "ascii" "float" "1 2 3 255"))
    as [e|m] eqn:H; [vm_compute in H; discriminate|].
  exists m. split; [reflexivity|].
  exact (proj1 (proj2 (read_mesh_layout count_of_one _ m H))).
Defined.

Lemma ScalePLYMesh_binary_frame_witness :
  let fin := one_vertex_mesh "binary_big_endian" "float" "ABCDEFGHIJKLM" in
  exists m fout body',
    read_mesh count_of_one fin = inr m
    /\ format (header m) <> ASCII
    /\ ScalePLYMesh count_of_one marked_line lowest_bit_changed fin = Done fout
    /\ fout = write_header (header m) ++ body'
    /\ length body' = length (body m).
Proof.
  intros fin.
  destruct (read_mesh count_of_one fin) as [e|m] eqn:Hm;
    [vm_compute in Hm; discriminate|].
  assert (Hfmt : format (header m) <> ASCII).
  { assert (Hf : (fun r => match r with
                           | inr m => format (header m)
                           | inl _ => ASCII
                           end) (read_mesh count_of_one fin) = BIN_BE)
      by (vm_compute; reflexivity).
    rewrite Hm in Hf. rewrite Hf. discriminate. }
  destruct (ScalePLYMesh count_of_one marked_line lowest_bit_changed fin)
    as [fout| |] eqn:Hout;
    [|vm_compute in Hout; discriminate|vm_compute in Hout; discriminate].
  destruct (ScalePLYMesh_binary_frame count_of_one marked_line
              lowest_bit_changed fin fout m Hm Hfmt Hout)
    as (body' & Hfout & Hlen & _).
  exists m, fout, body'. auto.
Defined.

Lemma ScalePLYMesh_binary_outcome_witness :
  let fin := one_vertex_mesh "binary_little_endian" "float" "ABCDEFGHIJKLM" in
  exists fout,
    ScalePLYMesh count_of_one marked_line lowest_bit_changed fin = Done fout.
Proof.
  intros fin.
  destruct (read_mesh count_of_one fin) as [e|m] eqn:Hm;
    [vm_compute in Hm; discriminate|].
  assert (Hf : (fun r => match r with
                         | inr m =>
                             (format (header m), vertexProps (header m),
                              vertCount (header m), currentOffset (header m),
                              length (body m))
                         | inl _ => (ASCII, [], 0, 0, 0)
                         end) (read_mesh count_of_one fin)
               = (BIN_LE,
                  [mkProperty "x" 4 0; mkProperty "y" 4 4;
                   mkProperty "z" 4 8; mkProperty "red" 1 12], 1, 13, 13))
    by (vm_compute; reflexivity).
  rewrite Hm in Hf. injection Hf as Hfmt Hprops Hn Hrs Hlen.
  assert (Hbin : format (header m) <> ASCII) by (rewrite Hfmt; discriminate).
  assert (Hwide : forall n p, n ∈ ["x"; "y"; "z"] ->
                    property_named (header m) n = Some p -> 4 <= prop_size p).
  { intros n p Hin. unfold property_named. rewrite Hprops.
    rewrite !elem_of_cons, elem_of_nil in Hin.
    destruct Hin as [->|[->|[->|[]]]]; intros [= <-]; cbn; lia. }
  pose proof (ScalePLYMesh_binary_outcome count_of_one marked_line
                lowest_bit_changed fin m Hm Hbin Hwide) as H.
  rewrite Hn, Hrs, Hlen in H. exact H.
Defined.

Lemma ScalePLYMesh_ascii_lines_witness :
  let fin := one_vertex_mesh "ascii" "float" "1 2 3 255" in
  exists m fout,
    read_mesh count_of_one fin = inr m
    /\ format (header m) = ASCII
    /\ ScalePLYMesh count_of_one marked_line lowest_bit_changed fin = Done fout
    /\ fout = write_header (header m)
              ++ write_line (marked_line "1 2 3 255").
Proof.
  intros fin.
  destruct (read_mesh count_of_one fin) as [e|m] eqn:Hm;
    [vm_compute in Hm; discriminate|].
  assert (Hf : (fun r => match r with
                         | inr m => (format (header m), vertCount (header m),
                                     map fst (getlines (body m)))
                         | inl _ => (BIN_LE, 0, [])
                         end) (read_mesh count_of_one fin)
               = (ASCII, 1, ["1 2 3 255"]))
    by (vm_compute; reflexivity).
  rewrite Hm in Hf. injection Hf as Hfmt Hn Hlines.
  pose proof (ScalePLYMesh_ascii_lines count_of_one marked_line
                lowest_bit_changed fin m Hm Hfmt) as H.
  cbv zeta in H. rewrite Hn, Hlines in H. cbn [length Nat.leb] in H.
  exists m. eexists. split; [reflexivity|]. split; [exact Hfmt|].
  split; [exact H|]. cbn [firstn skipn map app concat].
  rewrite app_nil_r. reflexivity.
Defined.

Lemma read_mesh_header_lines_witness :
  let fin := one_vertex_mesh "ascii" "float" "1 2 3 255" in
  exists m,
    read_mesh count_of_one fin = inr m
    /\ "end_header" ∈ headerLines (header m)
    /\ body m <> []
    /\ fin = write_header (header m) ++ body m.
Proof.
  intros fin.
  destruct (read_mesh count_of_one fin) as [e|m] eqn:Hm;
    [vm_compute in Hm; discriminate|].
  assert (Hf : (fun r => match r with
                         | inr m => (last (headerLines (header m)), body m)
                         | inl _ => (None, [])
                         end) (read_mesh count_of_one fin)
               = (Some "end_header",
                  String.list_ascii_of_string "1 2 3 255"))
    by (vm_compute; reflexivity).
  rewrite Hm in Hf. injection Hf as Hlast Hbody.
  assert (Hin : "end_header" ∈ headerLines (header m)).
  { apply last_Some in Hlast as [l ->]. rewrite elem_of_app, elem_of_cons.
    auto. }
  assert (Hne : body m <> []) by (rewrite Hbody; discriminate).
  exists m. split; [reflexivity|]. split; [exact Hin|]. split; [exact Hne|].
  exact (proj1 (read_mesh_header_lines count_of_one fin m Hm) Hin Hne).
Defined.

(** With coordinates of one byte the record of the example has four
    bytes, and the four bytes that [adjust] copies at offset 1 are not all
    in it. *)
Lemma narrow_coordinates_outside_record :
  ScalePLYMesh count_of_one marked_line lowest_bit_changed
               (one_vertex_mesh "binary_little_endian" "uchar" "ABCD")
  = Outside_record.
Proof. vm_compute. reflexivity. Qed.

(** ** Contact sheets *)

Lemma roi_inside_true roi mat :
  roi_inside roi mat = true <->
  (0 <= rect_x roi /\ 0 <= rect_width roi
   /\ rect_x roi + rect_width roi <= cols mat
   /\ 0 <= rect_y roi /\ 0 <= rect_height roi
   /\ rect_y roi + rect_height roi <= rows mat)%Z.
Proof. unfold roi_inside. rewrite !andb_true_iff, !Z.leb_le. tauto. Qed.

Section ContactSheets_facts.
Variables h w m : Z.

(** The regions copied so far. *)
Local Abbreviation regions st := (concat (sheets st) ++ sheet st).

Lemma place_marker_in_margins st marker :
  (0 <= m)%Z -> fits h w m marker -> sheets_in_margins h w m st ->
  exists st',
    place_marker h w m st marker = Some st'
    /\ sheets_in_margins h w m st'
    /\ map region_size (regions st') = map region_size (regions st) ++ [marker].
Proof.
  intros Hm (Hc & Hr) (Hox & Hoy & Hs & Hsh & Hne & Hfirst).
  unfold place_marker.
  set (st1 := if (ox st + cols marker >? w - m)%Z
              then mkSheets (sheets st) (sheet st) (oy st + rows marker)%Z m
              else st).
  assert (H1 : sheets st1 = sheets st /\ sheet st1 = sheet st
               /\ (m <= ox st1)%Z /\ (m <= oy st1)%Z
               /\ (ox st1 + cols marker <= w - m)%Z
               /\ (sheet st = [] -> ox st1 = m /\ oy st1 = m)).
  { subst st1. destruct (Z.gtb_spec (ox st + cols marker) (w - m)); cbn.
    - split; [reflexivity|]. split; [reflexivity|]. split; [lia|].
      split; [lia|]. split; [lia|]. intros He. destruct (Hfirst He). lia.
    - split; [reflexivity|]. split; [reflexivity|]. split; [lia|].
      split; [lia|]. split; [lia|]. exact Hfirst. }
  destruct H1 as (Hs1 & Hsh1 & Hox1 & Hoy1 & Hfit1 & Hfirst1).
  set (st2 := if (oy st1 + rows marker >? h - m)%Z
              then mkSheets (sheets st1 ++ [sheet st1]) [] m m
              else st1).
  assert (H2 : (m <= ox st2)%Z /\ (m <= oy st2)%Z
               /\ (ox st2 + cols marker <= w - m)%Z
               /\ (oy st2 + rows marker <= h - m)%Z
               /\ Forall (Forall (in_margins h w m)) (sheets st2)
               /\ Forall (in_margins h w m) (sheet st2)
               /\ Forall (fun s => s <> []) (sheets st2)
               /\ regions st2 = regions st).
  { subst st2. destruct (Z.gtb_spec (oy st1 + rows marker) (h - m)); cbn.
    - rewrite Hs1, Hsh1. repeat split; try lia.
      + apply Forall_app. split; [exact Hs|]. constructor; [exact Hsh|constructor].
      + constructor.
      + apply Forall_app. split; [exact Hne|].
        constructor; [|constructor]. intros He.
        destruct (Hfirst1 He). lia.
      + rewrite concat_app. cbn. rewrite !app_nil_r. reflexivity.
    - rewrite Hs1, Hsh1. repeat split; auto; lia. }
  destruct H2 as (Hox2 & Hoy2 & Hx2 & Hy2 & Hs2 & Hsh2 & Hne2 & Hreg).
  assert (Hin : roi_inside (mkRect (ox st2) (oy st2) (cols marker) (rows marker))
                           (mkMatSize w h) = true).
  { apply roi_inside_true. cbn. lia. }
  rewrite Hin. eexists. split; [reflexivity|]. split.
  - unfold sheets_in_margins. cbn.
    split; [lia|]. split; [lia|]. split; [exact Hs2|]. split.
    { apply Forall_app. split; [exact Hsh2|].
      constructor; [|constructor]. unfold in_margins. cbn. lia. }
    split; [exact Hne2|].
    intros He. apply app_eq_nil in He as [_ He]. discriminate.
  - cbn [sheets sheet]. rewrite app_assoc, List.map_app, Hreg. cbn.
    f_equal. f_equal. destruct marker; reflexivity.
Qed.

Lemma place_markers_in_margins padded st :
  (0 <= m)%Z -> Forall (fits h w m) padded -> sheets_in_margins h w m st ->
  exists st',
    place_markers h w m st padded = Some st'
    /\ sheets_in_margins h w m st'
    /\ map region_size (regions st') = map region_size (regions st) ++ padded
    /\ (padded <> [] -> sheet st' <> []).
Proof.
  intros Hm Hfits. revert st.
  induction Hfits as [|marker padded Hfit Hfits IH]; intros st Hst.
  - exists st. cbn. rewrite app_nil_r. split; [reflexivity|].
    split; [exact Hst|]. split; [reflexivity|]. intros Hn. congruence.
  - destruct (place_marker_in_margins st marker Hm Hfit Hst)
      as (st1 & H1 & Hst1 & Hreg1).
    destruct (IH st1 Hst1) as (st' & H' & Hst' & Hreg' & Hne').
    exists st'. cbn [place_markers]. rewrite H1.
    split; [exact H'|]. split; [exact Hst'|]. split.
    + rewrite Hreg', Hreg1, <- app_assoc. reflexivity.
    + intros _. destruct padded as [|marker' padded'].
      * cbn in H'. injection H' as <-. unfold place_marker in H1.
        destruct (roi_inside _ _); [|discriminate]. injection H1 as <-.
        cbn. intros He. apply app_eq_nil in He as [_ He]. discriminate.
      * apply Hne'. discriminate.
Qed.

(** X16: when every padded marker fits between the margins of the sheet, the
    sheets are made without an OpenCV error: every marker is copied once,
    in the order of the list, to a region of its own size that lies
    between the margins, and no sheet is left empty. *)
Theorem contact_sheets_in_margins (padded : list MatSize) :
  (0 <= m)%Z -> padded <> [] -> Forall (fits h w m) padded ->
  exists result,
    contact_sheets h w m padded = Some result
    /\ Forall (Forall (in_margins h w m)) result
    /\ map region_size (concat result) = padded
    /\ Forall (fun s => s <> []) result.
Proof.
  intros Hm Hne Hfits.
  assert (Hsize : (0 <= h)%Z /\ (0 <= w)%Z).
  { destruct Hfits as [|marker ? Hfit _]; [congruence|].
    destruct Hfit. lia. }
  destruct (place_markers_in_margins padded (mkSheets [] [] m m) Hm Hfits)
    as (st & Hst & (_ & _ & Hs & Hsh & Hnes & _) & Hreg & Hlast).
  { unfold sheets_in_margins. cbn.
    split; [lia|]. split; [lia|]. repeat (split; [constructor|]). auto. }
  unfold contact_sheets. destruct padded as [|marker padded]; [congruence|].
  destruct (Z.leb_spec 0 h); [|lia]. destruct (Z.leb_spec 0 w); [|lia].
  cbn [andb]. rewrite Hst. cbn [mbind option_bind].
  eexists. split; [reflexivity|]. split; [|split].
  - apply Forall_app. split; [exact Hs|]. constructor; [exact Hsh|constructor].
  - rewrite concat_app. cbn [concat]. rewrite app_nil_r. exact Hreg.
  - apply Forall_app. split; [exact Hnes|].
    constructor; [|constructor]. apply Hlast. discriminate.
Qed.
End ContactSheets_facts.

Lemma pairwise_disjoint_nil : pairwise_disjoint [].
Proof. intros i j a b _ Hi. rewrite lookup_nil in Hi. discriminate. Qed.

Lemma pairwise_disjoint_snoc regions b :
  pairwise_disjoint regions ->
  (forall a, a ∈ regions -> disjoint_regions a b) ->
  pairwise_disjoint (regions ++ [b]).
Proof.
  intros Hp Hb i j a c Hij Hi Hj.
  destruct (decide (j < length regions)) as [Hlt|Hge].
  - rewrite lookup_app_l in Hi, Hj by lia. eauto.
  - rewrite lookup_app_r in Hj by lia.
    destruct (j - length regions) as [|k] eqn:Hk; [|destruct k; discriminate].
    injection Hj as <-. rewrite lookup_app_l in Hi by lia.
    apply Hb. eapply list_elem_of_lookup_2. exact Hi.
Qed.

Section ContactSheets_rows.
Variables h w m H : Z.

Lemma place_marker_in_rows st st' marker :
  place_marker h w m st marker = Some st' -> rows marker = H ->
  sheets_in_rows H st -> sheets_in_rows H st'.
Proof.
  unfold place_marker. intros Hplace Hrows (Hs & Hsh & Hrow).
  set (st1 := if (ox st + cols marker >? w - m)%Z
              then mkSheets (sheets st) (sheet st) (oy st + rows marker)%Z m
              else st) in Hplace.
  set (st2 := if (oy st1 + rows marker >? h - m)%Z
              then mkSheets (sheets st1 ++ [sheet st1]) [] m m
              else st1) in Hplace.
  destruct (roi_inside _ _) eqn:Hin; [|discriminate].
  apply roi_inside_true in Hin. cbn in Hin.
  assert (H1 : sheets_in_rows H st1).
  { subst st1. destruct (ox st + cols marker >? w - m)%Z;
      [|split; [exact Hs|split; [exact Hsh|exact Hrow]]].
    split; [exact Hs|]. split; [exact Hsh|]. cbn. intros a Ha.
    destruct (Hrow a Ha) as [Hh Hpos]. split; [exact Hh|]. left. lia. }
  assert (H2 : sheets_in_rows H st2).
  { subst st2. destruct (oy st1 + rows marker >? h - m)%Z; [|exact H1].
    destruct H1 as (Hs1 & Hsh1 & _). split; [|split]; cbn.
    - apply Forall_app. split; [exact Hs1|]. constructor; [exact Hsh1|constructor].
    - apply pairwise_disjoint_nil.
    - intros a Ha. inversion Ha. }
  destruct H2 as (Hs2 & Hsh2 & Hrow2).
  injection Hplace as <-. split; [exact Hs2|]. cbn. split.
  - apply pairwise_disjoint_snoc; [exact Hsh2|]. intros a Ha.
    destruct (Hrow2 a Ha) as [Hh Hpos]. unfold disjoint_regions. cbn. lia.
  - intros a Ha. apply elem_of_app in Ha as [Ha|Ha].
    + destruct (Hrow2 a Ha) as [Hh Hpos]. split; [exact Hh|]. lia.
    + apply list_elem_of_singleton in Ha as ->. cbn. split; [exact Hrows|].
      right. lia.
Qed.

Lemma place_markers_in_rows padded st st' :
  place_markers h w m st padded = Some st' ->
  Forall (fun marker => rows marker = H) padded ->
  sheets_in_rows H st -> sheets_in_rows H st'.
Proof.
  revert st. induction padded as [|marker padded IH]; intros st; cbn.
  - intros [= <-] _ Hst. exact Hst.
  - destruct (place_marker h w m st marker) as [st1|] eqn:H1; [|discriminate].
    intros Hrest Hall Hst. apply Forall_cons in Hall as [Hrows Hall'].
    eapply IH; [exact Hrest|exact Hall'|].
    eapply place_marker_in_rows; eauto.
Qed.

(** X17: when the padded markers are of one height, the regions that markers
    are copied to on a sheet have no pixel in common, whatever the widths
    are.  (The row is advanced by the height of the marker that does not
    fit in it.) *)
Theorem contact_sheets_disjoint (padded : list MatSize)
    (result : list (list Rect)) :
  contact_sheets h w m padded = Some result ->
  Forall (fun marker => rows marker = H) padded ->
  Forall pairwise_disjoint result.
Proof.
  unfold contact_sheets. destruct padded as [|marker padded]; [discriminate|].
  destruct ((0 <=? h)%Z && (0 <=? w)%Z); [|discriminate].
  destruct (place_markers h w m (mkSheets [] [] m m) (marker :: padded))
    as [st|] eqn:Hst; [|discriminate].
  cbn [mbind option_bind]. intros [= <-] Hall.
  destruct (place_markers_in_rows _ _ _ Hst Hall) as (Hs & Hsh & _).
  { split; [constructor|]. split; [apply pairwise_disjoint_nil|].
    cbn. intros a Ha. inversion Ha. }
  apply Forall_app. split; [exact Hs|]. constructor; [exact Hsh|constructor].
Qed.
End ContactSheets_rows.

Section PadAndLabel_facts.
Variable getTextSize : string -> MatSize.

(** X18: for a padding and sizes that are not negative, [PadAndLabel] gives an
    image that holds the marker with the padding on every side: the region
    of the marker has the size of the marker, starts [padding] rows from
    the top, and is centred between the left and the right border, one
    pixel more on the right when the difference is odd. *)
Theorem PadAndLabel_region (marker : MatSize) (label : string) (padding : Z) :
  (0 <= padding)%Z -> (0 <= cols marker)%Z -> (0 <= rows marker)%Z ->
  (0 <= cols (getTextSize label))%Z -> (0 <= rows (getTextSize label))%Z ->
  exists out roi,
    PadAndLabel getTextSize marker label padding = Some (out, roi)
    /\ region_size roi = marker
    /\ rect_y roi = padding
    /\ (rect_y roi + rect_height roi + padding <= rows out)%Z
    /\ (padding <= rect_x roi)%Z
    /\ (let right := cols out - (rect_x roi + rect_width roi) in
        rect_x roi <= right <= rect_x roi + 1)%Z.
Proof.
  intros Hp Hc Hr Htc Htr. unfold PadAndLabel.
  set (wh := if String.eqb label "" then _ else _).
  assert (Hwh : (cols marker + 2 * padding <= wh.1
                 /\ rows marker + 2 * padding <= wh.2)%Z).
  { subst wh. destruct (String.eqb label ""); cbn; [lia|].
    destruct (Z.gtb_spec (cols (getTextSize label))
                         (cols marker + 2 * padding)); lia. }
  destruct wh as [w h]. cbn in Hwh.
  pose proof (Z.quot_pos (w - cols marker) 2) as Hq0.
  assert (Hq : (w - cols marker = 2 * ((w - cols marker) ÷ 2)
                                  + Z.rem (w - cols marker) 2)%Z)
    by (apply Z.quot_rem'; lia).
  assert (Hrem : (0 <= Z.rem (w - cols marker) 2 < 2)%Z)
    by (apply Z.rem_bound_pos; lia).
  assert (Hin : roi_inside
                  (mkRect ((w - cols marker) ÷ 2) padding (cols marker)
                          (rows marker)) (mkMatSize w h) = true).
  { apply roi_inside_true. cbn. lia. }
  rewrite Hin. eexists _, _. split; [reflexivity|]. cbn.
  split; [destruct marker; reflexivity|]. lia.
Qed.
End PadAndLabel_facts.

(** ** Contact sheets of examples *)

Lemma contact_sheets_in_margins_witness :
  exists result,
    contact_sheets 100 100 10
                   [mkMatSize 30 30; mkMatSize 40 30; mkMatSize 30 30;
                    mkMatSize 80 30]
    = Some result
    /\ Forall (Forall (in_margins 100 100 10)) result.
Proof.
  destruct (contact_sheets_in_margins 100 100 10
              [mkMatSize 30 30; mkMatSize 40 30; mkMatSize 30 30;
               mkMatSize 80 30])
    as (result & Hres & Hin & _).
  - lia.
  - discriminate.
  - repeat constructor; cbn; lia.
  - exists result. split; [exact Hres|exact Hin].
Defined.

Lemma contact_sheets_disjoint_witness :
  Forall pairwise_disjoint
         [[mkRect 10 10 30 30; mkRect 40 10 40 30; mkRect 10 40 30 30];
          [mkRect 10 10 80 30]].
Proof.
  apply (contact_sheets_disjoint 100 100 10 30
           [mkMatSize 30 30; mkMatSize 40 30; mkMatSize 30 30;
            mkMatSize 80 30]).
  - vm_compute. reflexivity.
  - repeat constructor.
Defined.

Lemma PadAndLabel_region_witness :
  exists out roi,
    PadAndLabel text_of_20_by_10 (mkMatSize 31 31) "0007" 4 = Some (out, roi)
    /\ region_size roi = mkMatSize 31 31.
Proof.
  destruct (PadAndLabel_region text_of_20_by_10 (mkMatSize 31 31) "0007" 4)
    as (out & roi & Hout & Hsize & _); cbn; try lia.
  exists out, roi. split; [exact Hout|exact Hsize].
Defined.

(** ** The sample square *)

Section SampleSquare_facts.
Context {T : Type} `{!Inhabited (Vec2 T)}.

(** X19: the markers of the sample square keep the form that the measurement
    relies on: when each board comes with as many corner lists as marker
    ids and four corners in each, so does the merged result.  Its marker
    ids are those of the top board followed by those of the bottom board
    plus 512, and a board without ChArUco corners gives no marker. *)
Theorem DetectSampleSquare_four_corners (top bottom : BoardResult T) :
  corners_for_ids (board_markers top) -> four_corners (board_markers top) ->
  four_corners (board_markers bottom) ->
  let res := board_markers (DetectSampleSquare top bottom) in
  corners_for_ids res
  /\ four_corners res
  /\ markerIds res
     = (match charucoIDs top with
        | [] => []
        | _ :: _ => markerIds (board_markers top)
        end)
       ++ (match charucoIDs bottom with
           | [] => []
           | _ :: _ => (fun id => id + 512)%Z
                         <$> markerIds (board_markers bottom)
           end).
Proof.
  intros Hlen Htop Hbot res. subst res. unfold DetectSampleSquare.
  set (res := match charucoIDs top with
              | [] => mkBoard [] [] (mkDetection [] [])
              | _ :: _ => top
              end).
  assert (Hres : corners_for_ids (board_markers res)
                 /\ four_corners (board_markers res)
                 /\ markerIds (board_markers res)
                    = match charucoIDs top with
                      | [] => []
                      | _ :: _ => markerIds (board_markers top)
                      end).
  { subst res. destruct (charucoIDs top); cbn; [|auto].
    split; [reflexivity|]. split; [|reflexivity].
    intros idx id Hid. cbn in Hid. rewrite lookup_nil in Hid. discriminate. }
  destruct Hres as (Hlen' & Hfour & Hids). rewrite <- Hids. clearbody res.
  destruct (charucoIDs bottom) as [|c cs].
  - rewrite app_nil_r. auto.
  - cbn [board_markers markerIds markerCorners]. split; [|split; [|reflexivity]].
    + unfold corners_for_ids in *. cbn.
      rewrite !length_app, length_imap, length_fmap, Hlen'. reflexivity.
    + intros idx id. cbn [markerIds markerCorners].
      unfold corners_for_ids in Hlen'.
      destruct (decide (idx < length (markerIds (board_markers res))))
        as [Hlt|Hge].
      * rewrite lookup_app_l by lia. intros Hid.
        rewrite lookup_total_app_l by lia. eapply Hfour; eauto.
      * rewrite lookup_app_r by lia. rewrite list_lookup_fmap.
        destruct (markerIds (board_markers bottom)
                    !! (idx - length (markerIds (board_markers res))))
          as [id2|] eqn:Hid2; [|discriminate]. intros _.
        rewrite lookup_total_app_r by lia. rewrite Hlen'.
        pose proof (lookup_lt_Some _ _ _ Hid2) as Hlt2.
        erewrite list_lookup_total_correct;
          [|rewrite list_lookup_imap, Hid2; reflexivity].
        eapply Hbot; eauto.
Qed.
End SampleSquare_facts.

Lemma board_with_marker_1_four_corners :
  four_corners (board_markers board_with_marker_1).
Proof.
  intros idx id Hid. destruct idx as [|idx]; [reflexivity|].
  cbn in Hid. discriminate.
Qed.

Lemma DetectSampleSquare_four_corners_witness :
  markerIds (board_markers
               (DetectSampleSquare (Inhabited0 := populate (mkVec2 0 0)%Z)
                                   board_with_marker_1 board_with_marker_1))
  = [1; 513]%Z.
Proof.
  exact (proj2 (proj2 (DetectSampleSquare_four_corners
                         (Inhabited0 := populate (mkVec2 0 0)%Z)
                         board_with_marker_1 board_with_marker_1
                         eq_refl board_with_marker_1_four_corners
                         board_with_marker_1_four_corners))).
Defined.

(** ** The scale histogram *)

Lemma count_in_Some hist b :
  (0 <= b < Z.of_nat (length hist))%Z ->
  exists hist',
    count_in hist b = Some hist'
    /\ length hist' = length hist
    /\ sum_list hist' = S (sum_list hist).
Proof.
  intros Hb. unfold count_in.
  destruct (Z.leb_spec 0 b); [|lia].
  destruct (Z.ltb_spec b (Z.of_nat (length hist))); [|lia].
  eexists. split; [reflexivity|]. split; [apply length_alter|].
  assert (Hn : Z.to_nat b < length hist) by lia.
  clear -Hn. revert hist Hn.
  induction (Z.to_nat b) as [|n IH]; intros [|c hist] Hn; cbn in *; try lia.
  rewrite IH by lia. lia.
Qed.

Lemma max_list_sum (hist : list nat) :
  0 < sum_list hist -> 0 < max_list hist.
Proof.
  induction hist as [|c hist IH]; cbn; [lia|]. intros H.
  destruct c; [|lia]. cbn in H. apply IH in H. lia.
Qed.

Lemma xreal_min_element (r0 : R) (rs : list R) :
  exists a,
    min_element (XFin r0) (map XFin rs) = XFin a
    /\ (a <= r0)%R /\ Forall (fun r => (a <= r)%R) rs.
Proof.
  unfold min_element. revert r0.
  induction rs as [|r rs IH]; intros r0; cbn [map foldl].
  - exists r0. split; [reflexivity|]. split; [lra|constructor].
  - cbn [s_lt xreal_Floating xreal_lt]. destruct (Rlt_dec r r0) as [Hlt|Hge].
    + destruct (IH r) as (a & Ha & Hle & Hall). exists a.
      split; [exact Ha|]. split; [lra|]. constructor; [exact Hle|exact Hall].
    + destruct (IH r0) as (a & Ha & Hle & Hall). exists a.
      split; [exact Ha|]. split; [exact Hle|]. constructor; [lra|exact Hall].
Qed.

Lemma xreal_max_element (r0 : R) (rs : list R) :
  exists b,
    max_element (XFin r0) (map XFin rs) = XFin b
    /\ (r0 <= b)%R /\ Forall (fun r => (r <= b)%R) rs.
Proof.
  unfold max_element. revert r0.
  induction rs as [|r rs IH]; intros r0; cbn [map foldl].
  - exists r0. split; [reflexivity|]. split; [lra|constructor].
  - cbn [s_lt xreal_Floating xreal_lt]. destruct (Rlt_dec r0 r) as [Hlt|Hge].
    + destruct (IH r) as (b & Hb & Hle & Hall). exists b.
      split; [exact Hb|]. split; [lra|]. constructor; [exact Hle|exact Hall].
    + destruct (IH r0) as (b & Hb & Hle & Hall). exists b.
      split; [exact Hb|]. split; [exact Hle|]. constructor; [lra|exact Hall].
Qed.

Lemma xreal_bin (a b r : R) :
  (a < b)%R -> (a <= r <= b)%R ->
  exists z,
    xreal_to_int (s_div (s_sub (XFin r) (XFin a))
                        (s_div (s_sub (XFin b) (XFin a)) (s_of_nat nbins)))
    = Some z
    /\ (0 <= Z.min z (Z.of_nat nbins - 1) < Z.of_nat nbins)%Z.
Proof.
  intros Hab Hr. cbn [s_div s_sub s_of_nat xreal_Floating xreal_div xreal_lift2].
  set (q := ((r - a) / ((b - a) / INR nbins))%R).
  assert (Hn : INR nbins = 50%R) by (unfold nbins; cbn; lra).
  assert (Ht : (0 <= (r - a) / (b - a) <= 1)%R).
  { split.
    - apply Rmult_le_pos; [lra|]. apply Rlt_le, Rinv_0_lt_compat. lra.
    - apply Rmult_le_reg_r with (b - a)%R; [lra|].
      unfold Rdiv. rewrite Rmult_assoc, Rinv_l by lra. lra. }
  assert (Hq : (0 <= q <= 50)%R).
  { replace q with (50 * ((r - a) / (b - a)))%R; [lra|].
    subst q. rewrite Hn. field. lra. }
  unfold xreal_to_int. destruct (Rle_dec 0 q) as [_|Hneg]; [|lra].
  assert (H0 : (0 <= Int_part q)%Z).
  { replace 0%Z with (Int_part 0); [apply Int_part_mono; lra|].
    symmetry. apply Int_part_spec. cbn. lra. }
  assert (H50 : (Int_part q <= 50)%Z).
  { replace 50%Z with (Int_part 50); [apply Int_part_mono; lra|].
    symmetry. apply Int_part_spec. cbn. lra. }
  destruct (Z.leb_spec (- 2 ^ 31) (Int_part q)); [|lia].
  destruct (Z.ltb_spec (Int_part q) (2 ^ 31)); [|lia].
  eexists. split; [reflexivity|]. unfold nbins. lia.
Qed.

Lemma xreal_bin_counts (a b : R) (rs : list R) (hist : list nat) :
  (a < b)%R -> Forall (fun r => (a <= r <= b)%R) rs -> length hist = nbins ->
  exists hist',
    foldl (fun hist v =>
             hist ← hist;
             b ← xreal_to_int
                   (s_div (s_sub v (XFin a))
                          (s_div (s_sub (XFin b) (XFin a)) (s_of_nat nbins)));
             count_in hist (Z.min b (Z.of_nat nbins - 1)))
          (Some hist) (map XFin rs)
    = Some hist'
    /\ length hist' = nbins
    /\ sum_list hist' = sum_list hist + length rs.
Proof.
  intros Hab Hall. revert hist.
  induction Hall as [|r rs Hr Hall IH]; intros hist Hlen; cbn [map foldl].
  - exists hist. split; [reflexivity|]. split; [exact Hlen|]. cbn. lia.
  - destruct (xreal_bin a b r Hab Hr) as (z & Hz & Hbin).
    cbn [mbind option_bind]. rewrite Hz. cbn [mbind option_bind].
    destruct (count_in_Some hist (Z.min z (Z.of_nat nbins - 1)))
      as (hist1 & H1 & Hlen1 & Hsum1); [lia|].
    rewrite H1. destruct (IH hist1) as (hist' & H' & Hlen' & Hsum');
      [lia|].
    exists hist'. split; [exact H'|]. split; [exact Hlen'|]. cbn. lia.
Qed.

(** X20: in exact arithmetic, for samples that are finite and not all equal,
    the histogram is defined: every sample is counted in one of the 50
    bins, so the counts add up to the number of samples, and the largest
    count, by which the bar heights are divided, is not 0. *)
Theorem scale_histogram_counts (r0 : R) (rs : list R) :
  let scales := map XFin (r0 :: rs) in
  s_lt (min_element (XFin r0) (map XFin rs))
       (max_element (XFin r0) (map XFin rs)) = true ->
  exists hist,
    scale_histogram xreal_to_int scales = Histogram hist (max_list hist)
    /\ length hist = nbins
    /\ sum_list hist = length scales
    /\ 0 < max_list hist.
Proof.
  intros scales Hlt. subst scales. cbn [map]. unfold scale_histogram.
  destruct (xreal_min_element r0 rs) as (a & Ha & Ha0 & Hall_a).
  destruct (xreal_max_element r0 rs) as (b & Hb & Hb0 & Hall_b).
  rewrite Ha, Hb in *. apply xreal_lt_true in Hlt.
  destruct (xreal_bin_counts a b (r0 :: rs) (replicate nbins 0) Hlt)
    as (hist & Hhist & Hlen & Hsum).
  { constructor; [lra|]. rewrite Forall_forall in *.
    intros r Hr. specialize (Hall_a r Hr). specialize (Hall_b r Hr). lra. }
  { apply length_replicate. }
  unfold bin_counts. cbn [map] in Hhist. rewrite Hhist.
  exists hist. split; [reflexivity|]. split; [exact Hlen|].
  assert (Hsum' : sum_list hist = length (XFin r0 :: map XFin rs)).
  { rewrite Hsum. cbn. rewrite length_map.
    replace (sum_list (replicate nbins 0)) with 0; [reflexivity|].
    unfold nbins. reflexivity. }
  split; [exact Hsum'|]. apply max_list_sum. rewrite Hsum'. cbn. lia.
Qed.

Lemma float_finite (v : float) :
  PrimFloat.is_finite v = true ->
  (exists s, Prim2SF v = S754_zero s)
  \/ (exists s m e, Prim2SF v = S754_finite s m e).
Proof.
  unfold PrimFloat.is_finite, PrimFloat.is_nan, PrimFloat.is_infinity.
  rewrite !FloatAxioms.eqb_spec, FloatAxioms.abs_spec.
  change (Prim2SF infinity) with (S754_infinity false).
  destruct (Prim2SF v) as [s|s| |s m e].
  - intros _. left. eauto.
  - destruct s; cbn; discriminate.
  - cbn. discriminate.
  - intros _. right. eauto.
Qed.

Lemma float_sub_diag (v : float) :
  PrimFloat.is_finite v = true -> (v - v)%float = 0%float.
Proof.
  intros Hv. rewrite <- (SF2Prim_Prim2SF (v - v)). rewrite FloatAxioms.sub_spec.
  destruct (float_finite v Hv) as [[s ->]|(s & m & e & ->)].
  - destruct s; reflexivity.
  - unfold SF64sub, SFsub. rewrite Z.sub_diag. reflexivity.
Qed.

Lemma float_ltb_irrefl (v : float) : (v <? v)%float = false.
Proof.
  rewrite FloatAxioms.ltb_spec. unfold SFltb.
  destruct (Prim2SF v) as [s|s| |s m e]; cbn; try reflexivity.
  - destruct s; reflexivity.
  - rewrite Z.compare_refl.
    change (PosDef.Pos.compare_cont Eq m m) with (Pos.compare m m).
    rewrite Pos.compare_refl. destruct s; reflexivity.
Qed.

Lemma float_extrema_replicate (v : float) (n : nat) :
  min_element v (replicate n v) = v /\ max_element v (replicate n v) = v.
Proof.
  unfold min_element, max_element.
  induction n as [|n [IH1 IH2]]; [split; reflexivity|].
  cbn [replicate foldl]. cbn [s_lt float_Floating].
  rewrite float_ltb_irrefl. split; assumption.
Qed.

(** X21: in binary64, for samples that are all one finite value, as for a
    single sample, the bin width is 0 and the quotient that is converted
    to [int] is a NaN: whatever the conversion is where it is defined, the
    histogram is not. *)
Theorem scale_histogram_equal_samples (to_int : float -> option Z)
    (v : float) (n : nat) :
  (forall a, s_isnan a = true -> to_int a = None) ->
  PrimFloat.is_finite v = true ->
  scale_histogram to_int (v :: replicate n v) = Histogram_undefined.
Proof.
  intros Hnan Hv. unfold scale_histogram.
  destruct (float_extrema_replicate v n) as [-> ->].
  unfold bin_counts. cbn [foldl mbind option_bind].
  cbn [s_sub s_div s_of_nat float_Floating].
  rewrite (float_sub_diag v Hv). rewrite Hnan by (vm_compute; reflexivity).
  cbn [mbind option_bind].
  generalize (replicate n v). intros l.
  induction l as [|x l IH]; [reflexivity|]. exact IH.
Qed.

(** ** The scale histogram of examples *)

Lemma scale_histogram_counts_witness :
  exists hist,
    scale_histogram xreal_to_int [XFin 1; XFin 2]
    = Histogram hist (max_list hist)
    /\ sum_list hist = 2.
Proof.
  assert (Hlt : s_lt (min_element (XFin 1) (map XFin [2%R]))
                     (max_element (XFin 1) (map XFin [2%R])) = true).
  { unfold min_element, max_element. cbn.
    destruct (Rlt_dec 2 1) as [H|_]; [lra|].
    destruct (Rlt_dec 1 2) as [_|H]; [|lra]. cbn.
    destruct (Rlt_dec 1 2) as [_|H]; [reflexivity|lra]. }
  destruct (scale_histogram_counts 1 [2%R] Hlt) as (hist & Hh & _ & Hsum & _).
  exists hist. split; [exact Hh|exact Hsum].
Defined.

Lemma scale_histogram_equal_samples_witness :
  scale_histogram zero_unless_nan [1%float] = Histogram_undefined.
Proof.
  apply (scale_histogram_equal_samples zero_unless_nan 1%float 0).
  - intros a Ha. unfold zero_unless_nan, PrimFloat.is_nan.
    unfold s_isnan in Ha. cbn in Ha. rewrite Ha. reflexivity.
  - vm_compute. reflexivity.
Defined.

(** ** The program from the views to the exit code *)

Section Pipeline_facts.
Context {T : Type} {FT : Floating T} {LT : Libm T}.
Context {Rng : Type}.
Variable seed_rng : N -> Rng.
Variable std_sample :
  list (RansacObservation T) -> nat -> Rng -> list (RansacObservation T) * Rng.
Variable TriangulateNViewAlgebraic :
  list (Vec3 T) -> list (Mat34 T) -> bool * Vec4 T.
Variable Vec3_default : Vec3 T.
Variable sfmData : SfM_Data T.
Variable undistortImages : bool.
Variable no_ransac : bool.

Local Abbreviation triangulate_landmark' :=
  (triangulate_landmark seed_rng std_sample TriangulateNViewAlgebraic
     Vec3_default sfmData undistortImages no_ransac).
Local Abbreviation triangulate_landmarks' :=
  (triangulate_landmarks seed_rng std_sample TriangulateNViewAlgebraic
     Vec3_default sfmData undistortImages no_ransac).
Local Abbreviation global_scaler' :=
  (global_scaler seed_rng std_sample TriangulateNViewAlgebraic
     Vec3_default sfmData undistortImages no_ransac).

Lemma detect_landmarks_obs_at
    (views : list (ViewID * DetectionResult T)) (markerID : Z) (i : nat) :
  obs_at (detect_landmarks views).2 (GetLandmarkID markerID (Z.of_nat i))
  = corner_observations views markerID i.
Proof.
  unfold detect_landmarks, corner_observations.
  rewrite (foldl_obs_at_state snd track_view
             (fun view : ViewID * DetectionResult T =>
                imap pair (markerIds view.2) ≫= fun im =>
                  if decide (im.2 = markerID)
                  then option_list
                         (pair view.1 <$> (markerCorners view.2 !!! im.1) !! i)
                  else [])).
  - reflexivity.
  - intros st view. unfold track_view.
    apply (foldl_obs_at_state snd). intros s im. cbn [snd].
    apply obs_at_track_corners.
Qed.

Lemma detect_landmarks_corner_keys (views : list (ViewID * DetectionResult T)) :
  corner_keys (detect_landmarks views).2.
Proof.
  unfold detect_landmarks.
  apply (foldl_preserves (fun st : gset Z * Landmarks T => corner_keys st.2)).
  - intros st view _ Hst. unfold track_view.
    apply (foldl_preserves (fun st : gset Z * Landmarks T => corner_keys st.2));
      [|exact Hst].
    intros s im _ Hs. cbn [snd]. unfold track_corners.
    apply (foldl_preserves corner_keys); [|exact Hs].
    intros lms ic _ Hlms key. rewrite add_observation_lookup.
    destruct (decide (key = GetLandmarkID im.2 (Z.of_nat ic.1))) as [->|Hne].
    + intros _. eauto.
    + apply Hlms.
  - intros key. cbn. rewrite lookup_empty. intros [? [=]].
Qed.

Lemma foldl_triangulate_landmark_few (l : list (string * Landmark T)) st :
  (forall e, e ∈ l -> length (ldm_obs e.2) < 3) ->
  foldl triangulate_landmark' st l
  = mkPass (landmarks st) (numTriangulated st)
           (messages st
              ++ map (fun e => WARNING_not_enough_observations e.1) l)
           (pass_rng st).
Proof.
  revert st. induction l as [|e l IH]; intros st Hl; cbn [foldl map].
  - rewrite app_nil_r. destruct st; reflexivity.
  - rewrite IH by (intros e' He'; apply Hl; right; exact He').
    unfold triangulate_landmark at 1 2 3 4.
    assert (He : length (ldm_obs e.2) < 3) by (apply Hl; left).
    apply Nat.ltb_lt in He. rewrite He. cbn.
    rewrite <- app_assoc. reflexivity.
Qed.

(** X22: when no marker corner was observed three times, as with no
    marker in sight, nothing is triangulated and
    the program ends with [NO_LDMS]: the landmarks are those of the
    detection, and the messages are a warning for every landmark, in key
    order, and the error, whatever the solver and the [--no-ransac]
    option are. *)
Theorem global_scaler_few_observations
    (views : list (ViewID * DetectionResult T)) (markerSize : T) (g : Rng) :
  views <> [] ->
  (forall markerID i, length (corner_observations views markerID i) < 3) ->
  let r := global_scaler' views markerSize g in
  let lms := (detect_landmarks views).2 in
  result r = Exit NO_LDMS
  /\ out_landmarks r = lms
  /\ out_messages r
     = map (fun e => WARNING_not_enough_observations e.1)
           (landmark_entries lms)
       ++ [ERROR_not_enough_landmarks].
Proof.
  intros Hviews Hfew r lms. subst r lms. unfold global_scaler.
  destruct views as [|view views]; [congruence|].
  set (vs := view :: views) in *.
  destruct (detect_landmarks vs) as [ids lms] eqn:Hdet. cbn [snd].
  assert (Hobs : forall e, e ∈ landmark_entries lms ->
                   length (ldm_obs e.2) < 3).
  { intros [key ldm] He. apply landmark_entries_elem_of in He.
    cbn in He. cbn.
    destruct (detect_landmarks_corner_keys vs key) as (markerID & i & ->).
    { rewrite Hdet. cbn. rewrite He. eauto. }
    specialize (Hfew markerID i).
    rewrite <- detect_landmarks_obs_at, Hdet in Hfew. cbn in Hfew.
    unfold obs_at in Hfew. rewrite He in Hfew. exact Hfew. }
  unfold triangulate_landmarks.
  rewrite (foldl_triangulate_landmark_few _ _ Hobs). cbn.
  unfold estimate_scale. cbn. auto.
Qed.
End Pipeline_facts.

(** One view with marker 7: every corner was observed once, and the
    program ends with [NO_LDMS]. *)
Lemma global_scaler_few_observations_witness :
  result (global_scaler (T := float) (LT := libm_series) (fun _ => tt)
                        (fun x n g => (take n x, g)) first_bearing
                        (vec3_of_nat 0 0 0) one_camera false false
                        one_view 2%float tt)
  = Exit NO_LDMS.
Proof.
  assert (Hfew : forall markerID i,
             length (corner_observations (T := float) one_view markerID i) < 3).
  { intros markerID i. unfold corner_observations, one_view.
    cbn [mbind list_bind imap app fst snd markerIds markerCorners].
    destruct (decide (7%Z = markerID)); [|cbn; lia].
    rewrite app_nil_r.
    match goal with |- context [?l !! i] => destruct (l !! i) end; cbn; lia. }
  assert (Hne : one_view (T := float) <> []) by discriminate.
  exact (proj1 (global_scaler_few_observations (LT := libm_series)
                  (fun _ => tt)
                  (fun x n g => (take n x, g)) first_bearing
                  (vec3_of_nat 0 0 0) one_camera false false
                  one_view 2%float tt Hne Hfew)).
Defined.

(** ** The noise warning *)

Section Noise_facts.
Context {T : Type} {FT : Floating T} {LT : Libm T}.
Context {Rng : Type}.
Variable seed_rng : N -> Rng.
Variable std_sample :
  list (RansacObservation T) -> nat -> Rng -> list (RansacObservation T) * Rng.
Variable TriangulateNViewAlgebraic :
  list (Vec3 T) -> list (Mat34 T) -> bool * Vec4 T.
Variable Vec3_default : Vec3 T.
Variable sfmData : SfM_Data T.
Variable undistortImages : bool.
Variable no_ransac : bool.

Local Abbreviation triangulate_landmarks' :=
  (triangulate_landmarks seed_rng std_sample TriangulateNViewAlgebraic
     Vec3_default sfmData undistortImages no_ransac).
Local Abbreviation landmark_warning' :=
  (landmark_warning seed_rng std_sample TriangulateNViewAlgebraic Vec3_default
     sfmData undistortImages no_ransac).
Local Abbreviation global_scaler' :=
  (global_scaler seed_rng std_sample TriangulateNViewAlgebraic Vec3_default
     sfmData undistortImages no_ransac).

Lemma expected_scales_length (markerSize : T) (markerIDs : gset Z)
    (lms : Landmarks T) :
  length (expected_scales markerSize markerIDs lms) <= 4 * size markerIDs.
Proof.
  unfold expected_scales.
  assert (Hlen : length (merge_sort Z.le (elements markerIDs))
                 = size markerIDs).
  { rewrite merge_sort_Permutation. reflexivity. }
  rewrite <- Hlen. clear Hlen.
  induction (merge_sort Z.le (elements markerIDs)) as [|id l IH]; [cbn; lia|].
  rewrite bind_cons, length_app. cbn [length].
  assert (Hedges : length (omap (edge_sample markerSize lms id) marker_edges)
                   <= 4).
  { unfold marker_edges. cbn [omap list_omap].
    repeat match goal with
           | |- context [edge_sample ?m ?l ?i ?e] =>
               destruct (edge_sample m l i e)
           end; cbn; lia. }
  lia.
Qed.

Lemma pass_messages_no_noise_warning (lms : Landmarks T) (g : Rng) :
  WARNING_sensitive_to_noise ∉ messages (triangulate_landmarks' lms g).
Proof.
  rewrite (triangulate_landmarks_messages _ _ _ _ _ _ _ lms g g).
  intros (k & ldm & _ & Hm). unfold landmark_warning in Hm.
  repeat case_match;
    repeat (apply elem_of_cons in Hm as [Hm|Hm]; [discriminate|]);
    inversion Hm.
Qed.

(** X23: a scale comes with the warning that it may be sensitive to noise
    exactly when it is the mean of fewer than 10 samples.  A marker gives
    at most 4 samples, so a scale from fewer than 3 detected markers
    always comes with the warning. *)
Theorem noise_warning_iff
    (views : list (ViewID * DetectionResult T)) (markerSize : T) (g : Rng)
    (s : T) :
  let r := global_scaler' views markerSize g in
  let det := detect_landmarks views in
  let scales :=
    (measure_landmarks markerSize det.1
                       (landmarks (triangulate_landmarks' det.2 g))).2 in
  result r = Scale s ->
  (WARNING_sensitive_to_noise ∈ out_messages r <-> length scales < 10)
  /\ length scales <= 4 * size det.1
  /\ (size det.1 < 3 -> WARNING_sensitive_to_noise ∈ out_messages r).
Proof.
  intros r det scales Hr.
  assert (Hlen : length scales <= 4 * size det.1).
  { subst scales. rewrite measure_landmarks_scales.
    apply expected_scales_length. }
  assert (Hiff : WARNING_sensitive_to_noise ∈ out_messages r
                 <-> length scales < 10).
  { subst r scales. unfold global_scaler in *.
    destruct views as [|view views]; [discriminate|].
    fold det in Hr |- *. destruct det as [ids lms]. cbn [fst snd] in *.
    pose proof (pass_messages_no_noise_warning lms g) as Hno.
    unfold estimate_scale in *.
    destruct (numTriangulated (triangulate_landmarks' lms g) <? 2);
      [discriminate|].
    destruct (measure_landmarks markerSize ids
                (landmarks (triangulate_landmarks' lms g)))
      as [lms' [|s0 scales]]; [discriminate|].
    cbn [snd out_messages]. rewrite elem_of_app.
    destruct (Nat.ltb_spec (length (s0 :: scales)) 10) as [Hlt|Hge].
    - split; [intros _; exact Hlt|]. intros _. right. left.
    - split; [|lia]. intros [Hin|Hin]; [contradiction|inversion Hin]. }
  split; [exact Hiff|]. split; [exact Hlen|].
  intros Hfew. apply Hiff. lia.
Qed.
End Noise_facts.

(** Marker 7 in three views, triangulated without RANSAC: the four edges
    give the scale 2, with the warning. *)
Lemma noise_warning_iff_witness :
  let r := global_scaler (T := float) (LT := libm_unused) (fun _ => tt)
                         (fun x n g => (take n x, g)) first_bearing
                         (vec3_of_nat 0 0 0) one_camera false true
                         three_views 2%float tt in
  result r = Scale 2%float
  /\ WARNING_sensitive_to_noise ∈ out_messages r.
Proof.
  intros r.
  assert (Hr : result r = Scale 2%float) by (vm_compute; reflexivity).
  split; [exact Hr|].
  destruct (noise_warning_iff (LT := libm_unused) (fun _ => tt)
              (fun x n g => (take n x, g)) first_bearing
              (vec3_of_nat 0 0 0) one_camera false true
              three_views 2%float tt 2%float Hr) as (_ & _ & Hfew).
  apply Hfew. vm_compute. lia.
Defined.
